(** * Minesweeper game engine (game.service.ts): model and verification

    Shallow embedding of the [GameService] class of ng-minesweeper-pro.

    Conventions of the embedding
    - JavaScript numbers that index the grid or count things are integers,
      modelled as [Z].
    - A run of a method is a value of [option A]: [None] stands for a run
      that does not complete normally on the typed state (a [TypeError]
      such as reading a property of [undefined], or an array write that
      would leave the rectangular [Tile[][]] shape).  Nothing is committed
      to the state subject in that case.  [Some a] is a normal return.
    - The service owns one snapshot; a method maps the current snapshot to
      the next one.  A method that returns without calling
      [_state$.next] maps the snapshot to itself.
    - [Math.random] and [Date.now] are inputs of a run: [rnd i] is the
      integer drawn at loop index [i] of the shuffle and [now] the clock.
    - The interval subscription and [localStorage] are collaborators and
      are not part of the model; the timer callback is the event [Tick]. *)

From stdpp Require Import base relations option list numbers.
From stdpp Require strings pretty.

Open Scope Z_scope.

(** ** Data model (models/tile.ts, models/game-state.ts) *)

Record Tile := mkTile {
  tile_x : Z;
  tile_y : Z;
  isMine : bool;
  isRevealed : bool;
  isFlagged : bool;
  adjacentMines : Z;
}.

Inductive GameStatus := Ready | Playing | Won | Lost.
Inductive Difficulty := Beginner | Intermediate | Expert | Custom.

Abbreviation Board := (list (list Tile)).

Record GameState := mkState {
  board : Board;
  rows : Z;
  cols : Z;
  mines : Z;
  flagsPlaced : Z;
  status : GameStatus;
  firstClick : bool;
  startedAt : option Z;
  elapsedMs : Z;
  minesLeft : Z;
  difficulty : Difficulty;
  hintsLeft : Z;
}.

Global Instance GameStatus_eq_dec : EqDecision GameStatus.
Proof. solve_decision. Defined.
Global Instance Difficulty_eq_dec : EqDecision Difficulty.
Proof. solve_decision. Defined.
Global Instance Tile_eq_dec : EqDecision Tile.
Proof. solve_decision. Defined.

(** Object spread with one field replaced: [{ ...t, f: v }]. *)
Definition setMine (t : Tile) (v : bool) : Tile :=
  mkTile (tile_x t) (tile_y t) v (isRevealed t) (isFlagged t) (adjacentMines t).
Definition setRevealed (t : Tile) (v : bool) : Tile :=
  mkTile (tile_x t) (tile_y t) (isMine t) v (isFlagged t) (adjacentMines t).
Definition setFlagged (t : Tile) (v : bool) : Tile :=
  mkTile (tile_x t) (tile_y t) (isMine t) (isRevealed t) v (adjacentMines t).
Definition setAdjacent (t : Tile) (v : Z) : Tile :=
  mkTile (tile_x t) (tile_y t) (isMine t) (isRevealed t) (isFlagged t) v.

Definition withBoard (s : GameState) (b : Board) : GameState :=
  mkState b (rows s) (cols s) (mines s) (flagsPlaced s) (status s)
    (firstClick s) (startedAt s) (elapsedMs s) (minesLeft s) (difficulty s)
    (hintsLeft s).
Definition withStatus (s : GameState) (st : GameStatus) : GameState :=
  mkState (board s) (rows s) (cols s) (mines s) (flagsPlaced s) st
    (firstClick s) (startedAt s) (elapsedMs s) (minesLeft s) (difficulty s)
    (hintsLeft s).
Definition withFirstClick (s : GameState) (v : bool) : GameState :=
  mkState (board s) (rows s) (cols s) (mines s) (flagsPlaced s) (status s)
    v (startedAt s) (elapsedMs s) (minesLeft s) (difficulty s) (hintsLeft s).
Definition withStartedAt (s : GameState) (v : option Z) : GameState :=
  mkState (board s) (rows s) (cols s) (mines s) (flagsPlaced s) (status s)
    (firstClick s) v (elapsedMs s) (minesLeft s) (difficulty s) (hintsLeft s).
Definition withElapsedMs (s : GameState) (v : Z) : GameState :=
  mkState (board s) (rows s) (cols s) (mines s) (flagsPlaced s) (status s)
    (firstClick s) (startedAt s) v (minesLeft s) (difficulty s) (hintsLeft s).
Definition withFlags (s : GameState) (placed left : Z) : GameState :=
  mkState (board s) (rows s) (cols s) (mines s) placed (status s)
    (firstClick s) (startedAt s) (elapsedMs s) left (difficulty s)
    (hintsLeft s).
Definition withHintsLeft (s : GameState) (v : Z) : GameState :=
  mkState (board s) (rows s) (cols s) (mines s) (flagsPlaced s) (status s)
    (firstClick s) (startedAt s) (elapsedMs s) (minesLeft s) (difficulty s) v.

(** ** Arrays *)

(** [a.length] as a number. *)
Definition len {A} (l : list A) : Z := Z.of_nat (length l).

(** [a[i]]: [None] is [undefined] (negative or past the end). *)
Definition ix {A} (l : list A) (i : Z) : option A :=
  if decide (0 ≤ i) then l !! Z.to_nat i else None.

(** [board[y][x]] as a value: the tile there, if both indices are in range. *)
Definition cell (b : Board) (y x : Z) : option Tile :=
  row ← ix b y; ix row x.

(** [board[y][x]] as an expression whose result is used as a tile: the outer
    [None] is the [TypeError] of indexing a missing row, the inner one the
    value [undefined]. *)
Definition at2 (b : Board) (y x : Z) : option (option Tile) :=
  row ← ix b y; Some (ix row x).

(** [board[y][x] = t].  A missing row is a [TypeError]; a column outside
    the row would grow the array or add a property, which leaves the
    [Tile[][]] shape. *)
Definition put2 (b : Board) (y x : Z) (t : Tile) : option Board :=
  row ← ix b y;
  if decide (0 ≤ x < len row)
  then Some (<[Z.to_nat y := <[Z.to_nat x := t]> row]> b)
  else None.

(** [board[0].length] *)
Definition width (b : Board) : option Z := row ← ix b 0; Some (len row).

(** A [for ... of] loop over [l] that threads a state and may fail. *)
Fixpoint foldM {A St} (f : St → A → option St) (s : St) (l : list A)
    : option St :=
  match l with
  | [] => Some s
  | a :: l' => s' ← f s a; foldM f s' l'
  end.

(** The nested loops [for dy in -1..1, for dx in -1..1], as [(dy, dx)]. *)
Definition deltas : list Z := [-1; 0; 1].
Definition offsets9 : list (Z * Z) := dy ← deltas; dx ← deltas; [(dy, dx)].
(** ... with [if (dx === 0 && dy === 0) continue]. *)
Definition offsets8 : list (Z * Z) :=
  filter (λ d, ¬ (d.2 = 0 ∧ d.1 = 0)) offsets9.

(** [Array.from({ length: n }, (_, i) => f(i))] *)
Definition arrayFrom {A} (n : Z) (f : Z → A) : list A := f <$> seqZ 0 n.

Definition createMatrix {A} (r c : Z) (factory : Z → Z → A) : list (list A) :=
  arrayFrom r (λ y, arrayFrom c (λ x, factory y x)).

(** [a.slice(0, e)] *)
Definition slice0 {A} (l : list A) (e : Z) : list A :=
  take (Z.to_nat (if decide (e < 0) then Z.max (len l + e) 0 else e)) l.

(** [a.filter(p).length] *)
Definition countIf {A} (p : A → bool) (l : list A) : Z :=
  len (filter (λ a, p a) l).

(** ** The service *)

Definition initialState (r c m : Z) (d : Difficulty) : GameState :=
  let b := createMatrix r c (λ y x, mkTile x y false false false 0) in
  mkState b r c m 0 Ready true None 0 m d 3.

Definition tileAt (s : GameState) (y x : Z) : option (option Tile) :=
  if decide (y < 0 ∨ rows s ≤ y ∨ x < 0 ∨ cols s ≤ x) then Some None
  else at2 (board s) y x.

(** [neighbors(board, x, y)].  The bounds are those of the array itself.
    An [undefined] entry pushed into the result makes every caller fail at
    its first property read, so it is reported here. *)
Definition neighbors (b : Board) (x y : Z) : option (list Tile) :=
  foldM (λ res d,
    let ny := y + d.1 in
    let nx := x + d.2 in
    if decide (0 ≤ ny < len b) then
      w ← width b;
      if decide (0 ≤ nx < w) then
        ot ← at2 b ny nx; t ← ot; Some (res ++ [t])
      else Some res
    else Some res) [] offsets8.

(** One iteration of the body of [recalculateAdjacency]. *)
Definition recalcCell (b : Board) (y x : Z) : option Board :=
  ot ← at2 b y x; t ← ot;
  if isMine t then put2 b y x (setAdjacent t 0)
  else
    ns ← neighbors b x y;
    put2 b y x (setAdjacent t (countIf isMine ns)).

(** [recalculateAdjacency(board)]: updates the array in place, cell after
    cell; the result is the array after the loops.  The inner bound
    [board[0].length] is read once per row here, as no write changes it. *)
Definition recalculateAdjacency (b : Board) : option Board :=
  foldM (λ b1 y,
    w ← width b1;
    foldM (λ b2 x, recalcCell b2 y x) b1 (seqZ 0 w)) b (seqZ 0 (len b)).

Definition revealAllMines (b : Board) : Board :=
  (λ row : list Tile,
     (λ t, if isMine t then setRevealed t true else t) <$> row) <$> b.

Definition countHiddenNonMines (b : Board) : Z :=
  foldl (λ n (row : list Tile),
    foldl (λ k t, if negb (isMine t) && negb (isRevealed t) then k + 1 else k)
      n row) 0 b.

(** *** Mine placement *)

(** [[c[i], c[j]] = [c[j], c[i]]]; both indices are in range in the loop. *)
Definition swap (l : list Z) (i j : nat) : list Z :=
  match l !! i, l !! j with
  | Some a, Some b => <[j := a]> (<[i := b]> l)
  | _, _ => l
  end.

(** [for (i = from; i > 0; i--) { j = floor(random() * (i + 1)); swap }].
    [Math.random()] lies in [0, 1), so [j] is one of [0..i]; the draw is
    an arbitrary natural reduced modulo [i + 1]. *)
Fixpoint shuffleFrom (rnd : nat → nat) (i : nat) (l : list Z) : list Z :=
  match i with
  | O => l
  | S i' => shuffleFrom rnd i' (swap l i (rnd i `mod` (i + 1))%nat)
  end.

Definition shuffle (rnd : nat → nat) (l : list Z) : list Z :=
  shuffleFrom rnd (length l - 1)%nat l.

(** The set [forbidden] of linear indices around the safe tile. *)
Definition forbidden (s : GameState) (safeX safeY : Z) : list Z :=
  foldl (λ acc d,
    let y := safeY + d.1 in
    let x := safeX + d.2 in
    if decide (0 ≤ y ∧ y < rows s ∧ 0 ≤ x ∧ x < cols s)
    then acc ++ [y * cols s + x] else acc) [] offsets9.

(** [indices.filter(i => !forbidden.has(i))] *)
Definition candidates (s : GameState) (safeX safeY : Z) : list Z :=
  let total := rows s * cols s in
  let indices := arrayFrom total (λ i, i) in
  filter (λ i, i ∉ forbidden s safeX safeY) indices.

(** The set [minePositions]: the first [mines] shuffled candidates. *)
Definition minePositions (rnd : nat → nat) (s : GameState) (safeX safeY : Z)
    : list Z :=
  slice0 (shuffle rnd (candidates s safeX safeY)) (mines s).

(** The loop [for (i = 0; i < total; i++)] that marks the mines on the
    copied board. *)
Definition markMines (mp : list Z) (s : GameState) : option Board :=
  foldM (λ b i,
    let y := i `div` cols s in
    let x := i `rem` cols s in
    if decide (i ∈ mp) then
      ot ← at2 b y x; t ← ot; put2 b y x (setMine t true)
    else Some b) (board s) (seqZ 0 (rows s * cols s)).

Definition placeMinesAfterFirstClick (rnd : nat → nat) (s : GameState)
    (safeX safeY : Z) : option GameState :=
  b ← markMines (minePositions rnd s safeX safeY) s;
  b' ← recalculateAdjacency b;
  Some (withBoard s b').

(** *** Flood fill *)

(** The closure [enqueue]; [visited] holds the keys [y + ':' + x], which
    determine the pair [(y, x)]. *)
Definition enqueue (r c : Z) (qv : list (Z * Z) * list (Z * Z)) (x y : Z)
    : list (Z * Z) * list (Z * Z) :=
  if decide (x < 0 ∨ c ≤ x ∨ y < 0 ∨ r ≤ y) then qv
  else if decide ((y, x) ∈ qv.2) then qv
  else (qv.1 ++ [(x, y)], (y, x) :: qv.2).

(** The [while (queue.length)] loop.  Every iteration dequeues a position
    that was put into [visited] once, so the loop body runs at most
    [rows * cols] times; [fuel] is that bound. *)
Fixpoint floodLoop (fuel : nat) (r c : Z) (queue visited : list (Z * Z))
    (out : Board) : option Board :=
  match queue with
  | [] => Some out
  | (x, y) :: q =>
    match fuel with
    | O => None
    | S fuel' =>
      ot ← at2 out y x; t ← ot;
      if isRevealed t || isFlagged t then floodLoop fuel' r c q visited out
      else
        out' ← put2 out y x (setRevealed t true);
        if bool_decide (adjacentMines t = 0) && negb (isMine t) then
          let qv := foldl (λ qv d, enqueue r c qv (x + d.2) (y + d.1))
                      (q, visited) offsets8 in
          floodLoop fuel' r c qv.1 qv.2 out'
        else floodLoop fuel' r c q visited out'
    end
  end.

Definition revealFloodFill (b : Board) (startX startY : Z) : option Board :=
  let r := len b in
  c ← width b;
  let qv := enqueue r c ([], []) startX startY in
  floodLoop (Z.to_nat (r * c)) r c qv.1 qv.2 b.

(** *** Commands *)

Definition newGame (r c m : Z) (d : Difficulty) (s : GameState)
    : option GameState :=
  Some (initialState r c m d).

Inductive PresetName := PBeginner | PIntermediate | PExpert.

Definition PRESETS (p : PresetName) : Z * Z * Z * Difficulty :=
  match p with
  | PBeginner => (9, 9, 10, Beginner)
  | PIntermediate => (16, 16, 40, Intermediate)
  | PExpert => (16, 30, 99, Expert)
  end.

Definition newPreset (p : PresetName) (s : GameState) : option GameState :=
  let '(r, c, m, d) := PRESETS p in newGame r c m d s.

Definition restart (s : GameState) : option GameState :=
  newGame (rows s) (cols s) (mines s) (difficulty s) s.

Definition finished (s : GameState) : bool :=
  bool_decide (status s = Lost) || bool_decide (status s = Won).

Definition toggleFlag (s : GameState) (x y : Z) : option GameState :=
  if finished s then Some s else
  ot ← tileAt s y x;
  match ot with
  | None => Some s
  | Some t =>
    if isRevealed t then Some s else
    let flagged := negb (isFlagged t) in
    b ← put2 (board s) (tile_y t) (tile_x t) (setFlagged t flagged);
    let placed := flagsPlaced s + (if flagged then 1 else -1) in
    let left := Z.max 0 (mines s - placed) in
    Some (withFlags (withBoard s b) placed left)
  end.

(** The first-click block of [reveal] (the [if (s.firstClick)] statement). *)
Definition revealBegin (rnd : nat → nat) (now : Z) (s : GameState) (t : Tile)
    : option GameState :=
  if firstClick s then
    s' ← placeMinesAfterFirstClick rnd s (tile_x t) (tile_y t);
    Some (withStartedAt (withFirstClick (withStatus s' Playing) false)
            (Some now))
  else Some s.

(** The check after a flood fill, shared by [reveal] and [chord]. *)
Definition settle (s : GameState) : GameState :=
  if decide (countHiddenNonMines (board s) = 0) then withStatus s Won else s.

(** The rest of [reveal], from [if (t.isMine)] on; [t] is the tile read
    before any mine was placed. *)
Definition revealEnd (s : GameState) (t : Tile) : option GameState :=
  if isMine t then
    Some (withStatus (withBoard s (revealAllMines (board s))) Lost)
  else
    b ← revealFloodFill (board s) (tile_x t) (tile_y t);
    Some (settle (withBoard s b)).

Definition reveal (rnd : nat → nat) (now : Z) (s : GameState) (x y : Z)
    : option GameState :=
  if finished s then Some s else
  ot ← tileAt s y x;
  match ot with
  | None => Some s
  | Some t =>
    if isRevealed t || isFlagged t then Some s else
    s1 ← revealBegin rnd now s t;
    revealEnd s1 t
  end.

(** One iteration of [for (const n of neighbors)] in [chord]; [n] is the
    tile as it was when [neighbors] was called. *)
Definition chordStep (acc : Board * bool) (n : Tile) : option (Board * bool) :=
  if negb (isFlagged n) && negb (isRevealed n) then
    if isMine n then
      b ← put2 acc.1 (tile_y n) (tile_x n) (setRevealed n true);
      Some (b, true)
    else
      b ← revealFloodFill acc.1 (tile_x n) (tile_y n);
      Some (b, acc.2)
  else Some acc.

Definition chord (s : GameState) (x y : Z) : option GameState :=
  if negb (bool_decide (status s = Playing)) then Some s else
  ot ← tileAt s y x;
  match ot with
  | None => Some s
  | Some t =>
    if negb (isRevealed t) || isMine t || bool_decide (adjacentMines t = 0)
    then Some s else
    ns ← neighbors (board s) (tile_x t) (tile_y t);
    let flags := countIf isFlagged ns in
    if negb (bool_decide (flags = adjacentMines t)) then Some s else
    acc ← foldM chordStep (board s, false) ns;
    if (acc : Board * bool).2 then
      Some (withStatus (withBoard s (revealAllMines acc.1)) Lost)
    else Some (settle (withBoard s acc.1))
  end.

(** The scan of [useHint]: the first position, rows first, whose tile is
    not a mine, not revealed and not flagged. *)
Fixpoint scanHint (b : Board) (cells : list (Z * Z)) : option (option (Z * Z)) :=
  match cells with
  | [] => Some None
  | (y, x) :: rest =>
    ot ← at2 b y x; t ← ot;
    if negb (isMine t) && negb (isRevealed t) && negb (isFlagged t)
    then Some (Some (x, y))
    else scanHint b rest
  end.

Definition useHint (rnd : nat → nat) (now : Z) (s : GameState)
    : option GameState :=
  if bool_decide (hintsLeft s ≤ 0) || finished s then Some s else
  found ← scanHint (board s)
             (y ← seqZ 0 (rows s); x ← seqZ 0 (cols s); [(y, x)]);
  match found with
  | None => Some s
  | Some (x, y) =>
    s' ← reveal rnd now s x y;
    Some (withHintsLeft s' (Z.max 0 (hintsLeft s' - 1)))
  end.

(** The callback of the interval started by [startTimer]. *)
Definition tick (now : Z) (s : GameState) : option GameState :=
  match startedAt s with
  | Some t0 =>
    if negb (bool_decide (status s = Playing)) || bool_decide (t0 = 0)
    then Some s
    else Some (withElapsedMs s (now - t0))
  | None => Some s
  end.

(** ** The service as a transition system *)

Inductive Command :=
| NewGame (r c m : Z) (d : Difficulty)
| NewPreset (p : PresetName)
| Restart
| ToggleFlag (x y : Z)
| Reveal (x y : Z)
| Chord (x y : Z)
| UseHint
| Tick.

(** What a run draws from its environment. *)
Record Env := mkEnv { env_rnd : nat → nat; env_now : Z }.

Definition exec (e : Env) (c : Command) (s : GameState) : option GameState :=
  match c with
  | NewGame r c m d => newGame r c m d s
  | NewPreset p => newPreset p s
  | Restart => restart s
  | ToggleFlag x y => toggleFlag s x y
  | Reveal x y => reveal (env_rnd e) (env_now e) s x y
  | Chord x y => chord s x y
  | UseHint => useHint (env_rnd e) (env_now e) s
  | Tick => tick (env_now e) s
  end.

(** The snapshot after a command: a run that fails commits nothing. *)
Definition step (e : Env) (c : Command) (s : GameState) : GameState :=
  default s (exec e c s).

Definition run (es : list (Env * Command)) (s : GameState) : GameState :=
  foldl (λ s ec, step ec.1 ec.2 s) s es.

(** ** Specification vocabulary *)

(** A board is a grid of [r] rows of [c] tiles each ... *)
Definition grid (r c : Z) (b : Board) : Prop :=
  len b = Z.max r 0 ∧ Forall (λ row, len row = Z.max c 0) b.

(** ... whose tiles carry their own position. *)
Definition coords (b : Board) : Prop :=
  ∀ y x t, cell b y x = Some t → tile_x t = x ∧ tile_y t = y.

Definition board_ok (r c : Z) (b : Board) : Prop := grid r c b ∧ coords b.

(** The snapshots the service builds: the board has the recorded size. *)
Definition wf (s : GameState) : Prop := board_ok (rows s) (cols s) (board s).

(** Two boards of the same shape whose tiles are related one by one. *)
Definition tilewise (R : Tile → Tile → Prop) (b b' : Board) : Prop :=
  Forall2 (Forall2 R) b b'.

(** A relation between tiles that keeps the position fields. *)
Definition same_pos (t t' : Tile) : Prop :=
  tile_x t' = tile_x t ∧ tile_y t' = tile_y t.

(** The tiles around [(x, y)], in the order the loops visit them. *)
Definition neighborTiles (b : Board) (x y : Z) : list Tile :=
  omap (λ d, cell b (y + d.1) (x + d.2)) offsets8.

(** The configuration fields, which only [newGame] sets. *)
Definition sameConfig (s s' : GameState) : Prop :=
  rows s' = rows s ∧ cols s' = cols s ∧ mines s' = mines s ∧
  difficulty s' = difficulty s.

(** A configuration that leaves room for a safe first click anywhere. *)
Definition valid_config (r c m : Z) : Prop :=
  0 < r ∧ 0 < c ∧ 0 ≤ m ≤ r * c - 9.


(** The condition under which [chord] goes on to reveal tiles. *)
Definition chordable (s : GameState) (x y : Z) : Prop :=
  status s = Playing ∧
  (0 ≤ y < rows s ∧ 0 ≤ x < cols s) ∧
  ∃ t, cell (board s) y x = Some t ∧
       isRevealed t = true ∧ isMine t = false ∧ 0 < adjacentMines t ∧
       countIf isFlagged (neighborTiles (board s) x y) = adjacentMines t.

(** The number of mines among the in-bounds 8-neighbours of [(x, y)]. *)
Definition mineCount (b : Board) (x y : Z) : Z :=
  countIf isMine (neighborTiles b x y).

(** Every tile shows the mines around it; a mine shows 0. *)
Definition adjacencyOk (b : Board) : Prop :=
  ∀ y x t, cell b y x = Some t →
    adjacentMines t = if isMine t then 0 else mineCount b x y.

(** Only [adjacentMines] differs. *)
Definition sameButAdjacent (t t' : Tile) : Prop :=
  t' = setAdjacent t (adjacentMines t').

(** What mine placement may change of a tile: [isMine] and
    [adjacentMines]. *)
Definition sameButMines (t t' : Tile) : Prop :=
  same_pos t t' ∧ isRevealed t' = isRevealed t ∧ isFlagged t' = isFlagged t.

(** *** Flood fill *)

(** A tile the loop skips when it is dequeued. *)
Definition blocked (t : Tile) : bool := isRevealed t || isFlagged t.

(** A tile from which the loop goes on to the eight neighbours. *)
Definition spreads (t : Tile) : bool :=
  negb (blocked t) && bool_decide (adjacentMines t = 0) && negb (isMine t).

(** The positions the fill reaches from the start [(sx, sy)]: the start,
    and every neighbour of a reached tile that is hidden, unflagged, not a
    mine and shows 0. *)
Inductive floodReach (b : Board) (sx sy : Z) : Z → Z → Prop :=
| flood_start : floodReach b sx sy sx sy
| flood_step x y t d :
    floodReach b sx sy x y →
    cell b y x = Some t → spreads t = true → d ∈ offsets8 →
    floodReach b sx sy (x + d.2) (y + d.1).

(** What a fill may do to a tile: reveal it if it was neither revealed nor
    flagged. *)
Definition revealedOnly (t t' : Tile) : Prop :=
  t' = t ∨ (blocked t = false ∧ t' = setRevealed t true).

(** The key [y + ':' + x] of a queued position. *)
Definition key (p : Z * Z) : Z * Z := (p.2, p.1).

Definition inBounds (r c x y : Z) : Prop := 0 ≤ x < c ∧ 0 ≤ y < r.

(** The state of the fill of [b0] from [(sx, sy)] at the head of the
    [while] loop: [q] is the queue, [v] the visited keys, [out] the copy
    being revealed.  A position is processed once it has left the queue. *)
Record floodInv (r c : Z) (b0 : Board) (sx sy : Z)
    (q v : list (Z * Z)) (out : Board) : Prop := {
  fi_grid : grid r c out;
  fi_done : ∀ y x t, cell b0 y x = Some t →
    (y, x) ∈ v → (x, y) ∉ q → blocked t = false →
    cell out y x = Some (setRevealed t true);
  fi_keep : ∀ y x t, cell b0 y x = Some t →
    (y, x) ∉ v ∨ (x, y) ∈ q ∨ blocked t = true →
    cell out y x = Some t;
  fi_queue : ∀ p, p ∈ q → key p ∈ v;
  fi_nodup_q : NoDup q;
  fi_nodup_v : NoDup v;
  fi_reach : ∀ y x, (y, x) ∈ v → inBounds r c x y ∧ floodReach b0 sx sy x y;
  fi_closed : ∀ y x t d,
    (y, x) ∈ v → (x, y) ∉ q → cell b0 y x = Some t → spreads t = true →
    d ∈ offsets8 → inBounds r c (x + d.2) (y + d.1) →
    (y + d.1, x + d.2) ∈ v;
}.

(** *** Game invariants *)

(** The test of [countHiddenNonMines]. *)
Definition hiddenSafeTile (t : Tile) : bool :=
  negb (isMine t) && negb (isRevealed t).

(** Some tile that is not a mine is still hidden. *)
Definition hiddenSafe (b : Board) : Prop :=
  ∃ y x t, cell b y x = Some t ∧ isMine t = false ∧ isRevealed t = false.

(** No revealed tile carries a flag. *)
Definition noRevealedFlag (b : Board) : Prop :=
  ∀ y x t, cell b y x = Some t → isRevealed t = true → isFlagged t = false.

(** What [revealAllMines] may do to a tile. *)
Definition minesRevealed (t t' : Tile) : Prop :=
  t' = t ∨ (isMine t = true ∧ t' = setRevealed t true).

(** What [toggleFlag] may do to a tile. *)
Definition flagToggled (t t' : Tile) : Prop :=
  t' = t ∨ (isRevealed t = false ∧ t' = setFlagged t (negb (isFlagged t))).

(** The invariant of the snapshots of a game with at least one tile. *)
Definition gameInv (s : GameState) : Prop :=
  wf s ∧ 0 < rows s ∧ 0 < cols s ∧ adjacencyOk (board s) ∧
  match status s with
  | Ready =>
      firstClick s = true ∧
      ∀ y x t, cell (board s) y x = Some t →
               isMine t = false ∧ isRevealed t = false
  | Playing =>
      firstClick s = false ∧ hiddenSafe (board s) ∧ noRevealedFlag (board s)
  | Won =>
      countHiddenNonMines (board s) = 0 ∧ noRevealedFlag (board s)
  | Lost =>
      hiddenSafe (board s) ∧
      ∀ y x t, cell (board s) y x = Some t →
               isRevealed t = true → isFlagged t = true → isMine t = true
  end.

(** The commands that start a game over. *)
Definition isReset (c : Command) : bool :=
  match c with
  | NewGame _ _ _ _ | NewPreset _ | Restart => true
  | _ => false
  end.

(** The commands of a run: a new game needs a valid configuration. *)
Definition allowed (c : Command) : Prop :=
  match c with
  | NewGame r c m _ => valid_config r c m
  | _ => True
  end.

(** The snapshots of the service after a valid [newGame] and any further
    commands. *)
Inductive reachable : GameState → Prop :=
| reachable_new e r c m d s0 :
    valid_config r c m → reachable (step e (NewGame r c m d) s0)
| reachable_step e cmd s :
    reachable s → allowed cmd → reachable (step e cmd s).

(** The arrows of the status diagram. *)
Inductive statusEdge : GameStatus → GameStatus → Prop :=
| edge_start : statusEdge Ready Playing
| edge_win : statusEdge Playing Won
| edge_lose : statusEdge Playing Lost.

(** How one command may move the status: not at all, along one arrow, or,
    when the first click already uncovers every safe tile, along
    [Ready → Playing → Won] within the one [reveal]. *)
Definition statusMove (a b : GameStatus) : Prop :=
  a = b ∨ statusEdge a b ∨ (a = Ready ∧ b = Won).

(** The tiles that spread the fill and are connected to the start through
    such tiles: the zero region of the start as the loop sees it. *)
Inductive floodRegion (b : Board) (sx sy : Z) : Z → Z → Prop :=
| region_start t :
    cell b sy sx = Some t → spreads t = true → floodRegion b sx sy sx sy
| region_step x y d t :
    floodRegion b sx sy x y → d ∈ offsets8 →
    cell b (y + d.1) (x + d.2) = Some t → spreads t = true →
    floodRegion b sx sy (x + d.2) (y + d.1).

(** The maximal 8-connected region of tiles showing 0 that contains the
    start, whatever is revealed or flagged. *)
Inductive zeroRegion (b : Board) (sx sy : Z) : Z → Z → Prop :=
| zero_start t :
    cell b sy sx = Some t → adjacentMines t = 0 → zeroRegion b sx sy sx sy
| zero_step x y d t :
    zeroRegion b sx sy x y → d ∈ offsets8 →
    cell b (y + d.1) (x + d.2) = Some t → adjacentMines t = 0 →
    zeroRegion b sx sy (x + d.2) (y + d.1).

(** A game on one row of nine tiles without mines: tiles 1 and 3 are
    flagged, tile 2 is revealed, the two flags are removed. *)
Definition splitRowGame : GameState :=
  run [(mkEnv (λ i, i) 0, NewGame 1 9 0 Custom);
       (mkEnv (λ i, i) 0, ToggleFlag 1 0);
       (mkEnv (λ i, i) 0, ToggleFlag 3 0);
       (mkEnv (λ i, i) 5, Reveal 2 0);
       (mkEnv (λ i, i) 9, ToggleFlag 1 0);
       (mkEnv (λ i, i) 9, ToggleFlag 3 0)]
    (initialState 9 9 10 Beginner).

(** *** Loop invariants *)

(** The value [recalculateAdjacency] writes at [(x, y)] of board [b]. *)
Definition adjTarget (b : Board) (t : Tile) (x y : Z) : Tile :=
  setAdjacent t (if isMine t then 0 else mineCount b x y).

(** The array while the loops of [recalculateAdjacency] run on [b]: [P]
    holds of the cells written so far. *)
Definition written (r c : Z) (b : Board) (P : Z → Z → Prop) (cur : Board)
    : Prop :=
  grid r c cur ∧
  ∀ y x t, cell b y x = Some t →
    (P y x → cell cur y x = Some (adjTarget b t x y)) ∧
    (¬ P y x → cell cur y x = Some t).

(** The array during the marking loop of mine placement, before
    iteration [k]. *)
Definition marked (mp : list Z) (s : GameState) (k : Z) (cur : Board)
    : Prop :=
  grid (rows s) (cols s) cur ∧
  ∀ y x t, cell (board s) y x = Some t →
    cell cur y x =
    Some (if decide (y * cols s + x < k ∧ y * cols s + x ∈ mp)
          then setMine t true else t).

(** *** Vocabulary of the further properties *)

(** What [reveal], [chord] and [useHint] may do to a tile once the mines
    are laid: reveal it. *)
Definition opened (t t' : Tile) : Prop :=
  same_pos t t' ∧ isMine t' = isMine t ∧
  adjacentMines t' = adjacentMines t ∧ isFlagged t' = isFlagged t ∧
  (isRevealed t = true → isRevealed t' = true).

(** The state [reveal] works on after its first-click block. *)
Definition started (s : GameState) (b : Board) (now : Z) : GameState :=
  withStartedAt (withFirstClick (withStatus (withBoard s b) Playing) false)
    (Some now).

(** The number of tiles of the board that satisfy [p]. *)
Definition countTiles (p : Tile → bool) (b : Board) : Z :=
  countIf p (mjoin b).

(** No mine of the board is revealed. *)
Definition minesHidden (b : Board) : Prop :=
  ∀ y x t, cell b y x = Some t → isMine t = true → isRevealed t = false.

(** Every mine of the board is revealed. *)
Definition minesShown (b : Board) : Prop :=
  ∀ y x t, cell b y x = Some t → isMine t = true → isRevealed t = true.

(** A neighbour on which [chord] steps: not flagged, hidden, a mine. *)
Definition treadsOnMine (n : Tile) : bool :=
  negb (isFlagged n) && negb (isRevealed n) && isMine n.

(** The test of the scan of [useHint]. *)
Definition hintable (t : Tile) : bool :=
  negb (isMine t) && negb (isRevealed t) && negb (isFlagged t).

(** [(y', x')] comes before [(y, x)] in the order of the scan of
    [useHint]: rows first, then columns. *)
Definition scannedBefore (y' x' y x : Z) : Prop :=
  y' < y ∨ (y' = y ∧ x' < x).

(** *** The runs that commit a new snapshot *)

(** The snapshot a losing move commits. *)
Definition lost (s : GameState) (b : Board) : GameState :=
  withStatus (withBoard s (revealAllMines b)) Lost.

(** [toggleFlag(x, y)] flips the flag of a hidden tile. *)
Definition flagOutcome (s : GameState) (x y : Z) (s' : GameState) : Prop :=
  finished s = false ∧
  ∃ t b', cell (board s) y x = Some t ∧ isRevealed t = false ∧
    put2 (board s) y x (setFlagged t (negb (isFlagged t))) = Some b' ∧
    s' = withFlags (withBoard s b')
           (flagsPlaced s + (if isFlagged t then -1 else 1))
           (Z.max 0
              (mines s - (flagsPlaced s + (if isFlagged t then -1 else 1)))).

(** [reveal(x, y)] goes on past its guards: the first click, a step on a
    mine, or a fill. *)
Definition revealOutcome (rnd : nat → nat) (now : Z) (s : GameState)
    (x y : Z) (s' : GameState) : Prop :=
  ∃ t, cell (board s) y x = Some t ∧ finished s = false ∧
       isRevealed t = false ∧ isFlagged t = false ∧
    ((status s = Ready ∧
      ∃ b1 b2,
        placeMinesAfterFirstClick rnd s x y = Some (withBoard s b1) ∧
        revealFloodFill b1 x y = Some b2 ∧
        s' = settle (withBoard (started s b1 now) b2))
     ∨ (status s = Playing ∧ isMine t = true ∧ s' = lost s (board s))
     ∨ (status s = Playing ∧ isMine t = false ∧
        ∃ b2, revealFloodFill (board s) x y = Some b2 ∧
              s' = settle (withBoard s b2))).

(** [chord(x, y)] goes on past its guards. *)
Definition chordOutcome (s : GameState) (x y : Z) (s' : GameState) : Prop :=
  chordable s x y ∧
  ∃ cur hit,
    foldM chordStep (board s, false) (neighborTiles (board s) x y)
      = Some (cur, hit) ∧
    s' = if hit then lost s cur else settle (withBoard s cur).

(** [useHint()] finds a tile: the first one of the scan that is not a
    mine, not revealed and not flagged; it is revealed and a hint is
    spent. *)
Definition hintOutcome (rnd : nat → nat) (now : Z) (s s' : GameState)
    : Prop :=
  0 < hintsLeft s ∧
  ∃ x y t s1,
    cell (board s) y x = Some t ∧ hintable t = true ∧
    (∀ y' x' t', scannedBefore y' x' y x →
       cell (board s) y' x' = Some t' → hintable t' = false) ∧
    revealOutcome rnd now s x y s1 ∧
    s' = withHintsLeft s1 (Z.max 0 (hintsLeft s1 - 1)).

(** The timer callback writes the elapsed time. *)
Definition tickOutcome (now : Z) (s s' : GameState) : Prop :=
  status s = Playing ∧
  ∃ t0, startedAt s = Some t0 ∧ t0 ≠ 0 ∧ s' = withElapsedMs s (now - t0).

(** What a command other than [newGame]/[restart] does to the snapshot of
    a game: nothing, or one of the runs above. *)
Definition moved (e : Env) (s s' : GameState) : Prop :=
  (∃ x y, flagOutcome s x y s') ∨
  (∃ x y, revealOutcome (env_rnd e) (env_now e) s x y s') ∨
  (∃ x y, chordOutcome s x y s') ∨
  hintOutcome (env_rnd e) (env_now e) s s' ∨
  tickOutcome (env_now e) s s'.

(** What a command other than [toggleFlag], [newGame] and [restart] may do
    to a tile: the position and the flag stay, a revealed tile stays
    revealed. *)
Definition unflipped (t t' : Tile) : Prop :=
  same_pos t t' ∧ isFlagged t' = isFlagged t ∧
  (isRevealed t = true → isRevealed t' = true).

(** *** Games used as examples *)

Definition demoEnv : Env := mkEnv (λ i, i) 7.

(** A fresh game on a 4 x 4 board with 3 mines. *)
Definition demoFresh : GameState :=
  step demoEnv (NewGame 4 4 3 Custom) (initialState 9 9 10 Beginner).

(** The same game after a first click on the corner [(0, 0)]. *)
Definition demoGame : GameState := step demoEnv (Reveal 0 0) demoFresh.

(** *** Position keys *)

Module TileKey.
Import Stdlib.Strings.Ascii stdpp.strings stdpp.pretty.
Local Open Scope Z_scope.

(** The integers that are printed in plain decimal notation. *)
Definition printable (z : Z) : Prop := Z.abs z < 10 ^ 21.

(** The string [y + ':' + x] that [revealFloodFill] puts into [visited]
    and that [trackByTile] returns, for printable [y] and [x]. *)
Definition tileKey (y x : Z) : string := pretty y +:+ ":" +:+ pretty x.

(** A string without the separator. *)
Fixpoint noColon (s : string) : Prop :=
  match s with
  | EmptyString => True
  | String c s' => c ≠ ":"%char ∧ noColon s'
  end.

End TileKey.

(** * Verification *)

(** ** Arrays and boards *)

Section arrays.
Context {A : Type}.
Implicit Types (l : list A) (i j : Z).

Lemma ix_Some l i a : ix l i = Some a → 0 ≤ i < len l.
  Proof.
    unfold ix, len. case_decide; [|done].
    intros Hl%lookup_lt_Some. lia.
  Qed.

Lemma ix_None l i : ¬ (0 ≤ i < len l) → ix l i = None.
  Proof.
    unfold ix, len. intros Hi. case_decide; [|done].
    apply lookup_ge_None. lia.
  Qed.

Lemma ix_is_Some l i : 0 ≤ i < len l → is_Some (ix l i).
  Proof.
    unfold ix, len. intros Hi. case_decide; [|lia].
    apply lookup_lt_is_Some. lia.
  Qed.

Lemma ix_lookup l i : 0 ≤ i → ix l i = l !! Z.to_nat i.
  Proof. unfold ix. intros. by case_decide. Qed.

Lemma ix_insert l i j a :
    0 ≤ i < len l →
    ix (<[Z.to_nat i := a]> l) j = if decide (j = i) then Some a else ix l j.
  Proof.
    unfold ix, len. intros Hi. case_decide as Hj.
    - destruct (decide (j = i)) as [->|Hne].
      + apply list_lookup_insert_eq. lia.
      + apply list_lookup_insert_ne. lia.
    - destruct (decide (j = i)); [lia|done].
  Qed.

Lemma len_app l1 l2 : len (l1 ++ l2) = len l1 + len l2.
  Proof. unfold len. rewrite length_app. lia. Qed.

Lemma len_nonneg l : 0 ≤ len l.
  Proof. unfold len. lia. Qed.
End arrays.

Lemma ix_fmap {A B} (f : A → B) (l : list A) i : ix (f <$> l) i = f <$> ix l i.
Proof. unfold ix. case_decide; [|done]. apply list_lookup_fmap. Qed.

Lemma len_fmap {A B} (f : A → B) (l : list A) : len (f <$> l) = len l.
Proof. unfold len. by rewrite length_fmap. Qed.

Lemma len_seqZ m n : len (seqZ m n) = Z.max n 0.
Proof. unfold len. rewrite length_seqZ. lia. Qed.

Lemma ix_seqZ m n i : 0 ≤ i < n → ix (seqZ m n) i = Some (m + i).
Proof.
  intros Hi. rewrite ix_lookup by lia.
  rewrite lookup_seqZ. split; [lia|]. lia.
Qed.

Lemma ix_arrayFrom {A} n (f : Z → A) i :
  ix (arrayFrom n f) i = if decide (0 ≤ i < n) then Some (f i) else None.
Proof.
  unfold arrayFrom. rewrite ix_fmap. case_decide as Hi.
  - by rewrite ix_seqZ.
  - rewrite ix_None; [done|]. rewrite len_seqZ. lia.
Qed.

Lemma len_arrayFrom {A} n (f : Z → A) : len (arrayFrom n f) = Z.max n 0.
Proof. unfold arrayFrom. by rewrite len_fmap, len_seqZ. Qed.

Section boards.
Implicit Types (b : Board) (t : Tile) (r c x y : Z).

Lemma grid_row r c b y row : grid r c b → ix b y = Some row → len row = Z.max c 0.
  Proof.
    intros [_ Hc] Hy. unfold ix in Hy. case_decide; [|done].
    eapply Forall_lookup_1 in Hc; eauto.
  Qed.

Lemma cell_Some_inv b y x t :
    cell b y x = Some t → ∃ row, ix b y = Some row ∧ ix row x = Some t.
  Proof.
    unfold cell. destruct (ix b y) as [row|]; simpl; [|done]. eauto.
  Qed.

Lemma cell_bounds r c b y x t :
    grid r c b → cell b y x = Some t → 0 ≤ y < r ∧ 0 ≤ x < c.
  Proof.
    intros Hg (row & Hy & Hx)%cell_Some_inv.
    pose proof (grid_row _ _ _ _ _ Hg Hy) as Hl.
    apply ix_Some in Hy, Hx. destruct Hg as [Hr _]. lia.
  Qed.

Lemma cell_is_Some r c b y x :
    grid r c b → 0 ≤ y < r → 0 ≤ x < c → is_Some (cell b y x).
  Proof.
    intros Hg Hy Hx. destruct (ix_is_Some b y) as [row Hrow].
    { destruct Hg as [-> _]. lia. }
    unfold cell. rewrite Hrow. simpl. apply ix_is_Some.
    rewrite (grid_row _ _ _ _ _ Hg Hrow). lia.
  Qed.

Lemma cell_None r c b y x :
    grid r c b → ¬ (0 ≤ y < r ∧ 0 ≤ x < c) → cell b y x = None.
  Proof.
    intros Hg Hn. destruct (cell b y x) eqn:E; [|done].
    destruct Hn. eauto using cell_bounds.
  Qed.

Lemma at2_cell r c b y x :
    grid r c b → 0 ≤ y < r → at2 b y x = Some (cell b y x).
  Proof.
    intros Hg Hy. destruct (ix_is_Some b y) as [row Hrow].
    { destruct Hg as [-> _]. lia. }
    unfold at2, cell. by rewrite Hrow.
  Qed.

Lemma width_grid r c b : grid r c b → 0 < r → width b = Some (Z.max c 0).
  Proof.
    intros Hg Hr. destruct (ix_is_Some b 0) as [row Hrow].
    { destruct Hg as [-> _]. lia. }
    unfold width. rewrite Hrow. simpl. by rewrite (grid_row _ _ _ _ _ Hg Hrow).
  Qed.

  (** *** Writes *)

Lemma put2_Some b y x t t0 :
    cell b y x = Some t0 → is_Some (put2 b y x t).
  Proof.
    intros (row & Hy & Hx)%cell_Some_inv. unfold put2. rewrite Hy. simpl.
    apply ix_Some in Hx. case_decide; [eauto|lia].
  Qed.

Lemma put2_cell b y x t b' y' x' :
    put2 b y x t = Some b' →
    cell b' y' x' = if decide (y' = y ∧ x' = x) then Some t else cell b y' x'.
  Proof.
    unfold put2. destruct (ix b y) as [row|] eqn:Hy; simpl; [|done].
    case_decide as Hx; [|done]. intros [= <-].
    pose proof (ix_Some _ _ _ Hy) as Hyb.
    unfold cell. rewrite ix_insert by done.
    destruct (decide (y' = y)) as [->|Hne]; simpl.
    - rewrite ix_insert by done. rewrite Hy. simpl.
      destruct (decide (x' = x)) as [->|Hnx].
      + rewrite decide_True; done.
      + rewrite decide_False; [done|]. by intros [_ ?].
    - rewrite decide_False; [done|]. by intros [? _].
  Qed.

Lemma put2_tilewise (R : Tile → Tile → Prop) b y x t0 t b' :
    (∀ u, R u u) →
    cell b y x = Some t0 → R t0 t → put2 b y x t = Some b' → tilewise R b b'.
  Proof.
    intros Hrefl (row & Hy & Hx)%cell_Some_inv HR. unfold put2.
    rewrite Hy. simpl. case_decide as Hxb; [|done]. intros [= <-].
    pose proof (ix_Some _ _ _ Hy) as Hyb.
    rewrite ix_lookup in Hy by lia. rewrite ix_lookup in Hx by lia.
    unfold tilewise.
    rewrite <- (list_insert_id b (Z.to_nat y) row) at 1 by done.
    apply Forall2_insert.
    - apply Forall2_same_length_lookup_2; [done|].
      intros i u v Hu Hv. assert (u = v) as -> by congruence.
      apply Forall2_same_length_lookup_2; [done|].
      intros j p q Hp Hq. assert (p = q) as -> by congruence. apply Hrefl.
    - rewrite <- (list_insert_id row (Z.to_nat x) t0) at 1 by done.
      apply Forall2_insert; [|done].
      apply Forall2_same_length_lookup_2; [done|].
      intros j p q Hp Hq. assert (p = q) as -> by congruence. apply Hrefl.
  Qed.

  (** *** Tile-wise relations *)

Lemma tilewise_refl (R : Tile → Tile → Prop) b : (∀ u, R u u) → tilewise R b b.
  Proof.
    intros Hrefl. apply Forall2_same_length_lookup_2; [done|].
    intros i u v Hu Hv. assert (u = v) as -> by congruence.
    apply Forall2_same_length_lookup_2; [done|].
    intros j p q Hp Hq. assert (p = q) as -> by congruence. apply Hrefl.
  Qed.

Lemma tilewise_trans (R : Tile → Tile → Prop) b1 b2 b3 :
    (∀ u v w, R u v → R v w → R u w) →
    tilewise R b1 b2 → tilewise R b2 b3 → tilewise R b1 b3.
  Proof.
    intros Htr H12 H23. unfold tilewise in *.
    eapply Forall2_trans; [|done..].
    intros r1 r2 r3 Ha Hb. eapply Forall2_trans; [|done..]. apply Htr.
  Qed.

Lemma tilewise_ix (R : Tile → Tile → Prop) b b' y :
    tilewise R b b' →
    match ix b y, ix b' y with
    | Some row, Some row' => Forall2 R row row'
    | None, None => True
    | _, _ => False
    end.
  Proof.
    intros H. unfold ix. case_decide; [|done].
    destruct (b !! Z.to_nat y) as [row|] eqn:E.
    - destruct (Forall2_lookup_l _ _ _ _ _ H E) as (row' & -> & Hr). done.
    - apply lookup_ge_None in E. rewrite (Forall2_length H) in E.
      apply lookup_ge_None in E. by rewrite E.
  Qed.

Lemma tilewise_cell (R : Tile → Tile → Prop) b b' y x :
    tilewise R b b' →
    match cell b y x, cell b' y x with
    | Some t, Some t' => R t t'
    | None, None => True
    | _, _ => False
    end.
  Proof.
    intros H. pose proof (tilewise_ix R b b' y H) as Hy. unfold cell.
    destruct (ix b y) as [row|], (ix b' y) as [row'|]; simpl; try done.
    unfold ix. case_decide; [|done].
    destruct (row !! Z.to_nat x) as [t|] eqn:E.
    - destruct (Forall2_lookup_l _ _ _ _ _ Hy E) as (t' & -> & Hr). done.
    - apply lookup_ge_None in E. rewrite (Forall2_length Hy) in E.
      apply lookup_ge_None in E. by rewrite E.
  Qed.

Lemma tilewise_cell_l (R : Tile → Tile → Prop) b b' y x t :
    tilewise R b b' → cell b y x = Some t →
    ∃ t', cell b' y x = Some t' ∧ R t t'.
  Proof.
    intros H E. pose proof (tilewise_cell R b b' y x H) as Hc.
    rewrite E in Hc. destruct (cell b' y x); [eauto|done].
  Qed.

Lemma tilewise_cell_r (R : Tile → Tile → Prop) b b' y x t' :
    tilewise R b b' → cell b' y x = Some t' →
    ∃ t, cell b y x = Some t ∧ R t t'.
  Proof.
    intros H E. pose proof (tilewise_cell R b b' y x H) as Hc.
    rewrite E in Hc. destruct (cell b y x); [eauto|done].
  Qed.

Lemma tilewise_grid (R : Tile → Tile → Prop) r c b b' :
    tilewise R b b' → grid r c b → grid r c b'.
  Proof.
    intros H [Hr Hc]. split.
    - unfold len in *. by rewrite <- (Forall2_length H).
    - apply Forall_lookup_2. intros i row' Hi.
      destruct (Forall2_lookup_r _ _ _ _ _ H Hi) as (row & Hrow & Hrr).
      eapply Forall_lookup_1 in Hc; [|done]. simpl in Hc.
      unfold len in *. by rewrite <- (Forall2_length Hrr).
  Qed.

Lemma tilewise_board_ok (R : Tile → Tile → Prop) r c b b' :
    (∀ u v, R u v → same_pos u v) →
    tilewise R b b' → board_ok r c b → board_ok r c b'.
  Proof.
    intros Hpos H [Hg Hc]. split; [by eapply tilewise_grid|].
    intros y x t' Ht'.
    destruct (tilewise_cell_r R _ _ _ _ _ H Ht') as (t & Ht & HR).
    destruct (Hpos _ _ HR) as [-> ->]. by apply Hc.
  Qed.
End boards.

(** ** Loops *)

(** An invariant carried through a failing loop over any list. *)
Lemma foldM_inv {A St} (f : St → A → option St) (I : St → Prop) s l :
  I s →
  (∀ s a, a ∈ l → I s → ∃ s', f s a = Some s' ∧ I s') →
  ∃ s', foldM f s l = Some s' ∧ I s'.
Proof.
  revert s. induction l as [|a l IH]; intros s Hs Hf; simpl; [eauto|].
  destruct (Hf s a) as (s1 & -> & Hs1); [apply list_elem_of_here|done|].
  simpl. apply IH; [done|]. intros s2 a2 Ha2. apply Hf.
  by apply list_elem_of_further.
Qed.

(** The rule of a counting [for] loop: [I i] holds before iteration [i]. *)
Lemma foldM_seqZ {St} (f : St → Z → option St) (I : Z → St → Prop) m n s :
  0 ≤ n → I m s →
  (∀ i s, m ≤ i < m + n → I i s → ∃ s', f s i = Some s' ∧ I (i + 1) s') →
  ∃ s', foldM f s (seqZ m n) = Some s' ∧ I (m + n) s'.
Proof.
  intros Hn. rewrite <- (Z2Nat.id n) by done.
  generalize (Z.to_nat n) as k. clear n Hn. intros k. revert m s.
  induction k as [|k IH]; intros m s Hs Hf.
  - simpl. rewrite Z.add_0_r. eauto.
  - rewrite seqZ_cons by lia. simpl.
    destruct (Hf m s) as (s1 & -> & Hs1); [lia|done|]. simpl.
    replace (Z.pred (Z.of_nat (S k))) with (Z.of_nat k) by lia.
    destruct (IH (Z.succ m) s1) as (s2 & Hs2 & HI).
    + by replace (Z.succ m) with (m + 1) by lia.
    + intros i s' Hi. apply Hf. lia.
    + exists s2. split; [done|].
      by replace (m + Z.of_nat (S k)) with (Z.succ m + Z.of_nat k) by lia.
Qed.

(** A loop that only pushes onto a result array. *)
Lemma foldM_push {A B} (f : list B → A → option (list B)) (g : A → option B)
    res l :
  (∀ res a, a ∈ l → f res a = Some (res ++ option_list (g a))) →
  foldM f res l = Some (res ++ omap g l).
Proof.
  revert res. induction l as [|a l IH]; intros res Hf; simpl.
  - by rewrite app_nil_r.
  - rewrite (Hf res a) by apply list_elem_of_here. simpl. rewrite IH.
    + destruct (g a); simpl; [by rewrite <- app_assoc|by rewrite app_nil_r].
    + intros res' a' Ha'. apply Hf. by apply list_elem_of_further.
Qed.

(** ** Neighbourhoods *)

Lemma offsets9_eq :
  offsets9 = [(-1, -1); (-1, 0); (-1, 1); (0, -1); (0, 0); (0, 1);
              (1, -1); (1, 0); (1, 1)].
Proof. reflexivity. Qed.

Lemma elem_of_offsets9 d : d ∈ offsets9 ↔ (-1 ≤ d.1 ≤ 1) ∧ (-1 ≤ d.2 ≤ 1).
Proof.
  rewrite offsets9_eq. destruct d as [dy dx]. simpl.
  rewrite !elem_of_cons, elem_of_nil. split.
  - intros H. repeat (destruct H as [ [= -> ->] | H ]; [lia|]). done.
  - intros [Hy Hx].
    assert (dy = -1 ∨ dy = 0 ∨ dy = 1) as Hdy by lia.
    assert (dx = -1 ∨ dx = 0 ∨ dx = 1) as Hdx by lia.
    destruct Hdy as [-> | [-> | ->] ], Hdx as [-> | [-> | ->] ]; tauto.
Qed.

Lemma elem_of_offsets8 d : d ∈ offsets8 ↔ d ∈ offsets9 ∧ d ≠ (0, 0).
Proof.
  unfold offsets8. rewrite list_elem_of_filter. destruct d as [dy dx]. simpl.
  split.
  - intros [Hn Hd]. split; [done|]. intros [= -> ->]. by apply Hn.
  - intros [Hd Hn]. split; [|done]. intros [-> ->]. by apply Hn.
Qed.

Lemma neighbors_grid r c b x y :
  grid r c b → neighbors b x y = Some (neighborTiles b x y).
Proof.
  intros Hg. unfold neighbors, neighborTiles.
  rewrite (foldM_push _ (λ d, cell b (y + d.1) (x + d.2))); [done|].
  intros res d _. simpl. pose proof Hg as [Hlen _].
  case_decide as Hy.
  - rewrite (width_grid r c) by (done || lia). simpl.
    case_decide as Hx.
    + rewrite (at2_cell r c) by (done || lia). simpl.
      destruct (cell_is_Some r c b (y + d.1) (x + d.2)) as [t ->];
        [done|lia|lia|]. done.
    + rewrite (cell_None r c); [by rewrite app_nil_r|done|lia].
  - rewrite (cell_None r c); [by rewrite app_nil_r|done|lia].
Qed.

Lemma elem_of_neighborTiles b x y t :
  t ∈ neighborTiles b x y ↔
  ∃ d, d ∈ offsets8 ∧ cell b (y + d.1) (x + d.2) = Some t.
Proof. unfold neighborTiles. rewrite list_elem_of_omap. naive_solver. Qed.

Lemma tileAt_wf s y x : wf s → tileAt s y x = Some (cell (board s) y x).
Proof.
  intros [Hg _]. unfold tileAt. case_decide as Hb.
  - rewrite (cell_None (rows s) (cols s)); [done|done|lia].
  - apply (at2_cell (rows s) (cols s)); [done|lia].
Qed.

(** ** Simple facts about the commands *)

Lemma sameConfig_trans s1 s2 s3 :
  sameConfig s1 s2 → sameConfig s2 s3 → sameConfig s1 s3.
Proof. unfold sameConfig. intros (?&?&?&?) (?&?&?&?). repeat split; congruence. Qed.

Lemma placeMines_config rnd s x y s' :
  placeMinesAfterFirstClick rnd s x y = Some s' → sameConfig s s'.
Proof.
  unfold placeMinesAfterFirstClick. intros H.
  apply bind_Some in H as (b & _ & H). apply bind_Some in H as (b' & _ & H).
  injection H as <-. by repeat split.
Qed.

Lemma settle_config s : sameConfig s (settle s).
Proof. unfold settle. case_decide; by repeat split. Qed.

Lemma toggleFlag_config s x y s' : toggleFlag s x y = Some s' → sameConfig s s'.
Proof.
  unfold toggleFlag. destruct (finished s); [intros [= <-]; by repeat split|].
  intros H. apply bind_Some in H as ([t|] & _ & H).
  - destruct (isRevealed t); [injection H as <-; by repeat split|].
    apply bind_Some in H as (b & _ & H). injection H as <-.
    by repeat split.
  - injection H as <-. by repeat split.
Qed.

Lemma reveal_config rnd now s x y s' :
  reveal rnd now s x y = Some s' → sameConfig s s'.
Proof.
  unfold reveal. destruct (finished s); [intros [= <-]; by repeat split|].
  intros H. apply bind_Some in H as ([t|] & _ & H);
    [|injection H as <-; by repeat split].
  destruct (isRevealed t || isFlagged t);
    [injection H as <-; by repeat split|].
  apply bind_Some in H as (s1 & H1 & H).
  assert (sameConfig s s1) as Hc1.
  { unfold revealBegin in H1. destruct (firstClick s).
    - apply bind_Some in H1 as (s0 & H0 & H1). injection H1 as <-.
      apply placeMines_config in H0. exact H0.
    - injection H1 as <-. by repeat split. }
  eapply sameConfig_trans; [exact Hc1|].
  unfold revealEnd in H. destruct (isMine t).
  - injection H as <-. by repeat split.
  - apply bind_Some in H as (b & _ & H). injection H as <-.
    apply (settle_config (withBoard s1 b)).
Qed.

Lemma chord_config s x y s' : chord s x y = Some s' → sameConfig s s'.
Proof.
  unfold chord.
  destruct (negb _); [intros [= <-]; by repeat split|].
  intros H. apply bind_Some in H as ([t|] & _ & H);
    [|injection H as <-; by repeat split].
  destruct (_ || _); [injection H as <-; by repeat split|].
  apply bind_Some in H as (ns & _ & H).
  destruct (negb _); [injection H as <-; by repeat split|].
  apply bind_Some in H as (acc & _ & H).
  destruct (acc.2); injection H as <-; [by repeat split|].
  apply (settle_config (withBoard s acc.1)).
Qed.

Lemma useHint_config rnd now s s' :
  useHint rnd now s = Some s' → sameConfig s s'.
Proof.
  unfold useHint. destruct (_ || _); [intros [= <-]; by repeat split|].
  intros H. apply bind_Some in H as ([[x y]|] & _ & H);
    [|injection H as <-; by repeat split].
  apply bind_Some in H as (s1 & H1 & H). injection H as <-.
  apply reveal_config in H1. exact H1.
Qed.

Lemma step_exec e c s :
  (exec e c s = None ∧ step e c s = s) ∨ exec e c s = Some (step e c s).
Proof. unfold step. destruct (exec e c s); simpl; eauto. Qed.

(** C9. Every player command other than [newGame]/[restart], that is
    [toggleFlag], [reveal], [chord] and [useHint], leaves the fields [rows],
    [cols], [mines] and [difficulty] of the snapshot as they were, from
    every starting state (whatever the random draws and the clock). *)
Theorem commands_keep_config (e : Env) (s : GameState) (x y : Z) :
  sameConfig s (step e (ToggleFlag x y) s) ∧
  sameConfig s (step e (Reveal x y) s) ∧
  sameConfig s (step e (Chord x y) s) ∧
  sameConfig s (step e UseHint s).
Proof.
  repeat split.
  all: match goal with |- _ (step ?e ?c ?s) = _ =>
         destruct (step_exec e c s) as [[_ ->]|H]; [done|]; simpl in H end.
  all: first [ apply toggleFlag_config in H | apply reveal_config in H
             | apply chord_config in H | apply useHint_config in H ].
  all: destruct H as (?&?&?&?); done.
Qed.

(** ** Fresh games *)

Lemma cell_createMatrix r c (f : Z → Z → Tile) y x :
  cell (createMatrix r c f) y x =
  if decide (0 ≤ y < r ∧ 0 ≤ x < c) then Some (f y x) else None.
Proof.
  unfold cell, createMatrix. rewrite ix_arrayFrom.
  destruct (decide (0 ≤ y < r)) as [Hy|Hy]; simpl.
  - rewrite ix_arrayFrom. destruct (decide (0 ≤ x < c)).
    + by rewrite decide_True.
    + rewrite decide_False; [done|]. by intros [_ ?].
  - rewrite decide_False; [done|]. by intros [? _].
Qed.

Lemma grid_createMatrix r c (f : Z → Z → Tile) : grid r c (createMatrix r c f).
Proof.
  split.
  - unfold createMatrix. apply len_arrayFrom.
  - unfold createMatrix, arrayFrom. apply Forall_fmap, Forall_forall.
    intros y _. simpl. by rewrite len_fmap, len_seqZ.
Qed.

Lemma initialState_wf r c m d : wf (initialState r c m d).
Proof.
  split; simpl; [apply grid_createMatrix|].
  intros y x t. rewrite cell_createMatrix. case_decide; [|done].
  by intros [= <-].
Qed.



(** ** Chording and flagging *)

Lemma countIf_nonneg {A} (p : A → bool) l : 0 ≤ countIf p l.
Proof. unfold countIf. apply len_nonneg. Qed.

(** C7. [chord(x, y)] returns without committing anything (the snapshot is
    unchanged and no error is raised) unless the status is [Playing], the
    target is in bounds, revealed, not a mine, has [adjacentMines > 0] and
    the number of flagged in-bounds neighbours equals [adjacentMines]
    exactly; fewer or more flags abort the chord silently. *)
Theorem chord_noop_unless_chordable (s : GameState) (x y : Z) :
  wf s → ¬ chordable s x y → chord s x y = Some s.
Proof.
  intros Hwf Hn. unfold chord.
  destruct (bool_decide (status s = Playing)) eqn:Hst; simpl; [|done].
  apply bool_decide_eq_true in Hst.
  rewrite tileAt_wf by done. simpl.
  destruct (cell (board s) y x) as [t|] eqn:Ht; [|done].
  destruct Hwf as [Hg Hc].
  destruct (Hc _ _ _ Ht) as [-> ->].
  destruct (isRevealed t) eqn:Hrev; simpl; [|done].
  destruct (isMine t) eqn:Hmine; simpl; [done|].
  destruct (bool_decide (adjacentMines t = 0)) eqn:Hadj; [done|].
  apply bool_decide_eq_false in Hadj.
  rewrite (neighbors_grid (rows s) (cols s)) by done. simpl.
  destruct (bool_decide (_ = adjacentMines t)) eqn:Hfl; simpl; [|done].
  apply bool_decide_eq_true in Hfl. destruct Hn.
  split; [done|]. split; [by eapply cell_bounds|].
  exists t. split_and!; try done.
  pose proof (countIf_nonneg isFlagged (neighborTiles (board s) x y)). lia.
Qed.

Lemma toggleFlag_noop (s : GameState) (x y : Z) :
  wf s →
  finished s = true ∨ ¬ (0 ≤ y < rows s ∧ 0 ≤ x < cols s) ∨
  (∃ t, cell (board s) y x = Some t ∧ isRevealed t = true) →
  toggleFlag s x y = Some s.
Proof.
  intros Hwf H. pose proof Hwf as [Hg Hc].
  unfold toggleFlag. destruct (finished s) eqn:Hfin; [done|].
  rewrite tileAt_wf by done. simpl.
  destruct H as [H|[H|(t & Ht & Hr)]]; [done| |].
  - by rewrite (cell_None (rows s) (cols s)).
  - rewrite Ht. simpl. by rewrite Hr.
Qed.

Lemma toggleFlag_flip (s : GameState) (x y : Z) (t : Tile) :
  wf s → finished s = false →
  cell (board s) y x = Some t → isRevealed t = false →
  ∃ s', toggleFlag s x y = Some s' ∧
    cell (board s') y x = Some (setFlagged t (negb (isFlagged t))) ∧
    (∀ y' x', ¬ (y' = y ∧ x' = x) →
              cell (board s') y' x' = cell (board s) y' x') ∧
    flagsPlaced s' = flagsPlaced s + (if isFlagged t then -1 else 1) ∧
    minesLeft s' = Z.max 0 (mines s - flagsPlaced s') ∧
    status s' = status s ∧ firstClick s' = firstClick s ∧
    hintsLeft s' = hintsLeft s ∧ sameConfig s s' ∧ wf s'.
Proof.
  intros Hwf Hfin Ht Hr. pose proof Hwf as [Hg Hc].
  unfold toggleFlag. rewrite Hfin, tileAt_wf by done. simpl.
  rewrite Ht, Hr. destruct (Hc _ _ _ Ht) as [Hx Hy]. rewrite Hx, Hy.
  destruct (put2_Some (board s) y x (setFlagged t (negb (isFlagged t))) t Ht)
    as [b' Hb'].
  rewrite Hb'. simpl. eexists. split; [done|]. simpl.
  split; [|split; [|split; [|split]]].
  - rewrite (put2_cell _ _ _ _ _ _ _ Hb'). by rewrite decide_True.
  - intros y' x' Hne. rewrite (put2_cell _ _ _ _ _ _ _ Hb').
    by rewrite decide_False.
  - by destruct (isFlagged t).
  - done.
  - split_and!; try done. split.
    + eapply (tilewise_grid same_pos); [|done].
      eapply put2_tilewise; [| done | | done]; done.
    + intros y' x' t'. simpl. rewrite (put2_cell _ _ _ _ _ _ _ Hb').
      case_decide as Hd; [|apply Hc].
      destruct Hd as [-> ->]. intros [= <-]. simpl. done.
Qed.

(** C8. [toggleFlag(x, y)] changes nothing when the game is [Won] or [Lost],
    when the coordinate is out of bounds, or when the tile is revealed.
    Otherwise it flips [isFlagged] of that tile and of no other, moves
    [flagsPlaced] by +1 when flagging and by -1 when unflagging, and sets
    [minesLeft = max(0, mines - flagsPlaced)], which is never negative. *)
Theorem toggleFlag_spec (s : GameState) (x y : Z) :
  wf s →
  (finished s = true ∨ ¬ (0 ≤ y < rows s ∧ 0 ≤ x < cols s) ∨
   (∃ t, cell (board s) y x = Some t ∧ isRevealed t = true) →
   toggleFlag s x y = Some s) ∧
  (finished s = false → (0 ≤ y < rows s ∧ 0 ≤ x < cols s) →
   ∃ t, cell (board s) y x = Some t ∧
     (isRevealed t = false →
      ∃ s', toggleFlag s x y = Some s' ∧
        cell (board s') y x = Some (setFlagged t (negb (isFlagged t))) ∧
        (∀ y' x', ¬ (y' = y ∧ x' = x) →
                  cell (board s') y' x' = cell (board s) y' x') ∧
        flagsPlaced s' = flagsPlaced s + (if isFlagged t then -1 else 1) ∧
        minesLeft s' = Z.max 0 (mines s - flagsPlaced s') ∧
        0 ≤ minesLeft s' ∧
        status s' = status s ∧ firstClick s' = firstClick s ∧
        hintsLeft s' = hintsLeft s ∧ sameConfig s s' ∧ wf s')).
Proof.
  intros Hwf. split; [by apply toggleFlag_noop|].
  intros Hfin Hb. destruct Hwf as [Hg Hc].
  destruct (cell_is_Some _ _ _ y x Hg) as [t Ht]; [lia..|].
  exists t. split; [done|]. intros Hr.
  destruct (toggleFlag_flip s x y t)
    as (s' & Hs' & ? & ? & ? & Hml & ? & ? & ? & ? & ?); [by split|done..|].
  exists s'. split_and!; try done. rewrite Hml. lia.
Qed.

Lemma toggleFlag_spec_witness :
  toggleFlag (initialState 3 3 1 Custom) 7 7 = Some (initialState 3 3 1 Custom)
  ∧ ∃ s', toggleFlag (initialState 3 3 1 Custom) 1 2 = Some s' ∧
          cell (board s') 2 1 = Some (mkTile 1 2 false false true 0) ∧
          flagsPlaced s' = 1 ∧ minesLeft s' = 0.
Proof.
  pose proof (toggleFlag_spec (initialState 3 3 1 Custom) 7 7
                (initialState_wf 3 3 1 Custom)) as [Hnoop _].
  pose proof (toggleFlag_spec (initialState 3 3 1 Custom) 1 2
                (initialState_wf 3 3 1 Custom)) as [_ Hflip].
  split.
  - apply Hnoop. right. left. simpl. lia.
  - destruct Hflip as (t & Ht & Hflip); [done|simpl; lia|].
    vm_compute in Ht. injection Ht as <-.
    destruct Hflip as (s' & Hs' & Hcell & _ & Hfp & Hml & _); [done|].
    exists s'. split; [done|]. split; [done|]. split; [done|].
    rewrite Hml, Hfp. done.
Defined.

(** ** Adjacency counts *)

Lemma put2_Some_inv b y x t b' :
  put2 b y x t = Some b' → ∃ t0, cell b y x = Some t0.
Proof.
  unfold put2, cell. destruct (ix b y) as [row|]; simpl; [|done].
  case_decide as Hx; [|done]. intros _. by apply ix_is_Some.
Qed.

Lemma put2_grid r c b y x t b' : grid r c b → put2 b y x t = Some b' → grid r c b'.
Proof.
  intros Hg Hp. destruct (put2_Some_inv _ _ _ _ _ Hp) as [t0 Ht0].
  eapply (tilewise_grid (λ _ _, True)); [|done].
  eapply put2_tilewise; [|done| |done]; done.
Qed.

(** Two boards of one shape are related tile by tile as soon as their
    cells are. *)
Lemma tilewise_intro (R : Tile → Tile → Prop) r c b b' :
  grid r c b → grid r c b' →
  (∀ y x t, cell b y x = Some t → ∃ t', cell b' y x = Some t' ∧ R t t') →
  tilewise R b b'.
Proof.
  intros Hg Hg' Hcell. pose proof Hg as [Hl Hrows]. pose proof Hg' as [Hl' Hrows'].
  apply Forall2_same_length_lookup_2.
  { unfold len in *. lia. }
  intros i row row' Hi Hi'.
  assert (ix b (Z.of_nat i) = Some row) as Hrow
    by (rewrite ix_lookup by lia; by rewrite Nat2Z.id).
  assert (ix b' (Z.of_nat i) = Some row') as Hrow'
    by (rewrite ix_lookup by lia; by rewrite Nat2Z.id).
  pose proof (grid_row _ _ _ _ _ Hg Hrow) as Hw.
  pose proof (grid_row _ _ _ _ _ Hg' Hrow') as Hw'.
  apply Forall2_same_length_lookup_2.
  { unfold len in *. lia. }
  intros j t t' Hj Hj'.
  assert (cell b (Z.of_nat i) (Z.of_nat j) = Some t) as Hc.
  { unfold cell. rewrite Hrow. simpl. rewrite ix_lookup by lia.
    by rewrite Nat2Z.id. }
  destruct (Hcell _ _ _ Hc) as (t2 & Hc' & HR).
  unfold cell in Hc'. rewrite Hrow' in Hc'. simpl in Hc'.
  rewrite ix_lookup in Hc' by lia. rewrite Nat2Z.id in Hc'. congruence.
Qed.

Lemma countIf_cons {A} (p : A → bool) a l :
  countIf p (a :: l) = (if p a then 1 else 0) + countIf p l.
Proof.
  unfold countIf, len. rewrite filter_cons.
  destruct (p a); simpl; [|done]. lia.
Qed.

Lemma countIf_nil {A} (p : A → bool) : countIf p [] = 0.
Proof. done. Qed.

Lemma countIf_omap_ext {A B} (p : B → bool) (g g' : A → option B) l :
  (∀ a, a ∈ l → p <$> g a = p <$> g' a) →
  countIf p (omap g l) = countIf p (omap g' l).
Proof.
  induction l as [|a l IH]; intros Hg; [done|].
  pose proof (Hg a (list_elem_of_here _ _)) as Ha.
  assert (countIf p (omap g l) = countIf p (omap g' l)) as IH'.
  { apply IH. intros a' Ha'. apply Hg. by apply list_elem_of_further. }
  change (omap g (a :: l))
    with (match g a with Some u => u :: omap g l | None => omap g l end).
  change (omap g' (a :: l))
    with (match g' a with Some u => u :: omap g' l | None => omap g' l end).
  destruct (g a) as [u|], (g' a) as [u'|]; try done.
  rewrite !countIf_cons, IH'. simpl in Ha. by injection Ha as ->.
Qed.

Lemma mineCount_ext b b' x y :
  (∀ y' x', isMine <$> cell b' y' x' = isMine <$> cell b y' x') →
  mineCount b' x y = mineCount b x y.
Proof.
  intros H. unfold mineCount, neighborTiles.
  apply countIf_omap_ext. intros d _. apply H.
Qed.

Section recalculate.
Variables (r c : Z) (b : Board).
Hypothesis Hgrid : grid r c b.

Lemma written_mines P cur y x :
  written r c b P cur → (∀ y x, Decision (P y x)) →
  isMine <$> cell cur y x = isMine <$> cell b y x.
Proof.
  intros [Hg Hw] Hdec. destruct (cell b y x) as [t|] eqn:Ht.
  - destruct (Hw _ _ _ Ht) as [H1 H2]. destruct (Hdec y x) as [Hp|Hp].
    + by rewrite H1.
    + by rewrite H2.
  - rewrite (cell_None r c cur); [done|done|].
    intros [Hy Hx]. destruct (cell_is_Some r c b y x) as [? ?]; congruence.
Qed.

Lemma recalcCell_written P cur y x :
  (∀ y x, Decision (P y x)) →
  written r c b P cur → 0 ≤ y < r → 0 ≤ x < c → ¬ P y x →
  ∃ cur', recalcCell cur y x = Some cur' ∧
          written r c b (λ y' x', P y' x' ∨ (y' = y ∧ x' = x)) cur'.
Proof.
  intros Hdec Hw Hy Hx Hnp. pose proof Hw as [Hg Hcells].
  destruct (cell_is_Some r c b y x) as [t Ht]; [done..|].
  destruct (Hcells _ _ _ Ht) as [_ Hcur]. specialize (Hcur Hnp).
  unfold recalcCell. rewrite (at2_cell r c) by done. simpl. rewrite Hcur. simpl.
  assert (∃ cur', (if isMine t then put2 cur y x (setAdjacent t 0)
                   else ns ← neighbors cur x y;
                        put2 cur y x (setAdjacent t (countIf isMine ns)))
                  = Some cur' ∧ put2 cur y x (adjTarget b t x y) = Some cur')
    as (cur' & -> & Hput).
  { destruct (put2_Some cur y x (adjTarget b t x y) t Hcur) as [cur' Hcur'].
    exists cur'. split; [|done]. unfold adjTarget in Hcur'.
    destruct (isMine t); [done|].
    rewrite (neighbors_grid r c) by done. simpl.
    fold (mineCount cur x y).
    rewrite (mineCount_ext b cur); [done|].
    intros y' x'. by eapply written_mines. }
  exists cur'. split; [done|]. split; [by eapply put2_grid|].
  intros y' x' t' Ht'. rewrite (put2_cell _ _ _ _ _ _ _ Hput).
  destruct (Hcells _ _ _ Ht') as [H1 H2].
  case_decide as Hd.
  - destruct Hd as [-> ->]. assert (t' = t) as -> by congruence.
    split; [done|]. intros Hn. destruct Hn. by right.
  - split.
    + intros [Hp|Hp]; [by apply H1|done].
    + intros Hn. apply H2. intros Hp. apply Hn. by left.
Qed.

Lemma recalculateAdjacency_written :
  ∃ b', recalculateAdjacency b = Some b' ∧ written r c b (λ _ _, True) b'.
Proof.
  pose proof Hgrid as [Hlen _].
  unfold recalculateAdjacency. rewrite Hlen.
  destruct (foldM_seqZ
    (λ b1 y, w ← width b1; foldM (λ b2 x, recalcCell b2 y x) b1 (seqZ 0 w))
    (λ y0, written r c b (λ y _, y < y0)) 0 (Z.max r 0) b) as (b' & Hb' & Hw).
  - lia.
  - split; [done|]. intros y x t Ht. split; [|done].
    intros Hy. apply (cell_bounds r c) in Ht; [lia|done].
  - intros y0 b1 Hy0 Hw1. pose proof Hw1 as [Hg1 _].
    rewrite (width_grid r c) by (done || lia). simpl.
    destruct (foldM_seqZ (λ b2 x, recalcCell b2 y0 x)
      (λ x0, written r c b (λ y x, y < y0 ∨ (y = y0 ∧ x < x0))) 0 (Z.max c 0) b1)
      as (b2 & Hb2 & Hw2).
    + lia.
    + destruct Hw1 as [_ Hc1]. split; [done|]. intros y x t Ht.
      destruct (Hc1 _ _ _ Ht) as [H1 H2].
      apply (cell_bounds r c) in Ht; [|done].
      split; intros H; [apply H1|apply H2]; lia.
    + intros x0 b2 Hx0 Hw2.
      destruct (recalcCell_written (λ y x, y < y0 ∨ (y = y0 ∧ x < x0)) b2 y0 x0)
        as (b3 & Hb3 & Hw3); [solve_decision|done|lia|lia|lia|].
      exists b3. split; [done|].
      destruct Hw3 as [Hg3 Hc3]. split; [done|]. intros y x t Ht.
      destruct (Hc3 _ _ _ Ht) as [H1 H2].
      split; intros H; [apply H1|apply H2]; lia.
    + exists b2. split; [done|].
      destruct Hw2 as [Hg2 Hc2]. split; [done|]. intros y x t Ht.
      destruct (Hc2 _ _ _ Ht) as [H1 H2].
      apply (cell_bounds r c) in Ht; [|done].
      split; intros H; [apply H1|apply H2]; lia.
  - exists b'. split; [done|].
    destruct Hw as [Hg' Hc']. split; [done|]. intros y x t Ht.
    destruct (Hc' _ _ _ Ht) as [H1 H2].
    apply (cell_bounds r c) in Ht; [|done].
    split; intros H; [apply H1|done]. lia.
Qed.

Lemma recalculateAdjacency_spec :
  ∃ b', recalculateAdjacency b = Some b' ∧ grid r c b' ∧
        tilewise sameButAdjacent b b' ∧ adjacencyOk b'.
Proof.
  destruct recalculateAdjacency_written as (b' & Hb' & Hg' & Hc').
  exists b'. split; [done|]. split; [done|].
  assert (∀ y x, isMine <$> cell b' y x = isMine <$> cell b y x) as Hm.
  { intros y x. eapply (written_mines (λ _ _, True)); [by split|].
    intros ??. apply _. }
  split.
  - eapply tilewise_intro; [done..|]. intros y x t Ht.
    destruct (Hc' _ _ _ Ht) as [H1 _]. eexists. split; [by apply H1|].
    done.
  - intros y x t' Ht'.
    destruct (cell b y x) as [t|] eqn:Ht.
    + destruct (Hc' _ _ _ Ht) as [H1 _]. rewrite H1 in Ht' by done.
      injection Ht' as <-. simpl. destruct (isMine t); [done|].
      symmetry. by apply mineCount_ext.
    + specialize (Hm y x). rewrite Ht, Ht' in Hm. done.
Qed.
End recalculate.

(** ** Mine placement *)

Lemma elem_of_insert_inv {A} (l : list A) i a x :
  x ∈ <[i := a]> l → x = a ∨ x ∈ l.
Proof.
  intros (j & Hj)%list_elem_of_lookup.
  apply list_lookup_insert_Some in Hj as [(-> & -> & _)|[_ Hj]]; [by left|].
  right. apply list_elem_of_lookup. eauto.
Qed.

Lemma elem_of_swap l i j x : x ∈ swap l i j → x ∈ l.
Proof.
  unfold swap. destruct (l !! i) as [a|] eqn:Ha; [|done].
  destruct (l !! j) as [b|] eqn:Hb; [|done].
  intros [->|[->|H]%elem_of_insert_inv]%elem_of_insert_inv.
  - apply list_elem_of_lookup. eauto.
  - apply list_elem_of_lookup. eauto.
  - done.
Qed.

Lemma elem_of_shuffleFrom rnd i l x : x ∈ shuffleFrom rnd i l → x ∈ l.
Proof.
  revert l. induction i as [|i IH]; intros l; simpl; [done|].
  intros H%IH. by eapply elem_of_swap.
Qed.

Lemma elem_of_slice0 {A} (l : list A) e x : x ∈ slice0 l e → x ∈ l.
Proof. unfold slice0. apply subseteq_take. Qed.

Lemma minePositions_candidates rnd s sx sy i :
  i ∈ minePositions rnd s sx sy → i ∈ candidates s sx sy.
Proof.
  unfold minePositions, shuffle.
  intros H%elem_of_slice0. by eapply elem_of_shuffleFrom.
Qed.

Lemma foldl_push_elem {A B} (f : A → option B) (l : list A) acc x :
  x ∈ foldl (λ acc a, match f a with Some v => acc ++ [v] | None => acc end)
        acc l ↔
  x ∈ acc ∨ ∃ a, a ∈ l ∧ f a = Some x.
Proof.
  revert acc. induction l as [|a l IH]; intros acc; simpl.
  - split; [by left|]. intros [H|(a & Ha & _)]; [done|].
    by apply elem_of_nil in Ha.
  - rewrite IH. split.
    + intros [H|(a' & Ha' & Hf)].
      * destruct (f a) as [v|] eqn:Hv; [|by left].
        apply elem_of_app in H as [H|H]; [by left|].
        apply list_elem_of_singleton in H as ->. right. exists a.
        split; [apply list_elem_of_here|done].
      * right. exists a'. split; [by apply list_elem_of_further|done].
    + intros [H|(a' & Ha' & Hf)].
      * left. destruct (f a); [|done]. apply elem_of_app. by left.
      * apply elem_of_cons in Ha' as [->|Ha'].
        -- left. rewrite Hf. apply elem_of_app. right.
           by apply list_elem_of_singleton.
        -- right. eauto.
Qed.

Lemma elem_of_forbidden s sx sy i :
  i ∈ forbidden s sx sy ↔
  ∃ d, d ∈ offsets9 ∧
       (0 ≤ sy + d.1 ∧ sy + d.1 < rows s ∧ 0 ≤ sx + d.2 ∧ sx + d.2 < cols s) ∧
       i = (sy + d.1) * cols s + (sx + d.2).
Proof.
  unfold forbidden.
  pose (f := λ d : Z * Z,
    if decide (0 ≤ sy + d.1 ∧ sy + d.1 < rows s ∧
               0 ≤ sx + d.2 ∧ sx + d.2 < cols s)
    then Some ((sy + d.1) * cols s + (sx + d.2)) else None).
  assert (∀ l acc,
    foldl (λ acc d,
      if decide (0 ≤ sy + d.1 ∧ sy + d.1 < rows s ∧
                 0 ≤ sx + d.2 ∧ sx + d.2 < cols s)
      then acc ++ [(sy + d.1) * cols s + (sx + d.2)] else acc) acc l =
    foldl (λ acc a, match f a with Some v => acc ++ [v] | None => acc end)
      acc l) as ->.
  { induction l as [|d l IH]; intros acc; simpl; [done|].
    rewrite IH. unfold f. by case_decide. }
  rewrite foldl_push_elem. split.
  - intros [H|(d & Hd & Hf)]; [by apply elem_of_nil in H|].
    exists d. unfold f in Hf. case_decide; [|done]. injection Hf as <-. done.
  - intros (d & Hd & Hb & ->). right. exists d. split; [done|].
    unfold f. by rewrite decide_True.
Qed.

(** No position of the safe zone is ever drawn as a mine. *)
Lemma minePositions_safe rnd s sx sy d :
  d ∈ offsets9 →
  0 ≤ sy + d.1 < rows s → 0 ≤ sx + d.2 < cols s →
  (sy + d.1) * cols s + (sx + d.2) ∉ minePositions rnd s sx sy.
Proof.
  intros Hd Hy Hx Hin. apply minePositions_candidates in Hin.
  unfold candidates in Hin. apply list_elem_of_filter in Hin as [Hnf _].
  apply Hnf, elem_of_forbidden. exists d. split; [done|]. split; [lia|done].
Qed.

Lemma index_split c i :
  0 < c → 0 ≤ i →
  0 ≤ i `div` c ∧ 0 ≤ i `rem` c < c ∧ i `div` c * c + i `rem` c = i.
Proof.
  intros Hc Hi. rewrite Z.rem_mod_nonneg by lia.
  pose proof (Z.div_mod i c). pose proof (Z.mod_pos_bound i c).
  pose proof (Z.div_pos i c). lia.
Qed.

Lemma index_unique c y x y' x' :
  0 ≤ x < c → 0 ≤ x' < c → y * c + x = y' * c + x' → y = y' ∧ x = x'.
Proof. intros. assert (y = y') by nia. split; [done|]. subst. lia. Qed.

Section placement.
Variables (rnd : nat → nat) (s : GameState) (sx sy : Z).
Hypothesis Hwf : wf s.
Hypothesis Hrows : 0 < rows s.
Hypothesis Hcols : 0 < cols s.

Lemma marking_loop :
  ∃ b, markMines (minePositions rnd s sx sy) s = Some b ∧
       marked (minePositions rnd s sx sy) s (rows s * cols s) b.
Proof.
  destruct Hwf as [Hg Hc]. unfold markMines.
  apply (foldM_seqZ _ (marked (minePositions rnd s sx sy) s) 0
           (rows s * cols s)).
  - nia.
  - split; [done|]. intros y x t Ht.
    apply (cell_bounds _ _ _ _ _ _ Hg) in Ht as Hb.
    rewrite decide_False; [done|]. nia.
  - intros i cur Hi [Hgc Hcur]. simpl.
    destruct (index_split (cols s) i) as (Hy0 & Hx & Hidx); [lia..|].
    assert (i `div` cols s < rows s) as Hy1.
    { apply Z.div_lt_upper_bound; lia. }
    assert (∀ y x t, cell (board s) y x = Some t →
      (y = i `div` cols s ∧ x = i `rem` cols s) ↔ y * cols s + x = i) as Hpos.
    { intros y x t Ht. apply (cell_bounds _ _ _ _ _ _ Hg) in Ht as Hb.
      split; [intros [-> ->]; done|]. intros Hyx.
      apply (index_unique (cols s)); [lia..|]. lia. }
    case_decide as Hin.
    + destruct (cell_is_Some _ _ _ (i `div` cols s) (i `rem` cols s) Hg)
        as [t Ht]; [lia..|].
      pose proof (Hcur _ _ _ Ht) as Hcur_i.
      rewrite decide_False in Hcur_i by lia.
      rewrite (at2_cell (rows s) (cols s)) by (done || lia). simpl.
      rewrite Hcur_i. simpl.
      destruct (put2_Some cur _ _ (setMine t true) t Hcur_i) as [cur' Hput].
      exists cur'. split; [done|]. split; [by eapply put2_grid|].
      intros y x t' Ht'. rewrite (put2_cell _ _ _ _ _ _ _ Hput).
      pose proof (Hpos _ _ _ Ht') as Hp.
      case_decide as Hd.
      * assert (t' = t) as -> by (destruct Hd as [-> ->]; congruence).
        rewrite decide_True; [done|]. apply Hp in Hd. split; [lia|].
        by rewrite Hd.
      * rewrite (Hcur _ _ _ Ht'). f_equal. apply decide_ext.
        assert (y * cols s + x ≠ i) as Hne by (intros Heq; by apply Hd, Hp).
        split; (intros [? ?]; split; [lia|done]).
    + exists cur. split; [done|]. split; [done|].
      intros y x t' Ht'. rewrite (Hcur _ _ _ Ht'). f_equal. apply decide_ext.
      assert (y * cols s + x ∈ minePositions rnd s sx sy → y * cols s + x ≠ i) as Hne
        by (intros Hm Heq; apply Hin; by rewrite <- Heq).
      split; (intros [? ?]; split; [|done]); specialize (Hne ltac:(done)); lia.
Qed.

Lemma placeMines_spec :
  ∃ b', placeMinesAfterFirstClick rnd s sx sy = Some (withBoard s b') ∧
    board_ok (rows s) (cols s) b' ∧
    tilewise sameButMines (board s) b' ∧
    adjacencyOk b' ∧
    ∀ y x t, cell (board s) y x = Some t →
      ∃ t', cell b' y x = Some t' ∧
            isMine t' = isMine t || bool_decide (y * cols s + x ∈ minePositions rnd s sx sy).
Proof.
  destruct marking_loop as (b1 & Hb1 & Hg1 & Hm1).
  destruct (recalculateAdjacency_spec _ _ _ Hg1) as (b' & Hb' & Hg' & Hadj & Hok).
  unfold placeMinesAfterFirstClick. rewrite Hb1. simpl.
  rewrite Hb'. simpl.
  destruct Hwf as [Hg Hc].
  assert (∀ y x t, cell (board s) y x = Some t →
    ∃ t', cell b' y x = Some t' ∧ sameButMines t t' ∧
          isMine t' = isMine t || bool_decide (y * cols s + x ∈ minePositions rnd s sx sy)) as Hcells.
  { intros y x t Ht. pose proof (Hm1 _ _ _ Ht) as H1.
    apply (cell_bounds _ _ _ _ _ _ Hg) in Ht as Hb.
    destruct (tilewise_cell_l _ _ _ _ _ _ Hadj H1) as (t' & Ht' & Hr).
    exists t'. split; [done|]. rewrite Hr.
    case_decide as Hd.
    - rewrite bool_decide_eq_true_2 by tauto. simpl.
      split; [done|]. by rewrite orb_true_r.
    - rewrite bool_decide_eq_false_2; [|intros ?; apply Hd; split; [nia|done]].
      simpl. split; [done|]. by rewrite orb_false_r. }
  assert (tilewise sameButMines (board s) b') as Htw.
  { eapply tilewise_intro; [done..|]. intros y x t Ht.
    destruct (Hcells _ _ _ Ht) as (t' & ? & ? & _). eauto. }
  exists b'. split; [done|]. split; [|split; [done|split; [done|]]].
  - eapply tilewise_board_ok; [|done|by split]. by intros u v [? _].
  - intros y x t Ht. destruct (Hcells _ _ _ Ht) as (t' & ? & _ & ?). eauto.
Qed.
End placement.



(** ** Flood fill *)

Section flood.
Variables (r c : Z).

Lemma enqueue_eq q v x y :
  enqueue r c (q, v) x y =
  if decide (inBounds r c x y ∧ (y, x) ∉ v) then (q ++ [(x, y)], (y, x) :: v)
  else (q, v).
Proof.
  unfold enqueue, inBounds. simpl.
  destruct (decide (x < 0 ∨ c ≤ x ∨ y < 0 ∨ r ≤ y)) as [Ho|Hi].
  - rewrite decide_False; [done|]. intros [? _]. lia.
  - destruct (decide ((y, x) ∈ v)) as [Hv|Hv].
    + rewrite decide_False; [done|]. by intros [_ ?].
    + rewrite decide_True; [done|]. split; [lia|done].
Qed.

(** All the [enqueue] calls made for one dequeued tile. *)
Lemma enqueue_all x y ds q v :
  ∃ added,
    let qv := foldl (λ qv d, enqueue r c qv (x + d.2) (y + d.1)) (q, v) ds in
    qv.1 = q ++ added ∧
    (∀ k, k ∈ qv.2 ↔ k ∈ v ∨ ∃ p, p ∈ added ∧ k = key p) ∧
    length qv.2 = (length v + length added)%nat ∧
    (NoDup v → NoDup qv.2) ∧
    NoDup added ∧
    (∀ p, p ∈ added →
       (key p ∉ v) ∧ inBounds r c (p.1) (p.2) ∧
       ∃ d, d ∈ ds ∧ p = (x + d.2, y + d.1)) ∧
    (∀ d, d ∈ ds → inBounds r c (x + d.2) (y + d.1) →
          (y + d.1, x + d.2) ∈ qv.2).
Proof.
  revert q v. induction ds as [|d ds IH]; intros q v.
  - exists []. simpl. split_and!.
    + by rewrite app_nil_r.
    + intros k. split; [by left|]. intros [?|(p & Hp & _)]; [done|].
      by apply elem_of_nil in Hp.
    + lia.
    + done.
    + constructor.
    + intros p Hp. by apply elem_of_nil in Hp.
    + intros d Hd. by apply elem_of_nil in Hd.
  - simpl. rewrite enqueue_eq. case_decide as Hd.
    + destruct Hd as [Hin Hnv].
      destruct (IH (q ++ [(x + d.2, y + d.1)]) ((y + d.1, x + d.2) :: v))
        as (added & Hq & Hv & Hlen & Hnd & Hnda & Hadd & Hall).
      simpl in *. exists ((x + d.2, y + d.1) :: added). split_and!.
      * rewrite Hq. by rewrite <- app_assoc.
      * intros k. rewrite Hv, elem_of_cons. split.
        -- intros [[->|?]|(p & Hp & ->)].
           ++ right. exists (x + d.2, y + d.1).
              split; [apply list_elem_of_here|done].
           ++ by left.
           ++ right. exists p. split; [by apply list_elem_of_further|done].
        -- intros [?|(p & Hp & ->)]; [left; by right|].
           apply elem_of_cons in Hp as [->|Hp]; [left; by left|].
           right. eauto.
      * rewrite Hlen. simpl. lia.
      * intros Hndv. apply Hnd. by constructor.
      * constructor; [|done]. intros Hp. apply Hadd in Hp as (Hk & _).
        apply Hk. apply list_elem_of_here.
      * intros p [->|Hp]%elem_of_cons.
        -- split; [done|]. split; [done|]. exists d.
           split; [apply list_elem_of_here|done].
        -- destruct (Hadd p Hp) as (Hk & Hi & d' & Hd' & ->).
           split; [|split; [done|]].
           ++ intros Hkv. apply Hk. by apply list_elem_of_further.
           ++ exists d'. split; [by apply list_elem_of_further|done].
      * intros d' [->|Hd']%elem_of_cons Hi; [|by apply Hall].
        apply Hv. left. apply list_elem_of_here.
    + destruct (IH q v) as (added & Hq & Hv & Hlen & Hnd & Hnda & Hadd & Hall).
      simpl in *. exists added. split_and!; try done.
      * intros p Hp. destruct (Hadd p Hp) as (Hk & Hi & d' & Hd' & ->).
        split; [done|]. split; [done|]. exists d'.
        split; [by apply list_elem_of_further|done].
      * intros d' [->|Hd']%elem_of_cons Hi; [|by apply Hall].
        apply Hv. left. destruct (decide ((y + d.1, x + d.2) ∈ v)); [done|].
        destruct Hd. done.
Qed.
End flood.

Lemma visited_bound r c (v : list (Z * Z)) :
  NoDup v → (∀ y x, (y, x) ∈ v → inBounds r c x y) →
  (length v ≤ Z.to_nat (r * c))%nat.
Proof.
  intros Hnd Hin. destruct v as [|[y0 x0] v']; [simpl; lia|].
  destruct (Hin y0 x0 (list_elem_of_here _ _)) as [Hx0 Hy0].
  set (v := (y0, x0) :: v') in *.
  assert (v ⊆+ cprod (seqZ 0 r) (seqZ 0 c)) as Hsub.
  { apply NoDup_submseteq; [done|]. intros [y x] Hyx.
    destruct (Hin y x Hyx) as [Hx Hy].
    apply list_elem_of_cprod. simpl. rewrite !elem_of_seqZ. lia. }
  apply submseteq_length in Hsub.
  rewrite list_cprod_list_prod, length_prod, !length_seqZ in Hsub.
  rewrite Z2Nat.inj_mul by lia. done.
Qed.

Section flood_loop.
Variables (r c : Z) (b0 : Board) (sx sy : Z).
Hypothesis Hg0 : grid r c b0.

Lemma floodInv_skip x y q v out t :
  floodInv r c b0 sx sy ((x, y) :: q) v out →
  cell b0 y x = Some t → blocked t = true →
  floodInv r c b0 sx sy q v out.
Proof.
  intros HJ Ht Hbl. destruct HJ.
  pose proof (NoDup_cons_1_1 _ _ fi_nodup_q0) as Hnq.
  pose proof (NoDup_cons_1_2 _ _ fi_nodup_q0) as Hndq.
  split; try done.
  - intros y' x' t' Ht' Hv Hq Hb'. apply fi_done0; try done.
    intros [Heq|?]%elem_of_cons; [|done]. injection Heq as -> ->.
    congruence.
  - intros y' x' t' Ht' H. apply fi_keep0; [done|].
    destruct H as [?|[?|?]]; [by left| |by right; right].
    right. left. by apply list_elem_of_further.
  - intros p Hp. apply fi_queue0. by apply list_elem_of_further.
  - intros y' x' t' d Hv Hq Ht' Hsp. apply (fi_closed0 _ _ t'); try done.
    intros [Heq|?]%elem_of_cons; [|done]. injection Heq as -> ->.
    assert (t' = t) as -> by congruence.
    unfold spreads in Hsp. rewrite Hbl in Hsp. done.
Qed.

Lemma floodInv_reveal x y q v out t out' :
  floodInv r c b0 sx sy ((x, y) :: q) v out →
  cell b0 y x = Some t → blocked t = false → spreads t = false →
  put2 out y x (setRevealed t true) = Some out' →
  floodInv r c b0 sx sy q v out'.
Proof.
  intros HJ Ht Hbl Hsp Hput. destruct HJ.
  pose proof (NoDup_cons_1_1 _ _ fi_nodup_q0) as Hnq.
  pose proof (NoDup_cons_1_2 _ _ fi_nodup_q0) as Hndq.
  assert ((y, x) ∈ v) as Hv by apply (fi_queue0 (x, y)), list_elem_of_here.
  split; try done.
  - by eapply put2_grid.
  - intros y' x' t' Ht' Hv' Hq Hb'. rewrite (put2_cell _ _ _ _ _ _ _ Hput).
    case_decide as Hd.
    + destruct Hd as [-> ->]. congruence.
    + apply fi_done0; try done.
      intros [Heq|?]%elem_of_cons; [|done]. injection Heq as -> ->. tauto.
  - intros y' x' t' Ht' H. rewrite (put2_cell _ _ _ _ _ _ _ Hput).
    case_decide as Hd.
    + destruct Hd as [-> ->]. assert (t' = t) as -> by congruence.
      destruct H as [?|[?|?]]; [done|done|congruence].
    + apply fi_keep0; [done|].
      destruct H as [?|[?|?]]; [by left| |by right; right].
      right. left. by apply list_elem_of_further.
  - intros p Hp. apply fi_queue0. by apply list_elem_of_further.
  - intros y' x' t' d Hv' Hq Ht' Hsp'. apply (fi_closed0 _ _ t'); try done.
    intros [Heq|?]%elem_of_cons; [|done]. injection Heq as -> ->.
    congruence.
Qed.

Lemma floodInv_spread x y q v out t out' added v2 :
  floodInv r c b0 sx sy ((x, y) :: q) v out →
  cell b0 y x = Some t → spreads t = true →
  put2 out y x (setRevealed t true) = Some out' →
  (∀ k, k ∈ v2 ↔ k ∈ v ∨ ∃ p, p ∈ added ∧ k = key p) →
  NoDup v2 → NoDup added →
  (∀ p, p ∈ added →
     (key p ∉ v) ∧ inBounds r c (p.1) (p.2) ∧
     ∃ d, d ∈ offsets8 ∧ p = (x + d.2, y + d.1)) →
  (∀ d, d ∈ offsets8 → inBounds r c (x + d.2) (y + d.1) →
        (y + d.1, x + d.2) ∈ v2) →
  floodInv r c b0 sx sy (q ++ added) v2 out'.
Proof.
  intros HJ Ht Hsp Hput Hv2 Hndv2 Hnda Hadd Hall. destruct HJ.
  pose proof (NoDup_cons_1_1 _ _ fi_nodup_q0) as Hnq.
  pose proof (NoDup_cons_1_2 _ _ fi_nodup_q0) as Hndq.
  assert ((y, x) ∈ v) as Hv by apply (fi_queue0 (x, y)), list_elem_of_here.
  assert (blocked t = false) as Hbl.
  { unfold spreads in Hsp. by destruct (blocked t). }
  assert (∀ x' y', (x', y') ∈ added → (y', x') ∉ v) as Hfresh.
  { intros x' y' Hp. by destruct (Hadd _ Hp) as [? _]. }
  split; try done.
  - by eapply put2_grid.
  - intros y' x' t' Ht' Hv' Hq Hb'. rewrite (put2_cell _ _ _ _ _ _ _ Hput).
    case_decide as Hd.
    + destruct Hd as [-> ->]. congruence.
    + apply not_elem_of_app in Hq as [Hq Hna].
      apply Hv2 in Hv' as [Hv'|(p & Hp & Hk)].
      * apply fi_done0; try done.
        intros [Heq|?]%elem_of_cons; [|done]. injection Heq as -> ->. tauto.
      * destruct p as [px py]. injection Hk as -> ->. done.
  - intros y' x' t' Ht' H. rewrite (put2_cell _ _ _ _ _ _ _ Hput).
    case_decide as Hd.
    + destruct Hd as [-> ->]. assert (t' = t) as -> by congruence.
      destruct H as [H|[H|H]].
      * destruct H. apply Hv2. by left.
      * apply elem_of_app in H as [H|H]; [done|]. by apply Hfresh in H.
      * congruence.
    + apply fi_keep0; [done|]. destruct H as [H|[H|H]].
      * left. intros Hin. apply H, Hv2. by left.
      * apply elem_of_app in H as [H|H].
        -- right. left. by apply list_elem_of_further.
        -- left. by apply Hfresh.
      * by right; right.
  - intros p [Hp|Hp]%elem_of_app; apply Hv2.
    + left. apply fi_queue0. by apply list_elem_of_further.
    + right. eauto.
  - apply list.NoDup_app. split; [done|]. split; [|done].
    intros [px py] Hp Hpa. apply Hfresh in Hpa. apply Hpa.
    apply (fi_queue0 (px, py)). by apply list_elem_of_further.
  - intros y' x' [Hv'|(p & Hp & Hk)]%Hv2; [by apply fi_reach0|].
    destruct (Hadd _ Hp) as (_ & Hin & d & Hd & ->).
    injection Hk as -> ->. split; [done|].
    eapply flood_step; [|done..]. by apply fi_reach0.
  - intros y' x' t' d Hv' Hq Ht' Hsp' Hd Hin.
    apply not_elem_of_app in Hq as [Hq Hna].
    destruct (decide (y' = y ∧ x' = x)) as [[-> ->]|Hne]; [by apply Hall|].
    apply Hv2. left. apply (fi_closed0 _ _ t'); try done.
    + apply Hv2 in Hv' as [?|(p & Hp & Hk)]; [done|].
      destruct p as [px py]. injection Hk as -> ->. done.
    + intros [Heq|?]%elem_of_cons; [|done]. injection Heq as -> ->. tauto.
Qed.

Lemma floodLoop_skip fuel x y q v out t :
  at2 out y x = Some (Some t) → blocked t = true →
  floodLoop (S fuel) r c ((x, y) :: q) v out = floodLoop fuel r c q v out.
Proof. intros Hat Hbl. simpl. rewrite Hat. simpl. fold (blocked t). by rewrite Hbl. Qed.

Lemma floodLoop_reveal fuel x y q v out t out' :
  at2 out y x = Some (Some t) → blocked t = false → spreads t = false →
  put2 out y x (setRevealed t true) = Some out' →
  floodLoop (S fuel) r c ((x, y) :: q) v out = floodLoop fuel r c q v out'.
Proof.
  intros Hat Hbl Hsp Hput. simpl. rewrite Hat. simpl. fold (blocked t).
  rewrite Hbl, Hput. simpl. unfold spreads in Hsp. rewrite Hbl in Hsp.
  simpl in Hsp. by rewrite Hsp.
Qed.

Lemma floodLoop_spread fuel x y q v out t out' :
  at2 out y x = Some (Some t) → spreads t = true →
  put2 out y x (setRevealed t true) = Some out' →
  floodLoop (S fuel) r c ((x, y) :: q) v out =
  floodLoop fuel r c
    (foldl (λ qv d, enqueue r c qv (x + d.2) (y + d.1)) (q, v) offsets8).1
    (foldl (λ qv d, enqueue r c qv (x + d.2) (y + d.1)) (q, v) offsets8).2
    out'.
Proof.
  intros Hat Hsp Hput. simpl. rewrite Hat. simpl. fold (blocked t).
  unfold spreads in Hsp. destruct (blocked t); [done|]. simpl in Hsp.
  rewrite Hput. simpl. by rewrite Hsp.
Qed.

Lemma floodLoop_inv fuel q v out :
  floodInv r c b0 sx sy q v out →
  (length q + Z.to_nat (r * c) ≤ fuel + length v)%nat →
  ∃ b' v', floodLoop fuel r c q v out = Some b' ∧
           floodInv r c b0 sx sy [] v' b' ∧ v ⊆ v'.
Proof.
  revert q v out. induction fuel as [|fuel IH]; intros q v out HJ Hfuel.
  - destruct q as [|p q]; [simpl; by eauto|]. exfalso.
    pose proof (visited_bound r c v (fi_nodup_v _ _ _ _ _ _ _ _ HJ)) as Hb.
    simpl in Hfuel. assert (length v ≤ Z.to_nat (r * c))%nat; [|lia].
    apply Hb. intros y x Hyx. by apply (fi_reach _ _ _ _ _ _ _ _ HJ).
  - destruct q as [|[x y] q]; [simpl; by eauto|].
    assert ((y, x) ∈ v) as Hv.
    { apply (fi_queue _ _ _ _ _ _ _ _ HJ (x, y)), list_elem_of_here. }
    destruct (fi_reach _ _ _ _ _ _ _ _ HJ _ _ Hv) as [[Hx Hy] _].
    destruct (cell_is_Some r c b0 y x) as [t Ht]; [done..|].
    assert (cell out y x = Some t) as Hout.
    { apply (fi_keep _ _ _ _ _ _ _ _ HJ); [done|]. right. left.
      apply list_elem_of_here. }
    assert (at2 out y x = Some (Some t)) as Hat.
    { rewrite (at2_cell r c) by (apply HJ || done). by rewrite Hout. }
    simpl in Hfuel.
    destruct (blocked t) eqn:Hbl.
    { rewrite (floodLoop_skip _ _ _ _ _ _ t) by done.
      apply IH; [by eapply floodInv_skip|lia]. }
    destruct (put2_Some out y x (setRevealed t true) t Hout) as [out' Hput].
    destruct (spreads t) eqn:Hsp.
    + rewrite (floodLoop_spread _ _ _ _ _ _ t out') by done.
      destruct (enqueue_all r c x y offsets8 q v)
        as (added & Hq & Hv2 & Hlen & Hnd & Hnda & Hadd & Hall).
      cbv zeta in Hq, Hv2, Hlen, Hnd, Hall. rewrite Hq.
      destruct (IH (q ++ added)
        (foldl (λ qv d, enqueue r c qv (x + d.2) (y + d.1)) (q, v) offsets8).2
        out') as (b' & v' & Hb' & HJ' & Hsub).
      * eapply floodInv_spread; try done. apply Hnd, HJ.
      * rewrite Hlen, length_app. lia.
      * exists b', v'. split; [done|]. split; [done|].
        intros k Hk. apply Hsub, Hv2. by left.
    + rewrite (floodLoop_reveal _ _ _ _ _ _ t out') by done.
      apply IH; [|lia]. by eapply floodInv_reveal.
Qed.
End flood_loop.

Lemma grid_max r c b : grid r c b → grid (Z.max r 0) (Z.max c 0) b.
Proof.
  intros [Hr Hc]. split; [lia|]. eapply Forall_impl; [|exact Hc].
  simpl. intros row Hrow. lia.
Qed.

Lemma grid_of_max r c b : grid (Z.max r 0) (Z.max c 0) b → grid r c b.
Proof.
  intros [Hr Hc]. split; [lia|]. eapply Forall_impl; [|exact Hc].
  simpl. intros row Hrow. lia.
Qed.

Lemma floodReach_start_only b sx sy x y :
  cell b sy sx = None → floodReach b sx sy x y → x = sx ∧ y = sy.
Proof.
  intros Hnone. induction 1 as [|x y t d _ [-> ->] Ht]; [done|]. congruence.
Qed.

(** The fill terminates within its bound and reveals exactly the reached
    tiles that are neither revealed nor flagged. *)
Lemma revealFloodFill_spec r c b sx sy :
  grid r c b → 0 < r →
  ∃ b', revealFloodFill b sx sy = Some b' ∧ grid r c b' ∧
    ∀ y x t, cell b y x = Some t →
      (floodReach b sx sy x y ∧ blocked t = false ∧
       cell b' y x = Some (setRevealed t true)) ∨
      ((¬ floodReach b sx sy x y ∨ blocked t = true) ∧ cell b' y x = Some t).
Proof.
  intros Hg Hr. pose proof (grid_max _ _ _ Hg) as Hgm.
  unfold revealFloodFill. destruct Hg as [Hlen Hrows].
  rewrite (width_grid r c) by (done || by split). simpl.
  rewrite Hlen. set (r' := Z.max r 0) in *. set (c' := Z.max c 0) in *.
  rewrite enqueue_eq.
  case_decide as Hin.
  - destruct Hin as [[Hx Hy] _]. simpl.
    destruct (floodLoop_inv r' c' b sx sy Hgm (Z.to_nat (r' * c'))
                [(sx, sy)] [(sy, sx)] b) as (b' & v' & Hb' & HJ & Hsub).
    + split; try done.
      * intros y x t _ Hv Hq. apply list_elem_of_singleton in Hv.
        destruct Hq. injection Hv as -> ->. apply list_elem_of_here.
      * intros [px py] Hp. apply list_elem_of_singleton in Hp as [= -> ->].
        apply list_elem_of_here.
      * apply NoDup_singleton.
      * apply NoDup_singleton.
      * intros y x Hv. apply list_elem_of_singleton in Hv as [= -> ->].
        split; [done|]. constructor.
      * intros y x t d Hv Hq. apply list_elem_of_singleton in Hv.
        destruct Hq. injection Hv as -> ->. apply list_elem_of_here.
    + simpl. lia.
    + exists b'. split; [done|]. destruct HJ.
      split; [by apply grid_of_max|].
      assert ((sy, sx) ∈ v') as Hstart by apply Hsub, list_elem_of_here.
      assert (∀ x y, floodReach b sx sy x y → inBounds r' c' x y → (y, x) ∈ v')
        as Hreach.
      { induction 1 as [|x y t d Hre IH Ht Hsp Hd]; [done|]. intros Hb.
        apply (fi_closed0 _ _ t); try done; [|apply not_elem_of_nil].
        apply IH. apply (cell_bounds r' c') in Ht; [|done].
        unfold inBounds. lia. }
      intros y x t Ht.
      pose proof (cell_bounds r' c' _ _ _ _ Hgm Ht) as Hb.
      destruct (decide ((y, x) ∈ v')) as [Hv|Hv].
      * destruct (fi_reach0 _ _ Hv) as [_ Hre].
        destruct (blocked t) eqn:Hbl.
        -- right. split; [by right|]. apply fi_keep0; [done|]. by right; right.
        -- left. split; [done|]. split; [done|].
           apply fi_done0; try done. apply not_elem_of_nil.
      * right. split.
        -- left. intros Hre. apply Hv, Hreach; [done|]. unfold inBounds. lia.
        -- apply fi_keep0; [done|]. by left.
  - simpl. exists b.
    replace (floodLoop (Z.to_nat (r' * c')) r' c' [] [] b) with (Some b)
      by (by destruct (Z.to_nat (r' * c'))).
    split; [done|]. split; [by apply grid_of_max|].
    intros y x t Ht. right. split; [|done]. left. intros Hre.
    apply Hin. split; [|apply not_elem_of_nil].
    assert (cell b sy sx = None) as Hnone.
    { apply (cell_None r' c'); [done|]. intros [? ?]. apply Hin.
      split; [done|apply not_elem_of_nil]. }
    apply (floodReach_start_only _ _ _ _ _ Hnone) in Hre as [-> ->].
    congruence.
Qed.

(** A fill from a position that is revealed or flagged, or outside the
    board, returns the board it was given. *)
Lemma revealFloodFill_blocked r c b sx sy :
  grid r c b → 0 < r →
  (∀ t, cell b sy sx = Some t → blocked t = true) →
  revealFloodFill b sx sy = Some b.
Proof.
  intros Hg Hr Hbl.
  destruct (revealFloodFill_spec r c b sx sy Hg Hr) as (b' & Hb' & Hg' & Hcells).
  pose proof (grid_max _ _ _ Hg) as Hgm.
  unfold revealFloodFill in *. destruct Hg as [Hlen Hrows].
  rewrite (width_grid r c) in * by (done || by split). simpl in *.
  rewrite Hlen in *. set (r' := Z.max r 0) in *. set (c' := Z.max c 0) in *.
  rewrite enqueue_eq in *.
  case_decide as Hin; simpl in *.
  - destruct Hin as [[Hx Hy] _].
    destruct (cell_is_Some r' c' b sy sx) as [t Ht]; [done..|].
    assert (Z.to_nat (r' * c') = S (Z.to_nat (r' * c') - 1)) as Hf by nia.
    rewrite Hf. rewrite (floodLoop_skip _ _ _ _ _ _ _ _ t).
    + by destruct (Z.to_nat (r' * c') - 1)%nat.
    + rewrite (at2_cell r' c') by done. by rewrite Ht.
    + by apply Hbl.
  - by destruct (Z.to_nat (r' * c')).
Qed.

Lemma revealedOnly_refl t : revealedOnly t t.
Proof. by left. Qed.

Lemma revealedOnly_trans t1 t2 t3 :
  revealedOnly t1 t2 → revealedOnly t2 t3 → revealedOnly t1 t3.
Proof.
  intros [->|[Hb ->]] [->|[Hb' ->]].
  - by left.
  - by right.
  - by right.
  - unfold blocked in Hb'. simpl in Hb'. done.
Qed.

Lemma revealedOnly_same_pos t t' : revealedOnly t t' → same_pos t t'.
Proof. by intros [->|[_ ->]]. Qed.

Lemma revealFloodFill_tilewise r c b sx sy :
  grid r c b → 0 < r →
  ∃ b', revealFloodFill b sx sy = Some b' ∧ tilewise revealedOnly b b'.
Proof.
  intros Hg Hr.
  destruct (revealFloodFill_spec r c b sx sy Hg Hr) as (b' & Hb' & Hg' & Hcells).
  exists b'. split; [done|]. eapply tilewise_intro; [done..|].
  intros y x t Ht.
  destruct (Hcells _ _ _ Ht) as [(_ & Hbl & Hc)|[_ Hc]]; eexists; split; try done.
  - by right.
  - by left.
Qed.

(** ** Counting hidden tiles *)

Lemma countIf_app {A} (p : A → bool) l1 l2 :
  countIf p (l1 ++ l2) = countIf p l1 + countIf p l2.
Proof. unfold countIf. by rewrite list.filter_app, len_app. Qed.

Lemma countIf_pos {A} (p : A → bool) l :
  0 < countIf p l ↔ ∃ a, a ∈ l ∧ p a = true.
Proof.
  induction l as [|a l IH].
  - rewrite countIf_nil. split; [lia|]. intros (a & Ha & _).
    by apply elem_of_nil in Ha.
  - rewrite countIf_cons. pose proof (countIf_nonneg p l). split.
    + intros Hpos. destruct (p a) eqn:Hpa.
      * exists a. split; [apply list_elem_of_here|done].
      * destruct IH as [IH _]. destruct IH as (a' & Ha' & Hp'); [lia|].
        exists a'. split; [by apply list_elem_of_further|done].
    + intros (a' & [->|Ha']%elem_of_cons & Hp').
      * rewrite Hp'. lia.
      * destruct IH as [_ IH]. destruct (p a); [lia|]. apply IH. eauto.
Qed.

Lemma foldl_count {A} (p : A → bool) n l :
  foldl (λ k t, if p t then k + 1 else k) n l = n + countIf p l.
Proof.
  revert n. induction l as [|a l IH]; intros n; simpl.
  - rewrite countIf_nil. lia.
  - rewrite IH, countIf_cons. destruct (p a); lia.
Qed.

Lemma countHidden_join b :
  countHiddenNonMines b = countIf hiddenSafeTile (mjoin b).
Proof.
  unfold countHiddenNonMines.
  assert (∀ n, foldl (λ n (row : list Tile),
      foldl (λ k t, if negb (isMine t) && negb (isRevealed t)
                    then k + 1 else k) n row) n b =
    n + countIf hiddenSafeTile (mjoin b)) as H; [|by rewrite H].
  induction b as [|row b IH]; intros n; simpl.
  - rewrite countIf_nil. lia.
  - rewrite IH, countIf_app.
    rewrite (foldl_count hiddenSafeTile). lia.
Qed.

Lemma elem_of_board b t :
  t ∈ mjoin b ↔ ∃ y x, cell b y x = Some t.
Proof.
  rewrite list_elem_of_join. split.
  - intros (row & (j & Hj)%list_elem_of_lookup & (i & Hi)%list_elem_of_lookup).
    exists (Z.of_nat i), (Z.of_nat j). unfold cell.
    rewrite ix_lookup by lia. rewrite Nat2Z.id, Hi. simpl.
    rewrite ix_lookup by lia. by rewrite Nat2Z.id.
  - intros (y & x & (row & Hy & Hx)%cell_Some_inv).
    unfold ix in Hy, Hx. repeat case_decide; try done.
    exists row. split; apply list_elem_of_lookup; eauto.
Qed.

Lemma countHidden_nonneg b : 0 ≤ countHiddenNonMines b.
Proof. rewrite countHidden_join. apply countIf_nonneg. Qed.

Lemma countHidden_nonzero b : countHiddenNonMines b ≠ 0 ↔ hiddenSafe b.
Proof.
  pose proof (countHidden_nonneg b) as Hnn.
  rewrite countHidden_join in *. split.
  - intros Hne. destruct (countIf_pos hiddenSafeTile (mjoin b)) as [H _].
    destruct H as (t & Ht & Hp); [lia|].
    apply elem_of_board in Ht as (y & x & Ht). exists y, x, t.
    unfold hiddenSafeTile in Hp. destruct (isMine t), (isRevealed t); done.
  - intros (y & x & t & Ht & Hm & Hr).
    destruct (countIf_pos hiddenSafeTile (mjoin b)) as [_ H].
    assert (0 < countIf hiddenSafeTile (mjoin b)); [|lia].
    apply H. exists t. split; [apply elem_of_board; eauto|].
    unfold hiddenSafeTile. by rewrite Hm, Hr.
Qed.

(** If as many tiles satisfy [p] as [q], and one satisfies [q] but not
    [p], then another satisfies [p] but not [q]. *)
Lemma countIf_more {A} (p q : A → bool) l :
  countIf q l < countIf p l → ∃ a, a ∈ l ∧ p a = true ∧ q a = false.
Proof.
  induction l as [|a l IH].
  - rewrite !countIf_nil. lia.
  - rewrite !countIf_cons. intros Hlt.
    destruct (p a) eqn:Hp, (q a) eqn:Hq.
    + destruct IH as (a' & ? & ?); [lia|].
      exists a'. split; [by apply list_elem_of_further|done].
    + exists a. split; [apply list_elem_of_here|done].
    + destruct IH as (a' & ? & ?); [lia|].
      exists a'. split; [by apply list_elem_of_further|done].
    + destruct IH as (a' & ? & ?); [lia|].
      exists a'. split; [by apply list_elem_of_further|done].
Qed.

Lemma countIf_exchange {A} (p q : A → bool) l :
  countIf q l ≤ countIf p l →
  (∃ a, a ∈ l ∧ q a = true ∧ p a = false) →
  ∃ a, a ∈ l ∧ p a = true ∧ q a = false.
Proof.
  induction l as [|a l IH].
  - intros _ (a & Ha & _). by apply elem_of_nil in Ha.
  - rewrite !countIf_cons. intros Hle (a' & Ha' & Hq' & Hp').
    destruct (p a) eqn:Hp, (q a) eqn:Hq.
    + apply elem_of_cons in Ha' as [->|Ha']; [congruence|].
      destruct IH as (a2 & ? & ?); [lia|eauto|].
      exists a2. split; [by apply list_elem_of_further|done].
    + exists a. split; [apply list_elem_of_here|done].
    + destruct (countIf_more p q l) as (a2 & ? & ?); [lia|].
      exists a2. split; [by apply list_elem_of_further|done].
    + apply elem_of_cons in Ha' as [->|Ha']; [congruence|].
      destruct IH as (a2 & ? & ?); [lia|eauto|].
      exists a2. split; [by apply list_elem_of_further|done].
Qed.

(** ** Tile-wise changes and the invariants *)

Lemma tilewise_fmap (R : Tile → Tile → Prop) (f : Tile → Tile) b :
  (∀ t, R t (f t)) → tilewise R b ((λ row : list Tile, f <$> row) <$> b).
Proof.
  intros Hf. induction b as [|row b IH]; [constructor|].
  constructor; [|done]. clear IH. induction row; constructor; auto.
Qed.

Lemma revealAllMines_tilewise b : tilewise minesRevealed b (revealAllMines b).
Proof.
  apply tilewise_fmap. intros t. destruct (isMine t) eqn:Hm; [by right|by left].
Qed.

Lemma tilewise_mines (R : Tile → Tile → Prop) b b' y x :
  (∀ t t', R t t' → isMine t' = isMine t) → tilewise R b b' →
  isMine <$> cell b' y x = isMine <$> cell b y x.
Proof.
  intros HR H. pose proof (tilewise_cell R b b' y x H) as Hc.
  destruct (cell b y x), (cell b' y x); simpl; try done.
  by rewrite (HR _ _ Hc).
Qed.

Lemma tilewise_adjacencyOk (R : Tile → Tile → Prop) b b' :
  (∀ t t', R t t' →
     isMine t' = isMine t ∧ adjacentMines t' = adjacentMines t) →
  tilewise R b b' → adjacencyOk b → adjacencyOk b'.
Proof.
  intros HR H Hok y x t' Ht'.
  destruct (tilewise_cell_r R _ _ _ _ _ H Ht') as (t & Ht & Hr).
  destruct (HR _ _ Hr) as [-> ->]. rewrite (Hok _ _ _ Ht).
  destruct (isMine t); [done|]. symmetry. apply mineCount_ext.
  intros y' x'. apply (tilewise_mines R); [|done]. intros ?? Hr'.
  by destruct (HR _ _ Hr').
Qed.

Lemma tilewise_hiddenSafe (R : Tile → Tile → Prop) b b' :
  tilewise R b b' →
  (∃ y x t, cell b y x = Some t ∧
            ∀ t', R t t' → isMine t' = false ∧ isRevealed t' = false) →
  hiddenSafe b'.
Proof.
  intros H (y & x & t & Ht & Hkeep).
  destruct (tilewise_cell_l R _ _ _ _ _ H Ht) as (t' & Ht' & HR).
  exists y, x, t'. split; [done|]. by apply Hkeep.
Qed.

Lemma tilewise_noRevealedFlag (R : Tile → Tile → Prop) b b' :
  (∀ t t', R t t' → isRevealed t' = true → isFlagged t' = true →
     isRevealed t = true ∧ isFlagged t = true) →
  tilewise R b b' → noRevealedFlag b → noRevealedFlag b'.
Proof.
  intros HR H Hno y x t' Ht' Hrev.
  destruct (tilewise_cell_r R _ _ _ _ _ H Ht') as (t & Ht & Hr).
  destruct (isFlagged t') eqn:Hfl; [|done].
  destruct (HR _ _ Hr Hrev Hfl) as [Hrev0 Hfl0].
  rewrite (Hno _ _ _ Ht Hrev0) in Hfl0. done.
Qed.

Lemma revealedOnly_facts t t' :
  revealedOnly t t' →
  isMine t' = isMine t ∧ adjacentMines t' = adjacentMines t ∧
  isFlagged t' = isFlagged t ∧
  (isRevealed t' = true → isRevealed t = true ∨ isFlagged t = false) ∧
  (isFlagged t = true → t' = t) ∧ (isRevealed t = true → isRevealed t' = true).
Proof.
  intros [->|[Hb ->]]; simpl.
  - split_and!; auto.
  - unfold blocked in Hb. apply orb_false_iff in Hb as [Hr Hf].
    split_and!; auto. congruence.
Qed.

Lemma minesRevealed_facts t t' :
  minesRevealed t t' →
  isMine t' = isMine t ∧ adjacentMines t' = adjacentMines t ∧
  isFlagged t' = isFlagged t ∧ same_pos t t' ∧
  (isMine t = false → t' = t).
Proof.
  intros [->|[Hm ->]]; simpl; split_and!; auto; try done. congruence.
Qed.

Lemma put2_tilewise_rel (R : Tile → Tile → Prop) r c b0 b y x t0 t b' :
  grid r c b0 → tilewise R b0 b →
  cell b0 y x = Some t0 → R t0 t → put2 b y x t = Some b' →
  tilewise R b0 b'.
Proof.
  intros Hg Htw Ht0 HR Hput.
  eapply tilewise_intro; [done| |].
  - eapply put2_grid; [|done]. by eapply tilewise_grid.
  - intros y' x' u Hu. rewrite (put2_cell _ _ _ _ _ _ _ Hput).
    case_decide as Hd.
    + destruct Hd as [-> ->]. assert (u = t0) as -> by congruence. eauto.
    + by eapply tilewise_cell_l.
Qed.

Lemma countIf_zero {A} (p : A → bool) l :
  (∀ a, a ∈ l → p a = false) → countIf p l = 0.
Proof.
  intros Hall. pose proof (countIf_nonneg p l).
  destruct (decide (countIf p l = 0)) as [|Hne]; [done|].
  destruct (countIf_pos p l) as [H1 _].
  destruct H1 as (a & Ha & Hp); [lia|]. rewrite (Hall a Ha) in Hp. done.
Qed.

Lemma adjacencyOk_no_mines b :
  (∀ y x t, cell b y x = Some t → isMine t = false ∧ adjacentMines t = 0) →
  adjacencyOk b.
Proof.
  intros Hno y x t Ht. destruct (Hno _ _ _ Ht) as [-> ->].
  symmetry. apply countIf_zero. intros n Hn.
  apply elem_of_neighborTiles in Hn as (d & _ & Hn).
  by destruct (Hno _ _ _ Hn).
Qed.

Lemma initialState_inv r c m d : 0 < r → 0 < c → gameInv (initialState r c m d).
Proof.
  intros Hr Hc. split; [apply initialState_wf|]. split; [done|]. split; [done|].
  assert (∀ y x t, cell (board (initialState r c m d)) y x = Some t →
            t = mkTile x y false false false 0) as Hcell.
  { intros y x t. simpl. rewrite cell_createMatrix. case_decide; [|done].
    by intros [= <-]. }
  split.
  - apply adjacencyOk_no_mines. intros y x t Ht. by rewrite (Hcell _ _ _ Ht).
  - simpl. split; [done|]. intros y x t Ht. by rewrite (Hcell _ _ _ Ht).
Qed.

Lemma gameInv_ext s s' :
  board s' = board s → rows s' = rows s → cols s' = cols s →
  status s' = status s → firstClick s' = firstClick s →
  gameInv s → gameInv s'.
Proof.
  unfold gameInv, wf. intros -> -> -> -> ->. done.
Qed.

Lemma settle_inv s :
  wf s → 0 < rows s → 0 < cols s → adjacencyOk (board s) →
  status s = Playing → firstClick s = false → noRevealedFlag (board s) →
  gameInv (settle s) ∧ board (settle s) = board s ∧
  hintsLeft (settle s) = hintsLeft s ∧
  (status (settle s) = Playing ∨ status (settle s) = Won).
Proof.
  intros Hwf Hr Hc Hok Hst Hfc Hno. unfold settle. case_decide as Hz.
  - split; [|by auto]. split; [done|]. split; [done|]. split; [done|].
    split; [done|]. simpl. done.
  - split; [|by auto]. split; [done|]. split; [done|]. split; [done|].
    split; [done|]. rewrite Hst. split; [done|].
    split; [by apply countHidden_nonzero|done].
Qed.

Lemma lose_inv s b :
  board_ok (rows s) (cols s) b → 0 < rows s → 0 < cols s → adjacencyOk b →
  noRevealedFlag b → hiddenSafe b →
  gameInv (withStatus (withBoard s (revealAllMines b)) Lost).
Proof.
  intros Hwf Hr Hc Hok Hno Hhid.
  pose proof (revealAllMines_tilewise b) as Htw.
  split; [|split; [done|split; [done|split]]]; simpl.
  - eapply tilewise_board_ok; [|done..]. intros u v Huv.
    by destruct (minesRevealed_facts _ _ Huv) as (_ & _ & _ & ? & _).
  - eapply tilewise_adjacencyOk; [|done..]. intros u v Huv.
    by destruct (minesRevealed_facts _ _ Huv) as (? & ? & _).
  - split.
    + eapply tilewise_hiddenSafe; [done|].
      destruct Hhid as (y & x & t & Ht & Hm & Hrev). exists y, x, t.
      split; [done|]. intros t' Ht'.
      destruct (minesRevealed_facts _ _ Ht') as (_ & _ & _ & _ & Hsame).
      by rewrite (Hsame Hm).
    + intros y x t' Ht' Hrev Hfl.
      destruct (tilewise_cell_r _ _ _ _ _ _ Htw Ht') as (t & Ht & [->|[Hm ->]]).
      * rewrite (Hno _ _ _ Ht Hrev) in Hfl. done.
      * done.
Qed.

Lemma flagToggled_facts t t' :
  flagToggled t t' →
  same_pos t t' ∧ isMine t' = isMine t ∧ adjacentMines t' = adjacentMines t ∧
  isRevealed t' = isRevealed t ∧ (isRevealed t = true → t' = t).
Proof.
  intros [->|[Hr ->]]; simpl; split_and!; auto; try done. congruence.
Qed.

Lemma toggleFlag_inv s x y :
  gameInv s →
  ∃ s', toggleFlag s x y = Some s' ∧ gameInv s' ∧ status s' = status s ∧
        hintsLeft s' = hintsLeft s ∧
        (finished s = true → s' = s).
Proof.
  intros Hinv. pose proof Hinv as (Hwf & Hr & Hc & Hok & Hst).
  pose proof (toggleFlag_noop s x y Hwf) as Hnoop.
  destruct (finished s) eqn:Hfin; [exists s; by auto|].
  destruct (cell (board s) y x) as [t|] eqn:Ht; last first.
  { exists s. split; [|by auto]. apply Hnoop. right. left. intros [Hy Hx].
    destruct (cell_is_Some _ _ _ y x (proj1 Hwf) Hy Hx) as [? ?]. congruence. }
  destruct (isRevealed t) eqn:Hrev;
    [exists s; split; [apply Hnoop; by eauto|]; by auto|].
  destruct (toggleFlag_flip s x y t Hwf Hfin Ht Hrev)
    as (s' & Hs' & Hcell & Hother & _ & _ & Hst' & Hfc' & Hh' & Hcfg & Hwf').
  exists s'. split; [done|]. split; [|by auto].
  destruct Hcfg as (Hrows & Hcols & _).
  assert (tilewise flagToggled (board s) (board s')) as Htw.
  { eapply tilewise_intro; [apply Hwf| |].
    - rewrite <- Hrows, <- Hcols. apply Hwf'.
    - intros y' x' u Hu. destruct (decide (y' = y ∧ x' = x)) as [[-> ->]|Hne].
      + assert (u = t) as -> by congruence. eexists. split; [done|]. by right.
      + rewrite Hother by done. eexists. split; [done|]. by left. }
  split; [done|]. rewrite Hrows, Hcols. split; [done|]. split; [done|]. split.
  - eapply tilewise_adjacencyOk; [|done..]. intros u v Huv.
    by destruct (flagToggled_facts _ _ Huv) as (_ & ? & ? & _).
  - rewrite Hst', Hfc'. destruct (status s) eqn:Est.
    + destruct Hst as [Hfc Hcells]. split; [done|]. intros y' x' t' Ht'.
      destruct (tilewise_cell_r _ _ _ _ _ _ Htw Ht') as (u & Hu & Huv).
      destruct (flagToggled_facts _ _ Huv) as (_ & -> & _ & -> & _).
      by apply (Hcells y' x').
    + destruct Hst as (Hfc & Hhid & Hno). split; [done|]. split.
      * eapply tilewise_hiddenSafe; [done|].
        destruct Hhid as (y' & x' & u & Hu & Hm & Hrv). exists y', x', u.
        split; [done|]. intros u' Huv.
        destruct (flagToggled_facts _ _ Huv) as (_ & -> & _ & -> & _). done.
      * eapply tilewise_noRevealedFlag; [|done..]. intros u v Huv Hrv Hfl.
        destruct (flagToggled_facts _ _ Huv) as (_ & _ & _ & Hrr & Hsame).
        rewrite Hrr in Hrv. rewrite (Hsame Hrv) in Hfl. done.
    + unfold finished in Hfin. rewrite Est in Hfin. done.
    + unfold finished in Hfin. rewrite Est in Hfin. done.
Qed.

(** ** Reveal *)

Lemma revealedOnly_noRevealedFlag b b' :
  tilewise revealedOnly b b' → noRevealedFlag b → noRevealedFlag b'.
Proof.
  apply tilewise_noRevealedFlag. intros u v Huv Hrv Hfl.
  destruct (revealedOnly_facts _ _ Huv) as (_ & _ & Hf & _ & Hsame & _).
  rewrite Hf in Hfl. rewrite (Hsame Hfl) in Hrv. done.
Qed.

Lemma revealedOnly_adjacencyOk b b' :
  tilewise revealedOnly b b' → adjacencyOk b → adjacencyOk b'.
Proof.
  apply tilewise_adjacencyOk. intros u v Huv.
  by destruct (revealedOnly_facts _ _ Huv) as (? & ? & _).
Qed.

Lemma revealedOnly_board_ok r c b b' :
  tilewise revealedOnly b b' → board_ok r c b → board_ok r c b'.
Proof. apply tilewise_board_ok. apply revealedOnly_same_pos. Qed.

Lemma revealEnd_flood s t x y :
  wf s → 0 < rows s → 0 < cols s → adjacencyOk (board s) →
  status s = Playing → firstClick s = false → noRevealedFlag (board s) →
  tile_x t = x → tile_y t = y → isMine t = false →
  ∃ b2, revealFloodFill (board s) x y = Some b2 ∧
        tilewise revealedOnly (board s) b2 ∧
        revealEnd s t = Some (settle (withBoard s b2)) ∧
        gameInv (settle (withBoard s b2)) ∧
        (status (settle (withBoard s b2)) = Playing ∨
         status (settle (withBoard s b2)) = Won).
Proof.
  intros Hwf Hr Hc Hok Hst Hfc Hno Hx Hy Hm.
  destruct (revealFloodFill_tilewise (rows s) (cols s) (board s) x y)
    as (b2 & Hb2 & Htw); [apply Hwf|done|].
  exists b2. split; [done|]. split; [done|]. split.
  - unfold revealEnd. rewrite Hm, Hx, Hy, Hb2. done.
  - destruct (settle_inv (withBoard s b2)) as (Hinv & _ & _ & Hs); try done.
    + by eapply revealedOnly_board_ok.
    + by eapply revealedOnly_adjacencyOk.
    + by eapply revealedOnly_noRevealedFlag.
Qed.

Lemma revealBegin_first rnd now s t x y :
  gameInv s → status s = Ready → tile_x t = x → tile_y t = y →
  ∃ b1,
    revealBegin rnd now s t =
      Some (withStartedAt (withFirstClick (withStatus (withBoard s b1) Playing)
              false) (Some now)) ∧
    board_ok (rows s) (cols s) b1 ∧ adjacencyOk b1 ∧
    tilewise sameButMines (board s) b1 ∧
    ∀ y' x' t1, cell b1 y' x' = Some t1 →
      isRevealed t1 = false ∧
      isMine t1 = bool_decide (y' * cols s + x' ∈ minePositions rnd s x y).
Proof.
  intros (Hwf & Hr & Hc & Hok & Hst) Hready Hx Hy. rewrite Hready in Hst.
  destruct Hst as [Hfc Hcells].
  destruct (placeMines_spec rnd s x y Hwf Hr Hc)
    as (b1 & Hb1 & Hok1 & Htw & Hadj & Hmines).
  exists b1. split; [|split; [done|split; [done|split; [done|]]]].
  - unfold revealBegin. rewrite Hfc, Hx, Hy, Hb1. done.
  - intros y' x' t1 Ht1.
    destruct (tilewise_cell_r _ _ _ _ _ _ Htw Ht1) as (t0 & Ht0 & _ & Hrv & _).
    destruct (Hcells _ _ _ Ht0) as [Hm0 Hr0].
    destruct (Hmines _ _ _ Ht0) as (t1' & Ht1' & Hm1).
    assert (t1' = t1) as -> by congruence.
    rewrite Hrv, Hm1, Hm0. done.
Qed.

(** The first click of a game: mines are laid outside the clicked
    neighbourhood, then the fill runs on the new board. *)
Lemma reveal_first_click rnd now s x y t :
  gameInv s → status s = Ready →
  cell (board s) y x = Some t → isFlagged t = false →
  ∃ b1 b2 s',
    reveal rnd now s x y = Some s' ∧ gameInv s' ∧ board s' = b2 ∧
    hintsLeft s' = hintsLeft s ∧
    (status s' = Playing ∨ status s' = Won) ∧
    tilewise revealedOnly b1 b2 ∧
    ∀ y' x' t1, cell b1 y' x' = Some t1 →
      isMine t1 = bool_decide (y' * cols s + x' ∈ minePositions rnd s x y).
Proof.
  intros Hinv Hready Ht Hfl. pose proof Hinv as (Hwf & Hr & Hc & Hok & Hst).
  rewrite Hready in Hst. destruct Hst as [Hfc Hcells].
  destruct (Hcells _ _ _ Ht) as [Hm Hrev].
  destruct Hwf as [Hg Hco]. destruct (Hco _ _ _ Ht) as [Hx Hy].
  destruct (revealBegin_first rnd now s t x y Hinv Hready Hx Hy)
    as (b1 & Hbegin & Hok1 & Hadj1 & Htw1 & Hcells1).
  set (s1 := withStartedAt (withFirstClick (withStatus (withBoard s b1) Playing)
                 false) (Some now)) in *.
  destruct (revealEnd_flood s1 t x y) as (b2 & Hb2 & Htw2 & Hend & Hinv2 & Hst2);
    try done.
  { intros y' x' t1 Ht1 Hrv. by destruct (Hcells1 _ _ _ Ht1) as [Hr1 _];
      congruence. }
  exists b1, b2, (settle (withBoard s1 b2)). split_and!; try done.
  - unfold reveal, finished. rewrite Hready. simpl.
    rewrite tileAt_wf by (by split). simpl. rewrite Ht. simpl.
    rewrite Hrev, Hfl. simpl. rewrite Hbegin. simpl. done.
  - unfold settle. by case_decide.
  - unfold settle. by case_decide.
  - intros y' x' t1 Ht1. by destruct (Hcells1 _ _ _ Ht1).
Qed.

Lemma reveal_inv rnd now s x y :
  gameInv s →
  ∃ s', reveal rnd now s x y = Some s' ∧ gameInv s' ∧
        statusMove (status s) (status s') ∧ hintsLeft s' = hintsLeft s ∧
        (finished s = true → s' = s).
Proof.
  intros Hinv. pose proof Hinv as (Hwf & Hr & Hc & Hok & Hst).
  assert (∃ s', Some s = Some s' ∧ gameInv s' ∧
        statusMove (status s) (status s') ∧ hintsLeft s' = hintsLeft s ∧
        (finished s = true → s' = s)) as Hsame.
  { exists s. split_and!; try done. by left. }
  unfold reveal at 1. destruct (finished s) eqn:Hfin; [done|].
  rewrite tileAt_wf by done. simpl.
  destruct (cell (board s) y x) as [t|] eqn:Ht; [|done].
  destruct (isRevealed t) eqn:Hrev; [done|].
  destruct (isFlagged t) eqn:Hfl; [done|]. simpl.
  destruct (status s) eqn:Est.
  - destruct (reveal_first_click rnd now s x y t Hinv Est Ht Hfl)
      as (b1 & b2 & s' & Hs' & Hinv' & _ & Hh & Hst' & _).
    unfold reveal in Hs'. rewrite Hfin, tileAt_wf in Hs' by done.
    simpl in Hs'. rewrite Ht in Hs'. simpl in Hs'. rewrite Hrev, Hfl in Hs'.
    simpl in Hs'. rewrite Hs'. exists s'. split_and!; try done.
    destruct Hst' as [->| ->]; [right; left; constructor|right; by right].
  - destruct Hst as (Hfc & Hhid & Hno).
    destruct Hwf as [Hg Hco]. destruct (Hco _ _ _ Ht) as [Hx Hy].
    unfold revealBegin. rewrite Hfc. simpl.
    destruct (isMine t) eqn:Hm.
    + unfold revealEnd. rewrite Hm. eexists. split; [done|]. split_and!.
      * apply lose_inv; try done.
      * right. left. simpl. constructor.
      * done.
      * done.
    + destruct (revealEnd_flood s t x y) as (b2 & _ & _ & -> & Hinv2 & Hst2);
        try done.
      eexists. split; [done|]. split; [done|]. split_and!.
      * destruct Hst2 as [-> | ->]; [by left|right; left; constructor].
      * unfold settle. by case_decide.
      * done.
  - unfold finished in Hfin. rewrite Est in Hfin. done.
  - unfold finished in Hfin. rewrite Est in Hfin. done.
Qed.

(** C1. For every valid configuration, every in-bounds coordinate and every
    outcome of the shuffle, the first [reveal(x, y)] of a fresh game
    completes, and afterwards neither the tile at [(x, y)] nor any of its
    in-bounds 8-neighbours is a mine. *)
Theorem first_click_safe (rnd : nat → nat) (now : Z) (r c m : Z)
    (d : Difficulty) (x y : Z) :
  valid_config r c m → 0 ≤ x < c → 0 ≤ y < r →
  ∃ s', reveal rnd now (initialState r c m d) x y = Some s' ∧
    ∀ dd t, dd ∈ offsets9 →
      cell (board s') (y + dd.1) (x + dd.2) = Some t → isMine t = false.
Proof.
  intros (Hr & Hc & _) Hx Hy.
  pose proof (initialState_inv r c m d Hr Hc) as Hinv.
  destruct (cell_is_Some r c (board (initialState r c m d)) y x)
    as [t Ht]; [apply initialState_wf|done..|].
  assert (isFlagged t = false) as Hfl.
  { simpl in Ht. rewrite cell_createMatrix in Ht. case_decide; [|done].
    by injection Ht as <-. }
  destruct (reveal_first_click rnd now _ x y t Hinv eq_refl Ht Hfl)
    as (b1 & b2 & s' & Hs' & Hinv' & Hb2 & _ & _ & Htw & Hmines).
  exists s'. split; [done|]. intros dd t2 Hdd Ht2. rewrite Hb2 in Ht2.
  destruct (tilewise_cell_r _ _ _ _ _ _ Htw Ht2) as (t1 & Ht1 & Hro).
  destruct (revealedOnly_facts _ _ Hro) as (-> & _).
  rewrite (Hmines _ _ _ Ht1). apply bool_decide_eq_false.
  destruct Hinv' as (Hwf' & _).
  assert (grid r c b2) as Hg2.
  { destruct Hwf' as [Hg' _]. rewrite Hb2 in Hg'.
    destruct (reveal_config _ _ _ _ _ _ Hs') as (Hrows & Hcols & _).
    rewrite Hrows, Hcols in Hg'. done. }
  destruct (cell_bounds _ _ _ _ _ _ Hg2 Ht2) as [Hyb Hxb].
  by apply minePositions_safe.
Qed.

Lemma first_click_safe_witness :
  ∃ s', reveal (λ i, i) 1000 (initialState 4 5 3 Custom) 2 1 = Some s' ∧
    ∀ dd t, dd ∈ offsets9 →
      cell (board s') (1 + dd.1) (2 + dd.2) = Some t → isMine t = false.
Proof.
  apply first_click_safe.
  - unfold valid_config. lia.
  - lia.
  - lia.
Defined.

(** ** Chord *)

Lemma neighborTiles_cell s x y n :
  wf s → n ∈ neighborTiles (board s) x y →
  cell (board s) (tile_y n) (tile_x n) = Some n.
Proof.
  intros [_ Hco] (d & _ & Hn)%elem_of_neighborTiles.
  by destruct (Hco _ _ _ Hn) as [-> ->].
Qed.

Lemma chordStep_inv s (ns : list Tile) (acc : Board * bool) n :
  wf s → 0 < rows s → n ∈ ns →
  (∀ n, n ∈ ns → cell (board s) (tile_y n) (tile_x n) = Some n) →
  (tilewise revealedOnly (board s) acc.1 ∧
   (acc.2 = true → ∃ n, n ∈ ns ∧ isFlagged n = false ∧ isMine n = true)) →
  ∃ acc', chordStep acc n = Some acc' ∧
    tilewise revealedOnly (board s) acc'.1 ∧
    (acc'.2 = true → ∃ n, n ∈ ns ∧ isFlagged n = false ∧ isMine n = true).
Proof.
  intros Hwf Hr Hn Hcells [Htw Hhit]. destruct acc as [cur hit]. simpl in *.
  pose proof Hwf as [Hg Hco].
  pose proof (tilewise_grid _ _ _ _ _ Htw Hg) as Hgc.
  unfold chordStep. simpl.
  destruct (isFlagged n) eqn:Hfl; simpl; [by eauto|].
  destruct (isRevealed n) eqn:Hrev; simpl; [by eauto|].
  destruct (isMine n) eqn:Hm.
  - destruct (tilewise_cell_l _ _ _ _ _ _ Htw (Hcells n Hn)) as (n' & Hn' & _).
    destruct (put2_Some cur _ _ (setRevealed n true) n' Hn') as [cur' Hput].
    rewrite Hput. simpl. eexists. split; [done|]. simpl. split; [|by eauto].
    eapply put2_tilewise_rel; [done|done|by apply Hcells| |done].
    right. split; [|done]. unfold blocked. by rewrite Hrev, Hfl.
  - destruct (revealFloodFill_tilewise _ _ cur (tile_x n) (tile_y n) Hgc Hr)
      as (cur' & -> & Htw'). simpl. eexists. split; [done|]. simpl.
    split; [|done]. eapply tilewise_trans; [|done..].
    apply revealedOnly_trans.
Qed.

Lemma chord_inv s x y :
  gameInv s →
  ∃ s', chord s x y = Some s' ∧ gameInv s' ∧
        statusMove (status s) (status s') ∧ hintsLeft s' = hintsLeft s ∧
        (finished s = true → s' = s).
Proof.
  intros Hinv. pose proof Hinv as (Hwf & Hr & Hc & Hok & Hst).
  assert (∃ s', Some s = Some s' ∧ gameInv s' ∧
        statusMove (status s) (status s') ∧ hintsLeft s' = hintsLeft s ∧
        (finished s = true → s' = s)) as Hsame.
  { exists s. split_and!; try done. by left. }
  unfold chord.
  destruct (bool_decide (status s = Playing)) eqn:Hpl; simpl; [|done].
  apply bool_decide_eq_true in Hpl. rewrite Hpl in Hst.
  destruct Hst as (Hfc & Hhid & Hno).
  rewrite tileAt_wf by done. simpl.
  destruct (cell (board s) y x) as [t|] eqn:Ht; [|done].
  destruct (isRevealed t) eqn:Hrev; simpl; [|done].
  destruct (isMine t) eqn:Hm; simpl; [done|].
  destruct (bool_decide (adjacentMines t = 0)) eqn:Hadj; [done|].
  pose proof Hwf as [Hg Hco]. destruct (Hco _ _ _ Ht) as [Hx Hy].
  rewrite Hx, Hy. rewrite (neighbors_grid (rows s) (cols s)) by done. simpl.
  set (ns := neighborTiles (board s) x y).
  destruct (bool_decide (countIf isFlagged ns = adjacentMines t)) eqn:Hflags;
    simpl; [|done].
  apply bool_decide_eq_true in Hflags.
  assert (∀ n, n ∈ ns → cell (board s) (tile_y n) (tile_x n) = Some n)
    as Hcells by (intros n Hn; by eapply neighborTiles_cell).
  destruct (foldM_inv chordStep
    (λ acc, tilewise revealedOnly (board s) acc.1 ∧
      (acc.2 = true → ∃ n, n ∈ ns ∧ isFlagged n = false ∧ isMine n = true))
    (board s, false) ns) as ([cur hit] & -> & Htw & Hhit).
  { simpl. split; [|done]. apply tilewise_refl, revealedOnly_refl. }
  { intros acc n Hn Hacc. by eapply chordStep_inv. }
  simpl in *. clear Hsame.
  pose proof (revealedOnly_board_ok _ _ _ _ Htw Hwf) as Hokc.
  pose proof (revealedOnly_adjacencyOk _ _ Htw Hok) as Hadjc.
  pose proof (revealedOnly_noRevealedFlag _ _ Htw Hno) as Hnoc.
  assert (finished s = false) as Hfin
    by (unfold finished; by rewrite Hpl).
  destruct hit.
  - eexists. split; [done|]. split; [|split; [|split; [done|congruence]]].
    + apply lose_inv; try done.
      destruct (Hhit eq_refl) as (n & Hn & Hnf & Hnm).
      destruct (countIf_exchange isFlagged isMine ns) as (n' & Hn' & Hf' & Hm').
      { rewrite Hflags. specialize (Hok _ _ _ Ht). rewrite Hm in Hok.
        rewrite Hok. unfold mineCount. fold ns. lia. }
      { eauto. }
      pose proof (Hcells n' Hn') as Hc'.
      destruct (tilewise_cell_l _ _ _ _ _ _ Htw Hc') as (n2 & Hn2 & Hro).
      destruct (revealedOnly_facts _ _ Hro) as (_ & _ & _ & _ & Hsame & _).
      rewrite (Hsame Hf') in Hn2.
      exists (tile_y n'), (tile_x n'), n'. split; [done|]. split; [done|].
      destruct (isRevealed n') eqn:Hr'; [|done].
      rewrite (Hno _ _ _ Hc' Hr') in Hf'. done.
    + rewrite Hpl. right. left. constructor.
  - destruct (settle_inv (withBoard s cur)) as (Hinv2 & _ & Hh2 & Hst2);
      try done.
    eexists. split; [done|]. split; [done|]. split; [|split; [done|congruence]].
    rewrite Hpl.
    destruct Hst2 as [-> | ->]; [by left|right; left; constructor].
Qed.

(** ** Hints *)

Lemma scanHint_grid r c b cells :
  grid r c b →
  (∀ y x, (y, x) ∈ cells → 0 ≤ y < r ∧ 0 ≤ x < c) →
  ∃ found, scanHint b cells = Some found ∧
    ∀ x y, found = Some (x, y) →
      ∃ t, cell b y x = Some t ∧ isRevealed t = false ∧ isFlagged t = false.
Proof.
  intros Hg. induction cells as [|[y x] cells IH]; intros Hin.
  - exists None. split; [done|]. by intros.
  - destruct (Hin y x (list_elem_of_here _ _)) as [Hy Hx].
    destruct (cell_is_Some r c b y x Hg Hy Hx) as [t Ht].
    simpl. rewrite (at2_cell r c) by done. simpl. rewrite Ht. simpl.
    destruct (negb (isMine t) && negb (isRevealed t) && negb (isFlagged t))
      eqn:Hcond.
    + eexists. split; [done|]. intros x' y' [= <- <-]. exists t.
      destruct (isMine t), (isRevealed t), (isFlagged t); done.
    + apply IH. intros y' x' Hyx. apply Hin. by apply list_elem_of_further.
Qed.

Lemma useHint_inv rnd now s :
  gameInv s →
  ∃ s', useHint rnd now s = Some s' ∧ gameInv s' ∧
        statusMove (status s) (status s') ∧ (finished s = true → s' = s).
Proof.
  intros Hinv. pose proof Hinv as (Hwf & Hr & Hc & Hok & Hst).
  unfold useHint. destruct (bool_decide (hintsLeft s ≤ 0)); simpl.
  { exists s. split_and!; try done. by left. }
  destruct (finished s) eqn:Hfin.
  { exists s. split_and!; try done. by left. }
  destruct (scanHint_grid (rows s) (cols s) (board s)
    (y ← seqZ 0 (rows s); x ← seqZ 0 (cols s); [(y, x)])) as (found & -> & Hf).
  { apply Hwf. }
  { intros y x Hyx. apply list_elem_of_bind in Hyx as (y' & Hyx & Hy').
    apply list_elem_of_bind in Hyx as (x' & Hyx & Hx').
    apply list_elem_of_singleton in Hyx as [= -> ->].
    apply elem_of_seqZ in Hy', Hx'. lia. }
  simpl. destruct found as [[x y]|].
  - destruct (reveal_inv rnd now s x y Hinv) as (s' & -> & Hinv' & Hmv & _).
    simpl. eexists. split; [done|]. split; [|split; [done|congruence]].
    by eapply gameInv_ext; [..|exact Hinv'].
  - exists s. split_and!; try done. by left.
Qed.

(** ** The invariant along runs *)

Lemma exec_inv e c s :
  gameInv s → allowed c →
  ∃ s', exec e c s = Some s' ∧ gameInv s' ∧
    (isReset c = false →
       statusMove (status s) (status s') ∧ (finished s = true → s' = s)).
Proof.
  intros Hinv Hal. pose proof Hinv as (_ & Hr & Hc & _).
  destruct c as [r c m d|p| |x y|x y|x y| |]; simpl in *.
  - destruct Hal as (? & ? & _). eexists. split; [done|].
    split; [by apply initialState_inv|done].
  - destruct p; (eexists; split; [done|];
      split; [by apply initialState_inv|done]).
  - eexists. split; [done|]. split; [by apply initialState_inv|done].
  - destruct (toggleFlag_inv s x y Hinv) as (s' & ? & ? & Hst & _ & ?).
    exists s'. split; [done|]. split; [done|]. intros _.
    split; [left; by rewrite Hst|done].
  - destruct (reveal_inv (env_rnd e) (env_now e) s x y Hinv)
      as (s' & ? & ? & ? & _ & ?).
    exists s'. split; [done|]. split; [done|]. intros _. by split.
  - destruct (chord_inv s x y Hinv) as (s' & ? & ? & ? & _ & ?).
    exists s'. split; [done|]. split; [done|]. intros _. by split.
  - destruct (useHint_inv (env_rnd e) (env_now e) s Hinv)
      as (s' & ? & ? & ? & ?).
    exists s'. split; [done|]. split; [done|]. intros _. by split.
  - assert (∃ s', Some s = Some s' ∧ gameInv s' ∧
      (false = false →
       statusMove (status s) (status s') ∧ (finished s = true → s' = s)))
      as Hsame.
    { exists s. split; [done|]. split; [done|]. intros _. split; [by left|done]. }
    unfold tick. destruct (startedAt s) as [t0|] eqn:Hst0; [|done].
    destruct (negb (bool_decide (status s = Playing))) eqn:Hpl; simpl; [done|].
    destruct (bool_decide (t0 = 0)); [done|].
    eexists. split; [done|]. split.
    + by eapply gameInv_ext; [..|exact Hinv].
    + intros _. split; [by left|]. intros Hfin.
      unfold finished in Hfin. apply negb_false_iff in Hpl.
      apply bool_decide_eq_true in Hpl. rewrite Hpl in Hfin. done.
Qed.

Lemma step_inv e c s :
  gameInv s → allowed c →
  exec e c s = Some (step e c s) ∧ gameInv (step e c s) ∧
  (isReset c = false →
     statusMove (status s) (status (step e c s)) ∧
     (finished s = true → step e c s = s)).
Proof.
  intros Hinv Hal. destruct (exec_inv e c s Hinv Hal) as (s' & Hs' & H).
  unfold step. rewrite Hs'. simpl. by split.
Qed.

Lemma reachable_inv s : reachable s → gameInv s.
Proof.
  induction 1 as [e r c m d s0 (Hr & Hc & _)|e cmd s _ IH Hal].
  - unfold step. simpl. by apply initialState_inv.
  - by apply step_inv.
Qed.

(** Every command of a run completes: no run of a reachable game fails. *)
Lemma reachable_total e c s :
  reachable s → allowed c → exec e c s = Some (step e c s).
Proof. intros Hre Hal. by apply step_inv; [apply reachable_inv|]. Qed.

(** C3. In every state reachable by commands from a valid [newGame], the
    status is [Won] if and only if no tile that is not a mine is hidden,
    that is, [countHiddenNonMines] is exactly 0. *)
Theorem won_iff_no_hidden (s : GameState) :
  reachable s → (status s = Won ↔ countHiddenNonMines (board s) = 0).
Proof.
  intros (Hwf & Hr & Hc & _ & Hst)%reachable_inv. split.
  - intros Hwon. rewrite Hwon in Hst. by destruct Hst.
  - intros Hzero.
    assert (¬ hiddenSafe (board s)) as Hno
      by (intros Hh%countHidden_nonzero; done).
    destruct (status s); [|by destruct Hst as (_ & ? & _)|done
                          |by destruct Hst as (? & _)].
    destruct Hst as [_ Hcells]. destruct Hno.
    destruct (cell_is_Some (rows s) (cols s) (board s) 0 0) as [t Ht];
      [apply Hwf|lia..|].
    exists 0, 0, t. split; [done|]. by apply (Hcells 0 0).
Qed.

Lemma won_iff_no_hidden_witness :
  status (step (mkEnv (λ i, i) 7) (Reveal 1 1)
            (step (mkEnv (λ i, i) 0) (NewGame 3 3 0 Custom)
               (initialState 9 9 10 Beginner))) = Won ↔
  countHiddenNonMines
    (board (step (mkEnv (λ i, i) 7) (Reveal 1 1)
              (step (mkEnv (λ i, i) 0) (NewGame 3 3 0 Custom)
                 (initialState 9 9 10 Beginner)))) = 0.
Proof.
  apply won_iff_no_hidden.
  apply reachable_step; [apply reachable_new|exact I].
  unfold valid_config. lia.
Defined.

Lemma statusMove_rtc a b : statusMove a b → rtc statusEdge a b.
Proof.
  intros [->|[Hedge|[-> ->]]].
  - apply rtc_refl.
  - by apply rtc_once.
  - eapply rtc_l; [constructor|]. apply rtc_once. constructor.
Qed.

Lemma useHint_cases rnd now s s' :
  useHint rnd now s = Some s' →
  s' = s ∨ ∃ x y s2, reveal rnd now s x y = Some s2 ∧
                     s' = withHintsLeft s2 (Z.max 0 (hintsLeft s2 - 1)).
Proof.
  unfold useHint. destruct (_ || _); [intros [= <-]; by left|].
  intros H. apply bind_Some in H as ([[x y]|] & _ & H);
    [|injection H as <-; by left].
  apply bind_Some in H as (s2 & Hs2 & H). injection H as <-.
  right. eauto.
Qed.

(** A first click does take both arrows: the working state of [reveal] has
    status [Playing] after the first-click block, whatever it ends with. *)
Lemma reveal_via_playing rnd now s x y s' :
  gameInv s → status s = Ready →
  reveal rnd now s x y = Some s' → status s' ≠ Ready →
  ∃ t s1, revealBegin rnd now s t = Some s1 ∧ status s1 = Playing ∧
          revealEnd s1 t = Some s'.
Proof.
  intros Hinv Hready Hrev Hne. pose proof Hinv as (Hwf & _).
  unfold reveal in Hrev. destruct (finished s); [congruence|].
  rewrite tileAt_wf in Hrev by done. simpl in Hrev.
  destruct (cell (board s) y x) as [t|] eqn:Ht; [|congruence].
  destruct (isRevealed t || isFlagged t); [congruence|].
  apply bind_Some in Hrev as (s1 & Hs1 & Hend).
  exists t, s1. split; [done|]. split; [|done].
  destruct Hwf as [_ Hco]. destruct (Hco _ _ _ Ht) as [Hx Hy].
  destruct (revealBegin_first rnd now s t x y Hinv Hready Hx Hy)
    as (b1 & Hb1 & _).
  rewrite Hb1 in Hs1. by injection Hs1 as <-.
Qed.

Lemma ready_to_won_via_playing e c s :
  gameInv s → isReset c = false →
  status s = Ready → status (step e c s) = Won →
  ∃ t s1 s2, revealBegin (env_rnd e) (env_now e) s t = Some s1 ∧
             status s1 = Playing ∧ revealEnd s1 t = Some s2 ∧
             status s2 = Won ∧ board s2 = board (step e c s).
Proof.
  intros Hinv Hc Hready Hwon.
  assert (allowed c) as Hal by (by destruct c).
  destruct (step_inv e c s Hinv Hal) as (Hex & _ & _).
  destruct c as [| | |x y|x y|x y| |]; simpl in *; try done.
  - destruct (toggleFlag_inv s x y Hinv) as (s' & Hs' & _ & Hst & _).
    rewrite Hex in Hs'. injection Hs' as <-. congruence.
  - destruct (reveal_via_playing _ _ _ _ _ _ Hinv Hready Hex)
      as (t & s1 & ? & ? & ?); [congruence|]. by exists t, s1, (step e (Reveal x y) s).
  - unfold chord in Hex. rewrite Hready in Hex. simpl in Hex.
    injection Hex as Hex. congruence.
  - apply useHint_cases in Hex as [Hex|(x & y & s2 & Hs2 & Hex)]; [congruence|].
    rewrite Hex in Hwon |- *. simpl in *.
    destruct (reveal_via_playing _ _ _ _ _ _ Hinv Hready Hs2)
      as (t & s1 & ? & ? & ?); [congruence|]. by exists t, s1, s2.
  - unfold tick in Hex. destruct (startedAt s); [|injection Hex as Hex; congruence].
    rewrite Hready in Hex. simpl in Hex. injection Hex as Hex. congruence.
Qed.

(** C4. Along every run the status moves only along
    [Ready → Playing → Won] or [Ready → Playing → Lost].  A command other
    than [newGame]/[restart] leaves the status as it is or moves it along
    these arrows: one arrow, or, when the first click already uncovers
    every safe tile, the two arrows [Ready → Playing → Won] within that one
    [reveal], whose working state has status [Playing] in between.  Once
    the status is [Won] or [Lost], every such command ([reveal],
    [toggleFlag], [chord], [useHint], and the timer) leaves [board] and
    [status] unchanged. *)
Theorem status_transitions (e : Env) (c : Command) (s : GameState) :
  reachable s → isReset c = false →
  rtc statusEdge (status s) (status (step e c s)) ∧
  statusMove (status s) (status (step e c s)) ∧
  (status s = Ready → status (step e c s) = Won →
   ∃ t s1 s2, revealBegin (env_rnd e) (env_now e) s t = Some s1 ∧
              status s1 = Playing ∧ revealEnd s1 t = Some s2 ∧
              status s2 = Won ∧ board s2 = board (step e c s)) ∧
  (status s = Won ∨ status s = Lost →
   board (step e c s) = board s ∧ status (step e c s) = status s).
Proof.
  intros Hre Hc.
  assert (allowed c) as Hal by (by destruct c).
  destruct (step_inv e c s (reachable_inv _ Hre) Hal) as (_ & _ & H).
  destruct (H Hc) as [Hmv Hfin]. split; [by apply statusMove_rtc|].
  split; [done|]. split.
  - by apply ready_to_won_via_playing; [apply reachable_inv|].
  - intros Hst. rewrite Hfin; [done|].
    unfold finished. by destruct Hst as [-> | ->].
Qed.

Lemma status_transitions_witness :
  rtc statusEdge Ready
    (status (step (mkEnv (λ i, i) 7) (Reveal 1 1)
               (step (mkEnv (λ i, i) 0) (NewGame 4 4 3 Custom)
                  (initialState 9 9 10 Beginner)))) ∧
  statusMove Ready
    (status (step (mkEnv (λ i, i) 7) (Reveal 1 1)
               (step (mkEnv (λ i, i) 0) (NewGame 4 4 3 Custom)
                  (initialState 9 9 10 Beginner)))).
Proof.
  destruct (status_transitions (mkEnv (λ i, i) 7) (Reveal 1 1)
    (step (mkEnv (λ i, i) 0) (NewGame 4 4 3 Custom)
       (initialState 9 9 10 Beginner))) as (H1 & H2 & _).
  - apply reachable_new. unfold valid_config. lia.
  - reflexivity.
  - split; [exact H1|exact H2].
Defined.

Lemma revealAllMines_cell b y x t :
  cell b y x = Some t →
  cell (revealAllMines b) y x =
  Some (if isMine t then setRevealed t true else t).
Proof.
  unfold cell, revealAllMines. rewrite ix_fmap.
  destruct (ix b y) as [row|]; simpl; [|done].
  rewrite ix_fmap. by intros ->.
Qed.


(** ** The flood fill, exactly *)

Lemma floodRegion_reach b sx sy x y :
  floodRegion b sx sy x y →
  floodReach b sx sy x y ∧ ∃ t, cell b y x = Some t ∧ spreads t = true.
Proof.
  induction 1 as [t Ht Hsp|x y d t Hreg [IH (t0 & Ht0 & Hsp0)] Hd Ht Hsp].
  - split; [constructor|eauto].
  - split; [|eauto]. by eapply flood_step.
Qed.

(** The reached positions are the start, the region and its border. *)
Lemma floodReach_region b sx sy x y :
  floodReach b sx sy x y ↔
  (x = sx ∧ y = sy) ∨
  ∃ x0 y0 d, floodRegion b sx sy x0 y0 ∧ d ∈ offsets8 ∧
             x = x0 + d.2 ∧ y = y0 + d.1.
Proof.
  split.
  - induction 1 as [|x y t d Hre IH Ht Hsp Hd]; [by left|].
    right. exists x, y, d. split; [|done].
    destruct IH as [[-> ->]|(x0 & y0 & d0 & Hreg & Hd0 & -> & ->)].
    + by eapply region_start.
    + by eapply region_step.
  - intros [[-> ->]|(x0 & y0 & d & Hreg & Hd & -> & ->)]; [constructor|].
    destruct (floodRegion_reach _ _ _ _ _ Hreg) as (Hre & t & Ht & Hsp).
    by eapply flood_step.
Qed.

(** C5 (amended). On every rectangular board with at least one row the
    fill from [(sx, sy)] terminates and changes nothing but [isRevealed]:
    it reveals exactly the tiles that are neither revealed nor flagged and
    are reached from the start, where the start is reached and so is every
    8-neighbour of a reached tile that is hidden, unflagged, not a mine and
    shows 0.  Revealed and flagged tiles are skipped and stop the spread,
    so the region is the maximal 8-connected set of hidden, unflagged zero
    tiles containing the start, and its border is revealed with it.  The
    fill is idempotent: run again from the start, or from any position
    whose tile is revealed or flagged, it returns the board unchanged. *)
Theorem floodFill_exact (r c : Z) (b : Board) (sx sy : Z) :
  grid r c b → 0 < r →
  ∃ b', revealFloodFill b sx sy = Some b' ∧ grid r c b' ∧
    (∀ y x t, cell b y x = Some t →
       (floodReach b sx sy x y → blocked t = false →
        cell b' y x = Some (setRevealed t true)) ∧
       (¬ floodReach b sx sy x y ∨ blocked t = true →
        cell b' y x = Some t)) ∧
    (∀ x y, floodReach b sx sy x y ↔
       (x = sx ∧ y = sy) ∨
       ∃ x0 y0 d, floodRegion b sx sy x0 y0 ∧ d ∈ offsets8 ∧
                  x = x0 + d.2 ∧ y = y0 + d.1) ∧
    revealFloodFill b' sx sy = Some b' ∧
    (∀ qx qy, (∀ t, cell b' qy qx = Some t → blocked t = true) →
       revealFloodFill b' qx qy = Some b').
Proof.
  intros Hg Hr.
  destruct (revealFloodFill_spec r c b sx sy Hg Hr) as (b' & Hb' & Hg' & Hcells).
  exists b'. split; [done|]. split; [done|]. split; [|split; [|split]].
  - intros y x t Ht. destruct (Hcells _ _ _ Ht) as [(Hre & Hbl & Hc)|[Hn Hc]].
    + split; [done|]. intros [Hnre|Hbl']; [done|congruence].
    + split; [|done]. intros Hre Hbl. destruct Hn; [done|congruence].
  - intros x y. apply floodReach_region.
  - apply (revealFloodFill_blocked r c); [done..|]. intros t' Ht'.
    destruct (cell b sy sx) as [t|] eqn:Ht.
    + destruct (Hcells _ _ _ Ht) as [(_ & _ & Hc)|[[Hn|Hbl] Hc]].
      * rewrite Hc in Ht'. by injection Ht' as <-.
      * destruct Hn. constructor.
      * congruence.
    + rewrite (cell_None r c) in Ht'; [done|done|]. intros [??].
      destruct (cell_is_Some r c b sy sx) as [? ?]; [done..|congruence].
  - intros qx qy Hbl. by apply (revealFloodFill_blocked r c).
Qed.

Lemma floodFill_exact_witness :
  ∃ b', revealFloodFill (board (initialState 3 4 0 Custom)) 1 1 = Some b' ∧
        revealFloodFill b' 1 1 = Some b' ∧
        cell b' 2 3 = Some (mkTile 3 2 false true false 0).
Proof.
  destruct (floodFill_exact 3 4 (board (initialState 3 4 0 Custom)) 1 1)
    as (b' & Hb' & _ & _ & _ & Hagain & _).
  - simpl. apply grid_createMatrix.
  - lia.
  - exists b'. split; [done|]. split; [done|].
    vm_compute in Hb'. injection Hb' as <-. reflexivity.
Defined.

Lemma zero_step' b sx sy x y x' y' t :
  zeroRegion b sx sy x y → (y' - y, x' - x) ∈ offsets8 →
  cell b y' x' = Some t → adjacentMines t = 0 → zeroRegion b sx sy x' y'.
Proof.
  intros Hz Hd Ht Ha.
  pose proof (zero_step b sx sy x y (y' - y, x' - x) t Hz Hd) as H.
  simpl in H. replace (y + (y' - y)) with y' in H by lia.
  replace (x + (x' - x)) with x' in H by lia. by apply H.
Qed.

(** C5, as stated, fails.  In the reachable state [splitRowGame] the
    adjacency counts are consistent, nothing is flagged and the tile at
    (0,0) is hidden and shows 0; the tile at (4,0) lies in the maximal
    8-connected region of zero tiles of (0,0), since the whole row shows 0;
    yet the fill from (0,0) stops at the revealed tile (2,0) and leaves
    (4,0) hidden. *)
Lemma floodFill_stops_at_revealed :
  reachable splitRowGame ∧ adjacencyOk (board splitRowGame) ∧
  cell (board splitRowGame) 0 0 = Some (mkTile 0 0 false false false 0) ∧
  zeroRegion (board splitRowGame) 0 0 4 0 ∧
  ∃ b', revealFloodFill (board splitRowGame) 0 0 = Some b' ∧
        cell b' 0 1 = Some (mkTile 1 0 false true false 0) ∧
        cell b' 0 4 = Some (mkTile 4 0 false false false 0).
Proof.
  assert (reachable splitRowGame) as Hre.
  { unfold splitRowGame, run. simpl.
    repeat (apply reachable_step; [|exact I]).
    apply reachable_new. unfold valid_config. lia. }
  destruct (reachable_inv _ Hre) as (_ & _ & _ & Hadj & _).
  split; [exact Hre|]. split; [exact Hadj|].
  assert (board splitRowGame =
          [[mkTile 0 0 false false false 0; mkTile 1 0 false false false 0;
            mkTile 2 0 false true false 0; mkTile 3 0 false false false 0;
            mkTile 4 0 false false false 0; mkTile 5 0 false false false 0;
            mkTile 6 0 false false false 0; mkTile 7 0 false false false 0;
            mkTile 8 0 false false false 0]]) as ->
    by (vm_compute; reflexivity).
  assert (∀ d : Z * Z, d = (0, 1) → d ∈ offsets8) as Hd.
  { intros d ->. apply elem_of_offsets8. split; [|done].
    apply elem_of_offsets9. simpl. lia. }
  split; [reflexivity|]. split.
  - eapply (zero_step' _ _ _ 3 0); [|by apply Hd|reflexivity|done].
    eapply (zero_step' _ _ _ 2 0); [|by apply Hd|reflexivity|done].
    eapply (zero_step' _ _ _ 1 0); [|by apply Hd|reflexivity|done].
    eapply (zero_step' _ _ _ 0 0); [|by apply Hd|reflexivity|done].
    eapply zero_start; [reflexivity|done].
  - eexists. split; [vm_compute; reflexivity|]. split; reflexivity.
Qed.


(** A chord on a revealed 1 with no flag around it, in a game under way. *)
Lemma chord_noop_unless_chordable_witness :
  chord (step (mkEnv (λ _, 0%nat) 7) (Reveal 0 0)
           (step (mkEnv (λ _, 0%nat) 0) (NewGame 4 4 3 Custom)
              (initialState 9 9 10 Beginner))) 1 0 =
  Some (step (mkEnv (λ _, 0%nat) 7) (Reveal 0 0)
          (step (mkEnv (λ _, 0%nat) 0) (NewGame 4 4 3 Custom)
             (initialState 9 9 10 Beginner))).
Proof.
  apply chord_noop_unless_chordable.
  - assert (reachable
              (step (mkEnv (λ _, 0%nat) 7) (Reveal 0 0)
                 (step (mkEnv (λ _, 0%nat) 0) (NewGame 4 4 3 Custom)
                    (initialState 9 9 10 Beginner)))) as Hre.
    { apply reachable_step; [apply reachable_new|exact I].
      unfold valid_config. lia. }
    destruct (reachable_inv _ Hre) as (Hwf & _). exact Hwf.
  - intros (_ & _ & t & Ht & _ & _ & _ & Hflags).
    vm_compute in Ht. injection Ht as <-. vm_compute in Hflags.
    discriminate Hflags.
Defined.

(** * Further properties of the service *)

(** ** How [reveal] runs *)

Lemma tilewise_weaken (R R' : Tile → Tile → Prop) b b' :
  (∀ u v, R u v → R' u v) → tilewise R b b' → tilewise R' b b'.
Proof.
  intros HRR H. unfold tilewise in *. eapply Forall2_impl; [|exact H].
  intros r1 r2 Hr. eapply Forall2_impl; [|exact Hr]. apply HRR.
Qed.

Lemma tilewise_compose (R1 R2 R3 : Tile → Tile → Prop) b1 b2 b3 :
  (∀ u v w, R1 u v → R2 v w → R3 u w) →
  tilewise R1 b1 b2 → tilewise R2 b2 b3 → tilewise R3 b1 b3.
Proof.
  intros Htr H12 H23. unfold tilewise in *.
  eapply Forall2_trans; [|done..].
  intros r1 r2 r3 Ha Hb. eapply Forall2_trans; [|done..]. apply Htr.
Qed.

Lemma revealedOnly_opened t t' : revealedOnly t t' → opened t t'.
Proof.
  intros H. pose proof (revealedOnly_same_pos _ _ H) as Hp.
  destruct (revealedOnly_facts _ _ H) as (Hm & Ha & Hf & _ & _ & Hr).
  split; [exact Hp|]. split; [exact Hm|]. split; [exact Ha|].
  split; [exact Hf|exact Hr].
Qed.

Lemma minesRevealed_opened t t' : minesRevealed t t' → opened t t'.
Proof.
  intros H. destruct (minesRevealed_facts _ _ H) as (? & ? & ? & ? & _).
  split; [done|]. split; [done|]. split; [done|]. split; [done|].
  by destruct H as [->|[_ ->]].
Qed.

Lemma opened_refl t : opened t t.
Proof. by repeat split. Qed.

Lemma opened_trans t1 t2 t3 : opened t1 t2 → opened t2 t3 → opened t1 t3.
Proof.
  intros ([??] & ? & ? & ? & ?) ([??] & ? & ? & ? & ?).
  repeat split; try congruence. auto.
Qed.

(** The four ways a [reveal] can run on a snapshot of a game. *)
Lemma reveal_cases rnd now s x y :
  gameInv s →
  (reveal rnd now s x y = Some s ∧
   (finished s = true ∨ cell (board s) y x = None ∨
    ∃ t, cell (board s) y x = Some t ∧
         (isRevealed t = true ∨ isFlagged t = true))) ∨
  ∃ t, cell (board s) y x = Some t ∧ finished s = false ∧
       isRevealed t = false ∧ isFlagged t = false ∧
    ((status s = Ready ∧
      ∃ b1 b2,
        placeMinesAfterFirstClick rnd s x y = Some (withBoard s b1) ∧
        revealFloodFill b1 x y = Some b2 ∧
        reveal rnd now s x y = Some (settle (withBoard (started s b1 now) b2)))
     ∨ (status s = Playing ∧ isMine t = true ∧
        reveal rnd now s x y =
        Some (withStatus (withBoard s (revealAllMines (board s))) Lost))
     ∨ (status s = Playing ∧ isMine t = false ∧
        ∃ b2, revealFloodFill (board s) x y = Some b2 ∧
              reveal rnd now s x y = Some (settle (withBoard s b2)))).
Proof.
  intros Hinv. pose proof Hinv as (Hwf & Hr & Hc & Hok & Hst).
  unfold reveal. destruct (finished s) eqn:Hfin; [left; by auto|].
  rewrite tileAt_wf by done. simpl.
  destruct (cell (board s) y x) as [t|] eqn:Ht; [|left; by auto].
  destruct (isRevealed t) eqn:Hrev; [left; split; [done|]; by eauto 6|].
  destruct (isFlagged t) eqn:Hfl; [left; split; [done|]; by eauto 6|].
  simpl. right. exists t. split; [done|]. split; [done|]. split; [done|].
  split; [done|].
  pose proof Hwf as [Hg Hco]. destruct (Hco _ _ _ Ht) as [Hx Hy].
  destruct (status s) eqn:Est.
  - left. split; [done|]. destruct Hst as [Hfc Hcells].
    destruct (Hcells _ _ _ Ht) as [Hm _].
    destruct (placeMines_spec rnd s x y Hwf Hr Hc)
      as (b1 & Hb1 & [Hg1 _] & _).
    destruct (revealFloodFill_tilewise _ _ b1 x y Hg1 Hr) as (b2 & Hb2 & _).
    exists b1, b2. split; [done|]. split; [done|].
    unfold revealBegin. rewrite Hfc, Hx, Hy, Hb1. simpl.
    unfold revealEnd. rewrite Hm, Hx, Hy. simpl. rewrite Hb2. done.
  - right. destruct Hst as (Hfc & _). unfold revealBegin. rewrite Hfc. simpl.
    unfold revealEnd. destruct (isMine t) eqn:Hm; [left; by auto|].
    right. split; [done|]. split; [done|]. rewrite Hx, Hy.
    destruct (revealFloodFill_tilewise _ _ (board s) x y Hg Hr)
      as (b2 & Hb2 & _).
    exists b2. split; [done|]. rewrite Hb2. done.
  - unfold finished in Hfin. rewrite Est in Hfin. done.
  - unfold finished in Hfin. rewrite Est in Hfin. done.
Qed.

(** ** The fill and the mines *)

Lemma mineCount_zero_neighbour b x y d t :
  mineCount b x y = 0 → d ∈ offsets8 →
  cell b (y + d.1) (x + d.2) = Some t → isMine t = false.
Proof.
  intros Hz Hd Ht. destruct (isMine t) eqn:Hm; [|done]. exfalso.
  destruct (countIf_pos isMine (neighborTiles b x y)) as [_ Hpos].
  unfold mineCount in Hz. rewrite Hz in Hpos.
  assert (0 < 0); [|lia]. apply Hpos. exists t.
  split; [|done]. apply elem_of_neighborTiles. eauto.
Qed.

(** On a board with consistent counts a fill that starts on a safe tile
    reaches no mine. *)
Lemma floodReach_no_mine b sx sy x y t :
  adjacencyOk b →
  (∀ t0, cell b sy sx = Some t0 → isMine t0 = false) →
  floodReach b sx sy x y → cell b y x = Some t → isMine t = false.
Proof.
  intros Hok Hstart Hre Ht.
  apply floodReach_region in Hre
    as [[-> ->]|(x0 & y0 & d & Hreg & Hd & -> & ->)]; [by apply Hstart|].
  destruct (floodRegion_reach _ _ _ _ _ Hreg) as (_ & t0 & Ht0 & Hsp).
  unfold spreads in Hsp.
  apply andb_true_iff in Hsp as [Hsp Hm0].
  apply andb_true_iff in Hsp as [_ Ha0].
  apply bool_decide_eq_true in Ha0. apply negb_true_iff in Hm0.
  specialize (Hok _ _ _ Ht0). rewrite Hm0, Ha0 in Hok.
  by eapply mineCount_zero_neighbour.
Qed.

Lemma flood_keeps_mines r c b sx sy b' :
  grid r c b → 0 < r → adjacencyOk b →
  (∀ t0, cell b sy sx = Some t0 → isMine t0 = false) →
  revealFloodFill b sx sy = Some b' →
  ∀ y x t, cell b y x = Some t → isMine t = true → cell b' y x = Some t.
Proof.
  intros Hg Hr Hok Hstart Hb' y x t Ht Hm.
  destruct (revealFloodFill_spec r c b sx sy Hg Hr) as (b2 & Hb2 & _ & Hcells).
  assert (b2 = b') as -> by congruence.
  destruct (Hcells _ _ _ Ht) as [(Hre & _ & _)|[_ Hc]]; [|done].
  rewrite (floodReach_no_mine _ _ _ _ _ _ Hok Hstart Hre Ht) in Hm. done.
Qed.

Lemma flood_reveals_start r c b sx sy b' t :
  grid r c b → 0 < r → cell b sy sx = Some t → isFlagged t = false →
  revealFloodFill b sx sy = Some b' →
  ∃ t', cell b' sy sx = Some t' ∧ isRevealed t' = true.
Proof.
  intros Hg Hr Ht Hfl Hb'.
  destruct (revealFloodFill_spec r c b sx sy Hg Hr) as (b2 & Hb2 & _ & Hcells).
  assert (b2 = b') as -> by congruence.
  destruct (Hcells _ _ _ Ht) as [(_ & _ & Hc)|[[Hn|Hbl] Hc]].
  - eexists. split; [done|]. done.
  - destruct Hn. constructor.
  - exists t. split; [done|]. unfold blocked in Hbl. rewrite Hfl in Hbl.
    by rewrite orb_false_r in Hbl.
Qed.

(** ** How [chord] runs *)

Lemma treadsOnMine_true n :
  treadsOnMine n = true ↔
  isFlagged n = false ∧ isRevealed n = false ∧ isMine n = true.
Proof.
  unfold treadsOnMine. destruct (isFlagged n), (isRevealed n), (isMine n);
    simpl; intuition congruence.
Qed.

(** The loop over the neighbours, from any point of its run. *)
Lemma chord_fold s (l : list Tile) (cur : Board) (hit : bool) :
  wf s → 0 < rows s → adjacencyOk (board s) →
  (∀ n, n ∈ l → cell (board s) (tile_y n) (tile_x n) = Some n) →
  tilewise revealedOnly (board s) cur →
  ∃ cur' hit',
    foldM chordStep (cur, hit) l = Some (cur', hit') ∧
    tilewise revealedOnly cur cur' ∧
    hit' = hit || existsb treadsOnMine l ∧
    (hit' = false →
     ∀ y x t, cell cur y x = Some t → isMine t = true →
              cell cur' y x = Some t) ∧
    (∀ n, n ∈ l → isFlagged n = false →
       ∃ t', cell cur' (tile_y n) (tile_x n) = Some t' ∧
             isRevealed t' = true).
Proof.
  intros Hwf Hr Hok. revert cur hit.
  induction l as [|n l IH]; intros cur hit Hcells Htw.
  - exists cur, hit. split; [done|]. split_and!.
    + apply tilewise_refl, revealedOnly_refl.
    + simpl. by rewrite orb_false_r.
    + done.
    + intros n Hn. by apply elem_of_nil in Hn.
  - pose proof Hwf as [Hg Hco].
    pose proof (tilewise_grid _ _ _ _ _ Htw Hg) as Hgc.
    pose proof (Hcells n (list_elem_of_here _ _)) as Hn.
    destruct (tilewise_cell_l _ _ _ _ _ _ Htw Hn) as (n' & Hn' & Hro).
    assert (∃ cur1, chordStep (cur, hit) n =
                    Some (cur1, hit || treadsOnMine n) ∧
              tilewise revealedOnly cur cur1 ∧
              (treadsOnMine n = false →
               ∀ y x t, cell cur y x = Some t → isMine t = true →
                        cell cur1 y x = Some t) ∧
              (isFlagged n = false →
               ∃ t', cell cur1 (tile_y n) (tile_x n) = Some t' ∧
                     isRevealed t' = true)) as (cur1 & Hstep & Htw1 & Hm1 & Hrev1).
    { unfold chordStep, treadsOnMine. simpl.
      destruct (revealedOnly_facts _ _ Hro) as (Hmn & _ & Hfn & _ & _ & Hrn).
      destruct (isFlagged n) eqn:Hfl; simpl.
      { exists cur. rewrite orb_false_r. split; [done|].
        split; [apply tilewise_refl, revealedOnly_refl|]. by split. }
      destruct (isRevealed n) eqn:Hrev; simpl.
      { exists cur. rewrite orb_false_r. split; [done|].
        split; [apply tilewise_refl, revealedOnly_refl|]. split; [done|].
        intros _. exists n'. split; [done|]. by apply Hrn. }
      destruct (isMine n) eqn:Hm.
      - destruct (put2_Some cur _ _ (setRevealed n true) n' Hn') as [cur1 Hput].
        rewrite Hput. simpl. exists cur1. rewrite orb_true_r.
        split; [done|]. split; [|split].
        + eapply put2_tilewise; [apply revealedOnly_refl|done| |done].
          destruct Hro as [->|[_ ->]]; [|by left].
          right. split; [|done]. unfold blocked. by rewrite Hrev, Hfl.
        + done.
        + intros _. eexists.
          rewrite (put2_cell _ _ _ _ _ _ _ Hput), decide_True by done. done.
      - destruct (revealFloodFill_tilewise _ _ cur (tile_x n) (tile_y n) Hgc Hr)
          as (cur1 & Hf & Htw1). rewrite Hf. simpl.
        exists cur1. rewrite orb_false_r. split; [done|]. split; [done|]. split.
        + intros _. eapply (flood_keeps_mines _ _ cur); try done.
          * by eapply revealedOnly_adjacencyOk.
          * intros t0 Ht0. assert (t0 = n') as -> by congruence. congruence.
        + intros _.
          eapply (flood_reveals_start _ _ cur); done || congruence. }
    destruct (IH cur1 (hit || treadsOnMine n))
      as (cur' & hit' & Hfold & Htw' & Hhit' & Hm' & Hrev').
    { intros m Hm. apply Hcells. by apply list_elem_of_further. }
    { eapply tilewise_trans; [apply revealedOnly_trans|done..]. }
    exists cur', hit'. simpl. rewrite Hstep. simpl. split; [done|]. split_and!.
    + eapply tilewise_trans; [apply revealedOnly_trans|done..].
    + rewrite Hhit'. simpl. by rewrite orb_assoc.
    + intros Hf y x t Ht Hmine. rewrite Hf in Hhit'. symmetry in Hhit'.
      apply orb_false_iff in Hhit' as [Hh _].
      apply orb_false_iff in Hh as [_ Htr].
      apply Hm'; [done| |done]. by apply Hm1.
    + intros m [->|Hm]%elem_of_cons Hfl; [|by apply Hrev'].
      destruct (Hrev1 Hfl) as (t1 & Ht1 & Hr1).
      destruct (tilewise_cell_l _ _ _ _ _ _ Htw' Ht1) as (t2 & Ht2 & Hro2).
      exists t2. split; [done|].
      destruct (revealedOnly_facts _ _ Hro2) as (_ & _ & _ & _ & _ & Hk).
      by apply Hk.
Qed.

(** The two ways a [chord] can run on a snapshot of a game. *)
Lemma chord_cases s x y :
  gameInv s →
  (chord s x y = Some s ∧ ¬ chordable s x y) ∨
  (chordable s x y ∧
   ∃ cur hit,
     foldM chordStep (board s, false) (neighborTiles (board s) x y)
       = Some (cur, hit) ∧
     chord s x y =
       Some (if hit
             then withStatus (withBoard s (revealAllMines cur)) Lost
             else settle (withBoard s cur))).
Proof.
  intros Hinv. pose proof Hinv as (Hwf & Hr & Hc & Hok & Hst).
  pose proof Hwf as [Hg Hco]. unfold chord.
  destruct (bool_decide (status s = Playing)) eqn:Hpl; simpl.
  2:{ left. split; [done|]. apply bool_decide_eq_false in Hpl.
      by intros (? & _). }
  apply bool_decide_eq_true in Hpl.
  rewrite tileAt_wf by done. simpl.
  destruct (cell (board s) y x) as [t|] eqn:Ht.
  2:{ left. split; [done|]. intros (_ & _ & t & Ht' & _). congruence. }
  assert (∀ P : Prop, (¬ P) →
    (∀ t', cell (board s) y x = Some t' → isRevealed t' = true → isMine t' = false →
           0 < adjacentMines t' →
           countIf isFlagged (neighborTiles (board s) x y) = adjacentMines t' →
           P) → ¬ chordable s x y) as Hnot.
  { intros P HnP HP (_ & _ & t' & ? & ? & ? & ? & ?). apply HnP. eauto. }
  destruct (Hco _ _ _ Ht) as [Hx Hy].
  destruct (isRevealed t) eqn:Hrev; simpl.
  2:{ left. split; [done|]. apply (Hnot False); [tauto|].
      intros t' Ht'. assert (t' = t) as -> by congruence. congruence. }
  destruct (isMine t) eqn:Hm; simpl.
  { left. split; [done|]. apply (Hnot False); [tauto|].
    intros t' Ht'. assert (t' = t) as -> by congruence. congruence. }
  destruct (bool_decide (adjacentMines t = 0)) eqn:Hadj.
  { left. split; [done|]. apply bool_decide_eq_true in Hadj.
    apply (Hnot False); [tauto|].
    intros t' Ht'. assert (t' = t) as -> by congruence. lia. }
  apply bool_decide_eq_false in Hadj.
  rewrite Hx, Hy, (neighbors_grid (rows s) (cols s)) by done. simpl.
  destruct (bool_decide (countIf isFlagged (neighborTiles (board s) x y)
                         = adjacentMines t)) eqn:Hflags; simpl.
  2:{ left. split; [done|]. apply bool_decide_eq_false in Hflags.
      apply (Hnot False); [tauto|].
      intros t' Ht'. assert (t' = t) as -> by congruence. congruence. }
  apply bool_decide_eq_true in Hflags. right. split.
  { split; [done|]. split; [by eapply cell_bounds|]. exists t.
    split_and!; try done.
    pose proof (countIf_nonneg isFlagged (neighborTiles (board s) x y)). lia. }
  destruct (chord_fold s (neighborTiles (board s) x y) (board s) false)
    as (cur & hit & Hfold & _); try done.
  { intros n Hn. by eapply neighborTiles_cell. }
  { apply tilewise_refl, revealedOnly_refl. }
  exists cur, hit. split; [done|]. rewrite Hfold. simpl. by destruct hit.
Qed.

(** ** The scan of [useHint] *)

Lemma scanHint_app b l1 l2 :
  scanHint b (l1 ++ l2) =
  match scanHint b l1 with
  | Some None => scanHint b l2
  | r => r
  end.
Proof.
  induction l1 as [|[y x] l1 IH]; [done|]. simpl.
  destruct (at2 b y x) as [[t|]|]; simpl; try done.
  by destruct (_ && _).
Qed.

(** The scan of the columns [x0 .. x0 + n - 1] of row [y]. *)
Lemma scanHint_row r c b y x0 (n : nat) :
  grid r c b → 0 ≤ y < r → 0 ≤ x0 → x0 + Z.of_nat n ≤ c →
  (scanHint b ((λ x, (y, x)) <$> seqZ x0 (Z.of_nat n)) = Some None ∧
   ∀ x t, x0 ≤ x < x0 + Z.of_nat n → cell b y x = Some t →
          hintable t = false) ∨
  ∃ x t, x0 ≤ x < x0 + Z.of_nat n ∧
    scanHint b ((λ x, (y, x)) <$> seqZ x0 (Z.of_nat n)) = Some (Some (x, y)) ∧
    cell b y x = Some t ∧ hintable t = true ∧
    ∀ x' t', x0 ≤ x' < x → cell b y x' = Some t' → hintable t' = false.
Proof.
  intros Hg Hy. revert x0. induction n as [|n IH]; intros x0 Hx0 Hn.
  - left. split; [done|]. intros x t Hx. lia.
  - rewrite seqZ_cons by lia. simpl.
    destruct (cell_is_Some r c b y x0 Hg) as [t0 Ht0]; [lia..|].
    rewrite (at2_cell r c) by done. simpl. rewrite Ht0. simpl.
    fold (hintable t0). destruct (hintable t0) eqn:Hh.
    + right. exists x0, t0. split; [lia|]. split; [done|]. split; [done|].
      split; [done|]. intros x' t' Hx'. lia.
    + replace (Z.pred (Z.of_nat (S n))) with (Z.of_nat n) by lia.
      destruct (IH (Z.succ x0)) as [[Hscan Hall]|(x & t & Hx & Hscan & Ht & Hp & Hall)];
        [lia..| |].
      * left. split; [done|]. intros x t Hx Ht.
        destruct (decide (x = x0)) as [->|Hne]; [congruence|].
        apply (Hall x); [lia|done].
      * right. exists x, t. split; [lia|]. split; [done|]. split; [done|].
        split; [done|]. intros x' t' Hx' Ht'.
        destruct (decide (x' = x0)) as [->|Hne]; [congruence|].
        apply (Hall x'); [lia|done].
Qed.

(** The scan of the rows [y0 .. y0 + n - 1]. *)
Lemma scanHint_rows r c b y0 (n : nat) :
  grid r c b → 0 ≤ y0 → y0 + Z.of_nat n ≤ r → 0 ≤ c →
  (scanHint b (y ← seqZ y0 (Z.of_nat n); x ← seqZ 0 c; [(y, x)]) = Some None ∧
   ∀ y x t, y0 ≤ y < y0 + Z.of_nat n → cell b y x = Some t →
            hintable t = false) ∨
  ∃ x y t, y0 ≤ y < y0 + Z.of_nat n ∧
    scanHint b (y ← seqZ y0 (Z.of_nat n); x ← seqZ 0 c; [(y, x)])
      = Some (Some (x, y)) ∧
    cell b y x = Some t ∧ hintable t = true ∧
    ∀ y' x' t', y0 ≤ y' → scannedBefore y' x' y x →
                cell b y' x' = Some t' → hintable t' = false.
Proof.
  intros Hg. revert y0. induction n as [|n IH]; intros y0 Hy0 Hn Hc.
  - left. split; [done|]. intros y x t Hy. lia.
  - rewrite (seqZ_cons y0) by lia.
    replace (Z.pred (Z.of_nat (S n))) with (Z.of_nat n) by lia.
    change ((y0 :: seqZ (Z.succ y0) (Z.of_nat n)) ≫= _)
      with ((x ← seqZ 0 c; [(y0, x)]) ++
            (y ← seqZ (Z.succ y0) (Z.of_nat n); x ← seqZ 0 c; [(y, x)])).
    rewrite scanHint_app.
    assert ((x ← seqZ 0 c; [(y0, x)]) =
            (λ x, (y0, x)) <$> seqZ 0 (Z.of_nat (Z.to_nat c))) as ->.
    { rewrite Z2Nat.id by lia. generalize (seqZ 0 c). intros l.
      induction l as [|a l IHl]; [done|]. simpl. by f_equal. }
    destruct (scanHint_row r c b y0 0 (Z.to_nat c) Hg)
      as [[-> Hall]|(x & t & Hx & -> & Ht & Hp & Hall)]; [lia..| |].
    + destruct (IH (Z.succ y0))
        as [[Hscan Hall2]|(x & y & t & Hy & Hscan & Ht & Hp & Hall2)];
        [lia..| |].
      * left. split; [done|]. intros y x t Hy Ht.
        destruct (decide (y = y0)) as [->|Hne].
        -- apply (Hall x); [|done]. apply (cell_bounds r c) in Ht; [lia|done].
        -- apply (Hall2 y x); [lia|done].
      * right. exists x, y, t. split; [lia|]. split; [done|]. split; [done|].
        split; [done|]. intros y' x' t' Hy' Hbefore Ht'.
        destruct (decide (y' = y0)) as [->|Hne].
        -- apply (Hall x'); [|done]. apply (cell_bounds r c) in Ht'; [lia|done].
        -- apply (Hall2 y' x'); [lia|done..].
    + right. exists x, y0, t. split; [lia|]. split; [done|]. split; [done|].
      split; [done|]. intros y' x' t' Hy' [Hlt|[-> Hlt]] Ht'; [lia|].
      apply (Hall x'); [|done]. apply (cell_bounds r c) in Ht'; [lia|done].
Qed.

Lemma scanHint_first s :
  wf s → 0 < rows s → 0 < cols s →
  (scanHint (board s) (y ← seqZ 0 (rows s); x ← seqZ 0 (cols s); [(y, x)])
     = Some None ∧
   ∀ y x t, cell (board s) y x = Some t → hintable t = false) ∨
  ∃ x y t,
    scanHint (board s) (y ← seqZ 0 (rows s); x ← seqZ 0 (cols s); [(y, x)])
      = Some (Some (x, y)) ∧
    cell (board s) y x = Some t ∧ hintable t = true ∧
    ∀ y' x' t', scannedBefore y' x' y x →
                cell (board s) y' x' = Some t' → hintable t' = false.
Proof.
  intros [Hg _] Hr Hc.
  destruct (scanHint_rows (rows s) (cols s) (board s) 0 (Z.to_nat (rows s)) Hg)
    as [[Hscan Hall]|(x & y & t & Hy & Hscan & Ht & Hp & Hall)]; [lia..| |];
    rewrite Z2Nat.id in * by lia.
  - left. split; [done|]. intros y x t Ht. apply (Hall y x); [|done].
    apply (cell_bounds _ _ _ _ _ _ Hg) in Ht. lia.
  - right. exists x, y, t. split; [done|]. split; [done|]. split; [done|].
    intros y' x' t' Hb Ht'. apply (Hall y' x'); [|done..].
    apply (cell_bounds _ _ _ _ _ _ Hg) in Ht'. lia.
Qed.

(** ** What a command does to a snapshot *)

Lemma toggleFlag_cases s x y :
  wf s →
  toggleFlag s x y = Some s ∨
  ∃ s', toggleFlag s x y = Some s' ∧ flagOutcome s x y s'.
Proof.
  intros Hwf. pose proof Hwf as [Hg Hco]. unfold toggleFlag, flagOutcome.
  destruct (finished s) eqn:Hfin; [by left|].
  rewrite tileAt_wf by done. simpl.
  destruct (cell (board s) y x) as [t|] eqn:Ht; [|by left].
  destruct (isRevealed t) eqn:Hrev; [by left|].
  destruct (Hco _ _ _ Ht) as [-> ->].
  destruct (put2_Some (board s) y x (setFlagged t (negb (isFlagged t))) t Ht)
    as [b' Hb'].
  rewrite Hb'. simpl. right. eexists. split; [done|]. split; [done|].
  exists t, b'. split; [done|]. split; [done|]. split; [done|].
  by destruct (isFlagged t).
Qed.

Lemma reveal_outcome rnd now s x y :
  gameInv s →
  reveal rnd now s x y = Some s ∨
  ∃ s', reveal rnd now s x y = Some s' ∧ revealOutcome rnd now s x y s'.
Proof.
  intros Hinv.
  destruct (reveal_cases rnd now s x y Hinv)
    as [[H _]|(t & Ht & Hfin & Hrev & Hfl & H)]; [by left|right].
  unfold revealOutcome, lost.
  destruct H as [(Hst & b1 & b2 & Hb1 & Hb2 & ->)|
                 [(Hst & Hm & ->)|(Hst & Hm & b2 & Hb2 & ->)] ];
    (eexists; split; [done|]); exists t; split_and!; try done.
  - left. split; [done|]. by exists b1, b2.
  - right. left. done.
  - right. right. split; [done|]. split; [done|]. by exists b2.
Qed.

(** A [reveal] on a hidden tile without flag of a game that still runs
    goes on past its guards. *)
Lemma reveal_runs rnd now s x y t :
  gameInv s → finished s = false → cell (board s) y x = Some t →
  isRevealed t = false → isFlagged t = false →
  ∃ s', reveal rnd now s x y = Some s' ∧ revealOutcome rnd now s x y s'.
Proof.
  intros Hinv Hfin Ht Hrev Hfl.
  destruct (reveal_cases rnd now s x y Hinv)
    as [[_ [H|[H|(t' & Ht' & [H|H])] ] ]|(t' & Ht' & _ & _ & _ & H)];
    try congruence.
  assert (t' = t) as -> by congruence.
  unfold revealOutcome, lost.
  destruct H as [(Hst & b1 & b2 & Hb1 & Hb2 & ->)|
                 [(Hst & Hm & ->)|(Hst & Hm & b2 & Hb2 & ->)] ];
    (eexists; split; [done|]); exists t; split_and!; try done.
  - left. split; [done|]. by exists b1, b2.
  - right. left. done.
  - right. right. split; [done|]. split; [done|]. by exists b2.
Qed.

Lemma chord_outcome s x y :
  gameInv s →
  (chord s x y = Some s ∧ ¬ chordable s x y) ∨
  ∃ s', chord s x y = Some s' ∧ chordOutcome s x y s'.
Proof.
  intros Hinv.
  destruct (chord_cases s x y Hinv) as [H|(Hch & cur & hit & Hfold & ->)];
    [by left|right].
  eexists. split; [done|]. split; [done|]. exists cur, hit. split; [done|].
  by destruct hit.
Qed.

Lemma useHint_outcome rnd now s :
  gameInv s →
  (useHint rnd now s = Some s ∧
   (hintsLeft s ≤ 0 ∨ finished s = true ∨
    ∀ y x t, cell (board s) y x = Some t → hintable t = false)) ∨
  ∃ s', useHint rnd now s = Some s' ∧ hintOutcome rnd now s s'.
Proof.
  intros Hinv. pose proof Hinv as (Hwf & Hr & Hc & _).
  unfold useHint.
  destruct (bool_decide (hintsLeft s ≤ 0)) eqn:Hh.
  { apply bool_decide_eq_true in Hh. left. by auto. }
  apply bool_decide_eq_false in Hh. simpl.
  destruct (finished s) eqn:Hfin; [left; by auto|].
  destruct (scanHint_first s Hwf Hr Hc)
    as [[-> Hnone]|(x & y & t & -> & Ht & Hp & Hfirst)]; [left; by auto|].
  simpl.
  destruct (reveal_cases rnd now s x y Hinv)
    as [[_ [H|[H|(t' & Ht' & H)] ] ]|(t' & Ht' & Hout)]; try congruence.
  { assert (t' = t) as -> by congruence. unfold hintable in Hp.
    destruct (isMine t), (isRevealed t), (isFlagged t), H; done. }
  assert (t' = t) as -> by congruence. destruct Hout as (_ & Hrev & Hfl & _).
  destruct (reveal_runs rnd now s x y t Hinv Hfin Ht Hrev Hfl)
    as (s1 & -> & Hout).
  right. simpl. eexists. split; [done|]. split; [lia|].
  exists x, y, t, s1. done.
Qed.

Lemma tick_outcome now s :
  tick now s = Some s ∨ ∃ s', tick now s = Some s' ∧ tickOutcome now s s'.
Proof.
  unfold tick, tickOutcome. destruct (startedAt s) as [t0|] eqn:Hs; [|by left].
  destruct (bool_decide (status s = Playing)) eqn:Hp; [|by left].
  destruct (bool_decide (t0 = 0)) eqn:Hz; [by left|]. simpl.
  apply bool_decide_eq_true in Hp. apply bool_decide_eq_false in Hz.
  right. eexists. split; [done|]. split; [done|]. by exists t0.
Qed.

(** A command other than [newGame]/[restart] leaves the snapshot as it is
    or commits one of the runs of [moved]. *)
Lemma step_moved e c s :
  gameInv s → isReset c = false →
  step e c s = s ∨ moved e s (step e c s).
Proof.
  intros Hinv Hc. unfold step, moved. destruct c; try done; simpl.
  - destruct (toggleFlag_cases s x y) as [->|(s' & -> & H)];
      [apply Hinv|by left|right]. left. by exists x, y.
  - destruct (reveal_outcome (env_rnd e) (env_now e) s x y Hinv)
      as [->|(s' & -> & H)]; [by left|right]. right. left. by exists x, y.
  - destruct (chord_outcome s x y Hinv) as [[-> _]|(s' & -> & H)];
      [by left|right].
    right. right. left. by exists x, y.
  - destruct (useHint_outcome (env_rnd e) (env_now e) s Hinv)
      as [[-> _]|(s' & -> & H)]; [by left|right]. right. right. right. by left.
  - destruct (tick_outcome (env_now e) s) as [->|(s' & -> & H)]; [by left|right].
    right. right. right. by right.
Qed.

(** ** The snapshots the runs commit *)

Lemma opened_unflipped t t' : opened t t' → unflipped t t'.
Proof. intros (? & _ & _ & ? & ?). by split. Qed.

Lemma settle_board s : board (settle s) = board s.
Proof. unfold settle. by destruct (decide _). Qed.

Lemma settle_status s : status (settle s) = status s ∨ status (settle s) = Won.
Proof. unfold settle. destruct (decide _); by auto. Qed.

Lemma settle_fields s :
  flagsPlaced (settle s) = flagsPlaced s ∧ minesLeft (settle s) = minesLeft s ∧
  hintsLeft (settle s) = hintsLeft s ∧ elapsedMs (settle s) = elapsedMs s ∧
  startedAt (settle s) = startedAt s ∧ firstClick (settle s) = firstClick s.
Proof. unfold settle. by destruct (decide _). Qed.

Lemma minesShown_revealAllMines b : minesShown (revealAllMines b).
Proof.
  intros y x u Hu Hm.
  destruct (tilewise_cell_r _ _ _ _ _ _ (revealAllMines_tilewise b) Hu)
    as (t & Ht & Hrel).
  rewrite (revealAllMines_cell _ _ _ _ Ht) in Hu. injection Hu as <-.
  destruct (minesRevealed_facts _ _ Hrel) as (Hmt & _).
  destruct (isMine t) eqn:E; [done|]. congruence.
Qed.

(** Mines that a relation leaves as they are stay hidden. *)
Lemma minesHidden_kept b b' :
  tilewise revealedOnly b b' →
  (∀ y x t, cell b y x = Some t → isMine t = true → cell b' y x = Some t) →
  minesHidden b → minesHidden b'.
Proof.
  intros Htw Hkeep Hh y x u Hu Hm.
  destruct (tilewise_cell_r _ _ _ _ _ _ Htw Hu) as (t & Ht & Hrel).
  destruct (revealedOnly_facts _ _ Hrel) as (Hmt & _).
  assert (u = t) as ->.
  { rewrite (Hkeep _ _ _ Ht) in Hu by congruence. congruence. }
  by eapply Hh.
Qed.

(** The board after the mines are placed for a first click on [(x, y)]. *)
Lemma placeMines_board rnd s x y b1 :
  gameInv s → status s = Ready →
  placeMinesAfterFirstClick rnd s x y = Some (withBoard s b1) →
  board_ok (rows s) (cols s) b1 ∧ tilewise sameButMines (board s) b1 ∧
  adjacencyOk b1 ∧ minesHidden b1 ∧
  (∀ t1, cell b1 y x = Some t1 → isMine t1 = false) ∧
  ∀ y' x' t', cell b1 y' x' = Some t' →
    isMine t' = bool_decide (y' * cols s + x' ∈ minePositions rnd s x y).
Proof.
  intros (Hwf & Hr & Hc & _ & Hst) Est Hb1. rewrite Est in Hst.
  destruct Hst as [_ Hcells].
  destruct (placeMines_spec rnd s x y Hwf Hr Hc)
    as (b1' & Hb1' & Hbo & Htw & Hok & Hm).
  assert (b1' = b1) as ->.
  { rewrite Hb1 in Hb1'. by injection Hb1'. }
  assert (∀ y' x' t', cell b1 y' x' = Some t' →
    isMine t' = bool_decide (y' * cols s + x' ∈ minePositions rnd s x y))
    as Hmines.
  { intros y' x' t' Ht'.
    destruct (tilewise_cell_r _ _ _ _ _ _ Htw Ht') as (t0 & Ht0 & _).
    destruct (Hm _ _ _ Ht0) as (t'' & Ht'' & Hmt).
    assert (t'' = t') as -> by congruence. rewrite Hmt.
    destruct (Hcells _ _ _ Ht0) as [-> _]. done. }
  split_and!; try done.
  - intros y' x' t' Ht' _.
    destruct (tilewise_cell_r _ _ _ _ _ _ Htw Ht') as (t0 & Ht0 & _ & -> & _).
    by destruct (Hcells _ _ _ Ht0).
  - intros t1 Ht1. rewrite (Hmines _ _ _ Ht1). apply bool_decide_eq_false.
    destruct Hbo as [Hg1 _].
    destruct (cell_bounds _ _ _ _ _ _ Hg1 Ht1) as [Hy Hx].
    pose proof (minePositions_safe rnd s x y (0, 0)) as Hsafe. simpl in Hsafe.
    rewrite !Z.add_0_r in Hsafe. apply Hsafe; [|done..].
    apply elem_of_offsets9. simpl. lia.
Qed.

Lemma revealOutcome_facts rnd now s x y s' :
  gameInv s → revealOutcome rnd now s x y s' →
  sameConfig s s' ∧ flagsPlaced s' = flagsPlaced s ∧
  minesLeft s' = minesLeft s ∧ hintsLeft s' = hintsLeft s ∧
  elapsedMs s' = elapsedMs s ∧ firstClick s' = false ∧ status s' ≠ Ready ∧
  startedAt s' = (if decide (status s = Ready) then Some now else startedAt s) ∧
  tilewise unflipped (board s) (board s') ∧
  (status s ≠ Ready → tilewise opened (board s) (board s')) ∧
  (∃ t', cell (board s') y x = Some t' ∧ isRevealed t' = true) ∧
  (status s' ≠ Lost → minesHidden (board s) → minesHidden (board s')) ∧
  (status s' = Lost →
   minesShown (board s') ∧ status s = Playing ∧
   ∃ t, cell (board s) y x = Some t ∧ isMine t = true).
Proof.
  intros Hinv (t & Ht & Hfin & Hrev & Hfl & Hcase).
  pose proof Hinv as (Hwf & Hr & Hc & Hok & Hst). pose proof Hwf as [Hg Hco].
  destruct Hcase as [(Est & b1 & b2 & Hb1 & Hb2 & ->)|
                     [(Est & Hm & ->)|(Est & Hm & b2 & Hb2 & ->)] ].
  - destruct (placeMines_board rnd s x y b1 Hinv Est Hb1)
      as ([Hg1 Hco1] & Htw1 & Hok1 & Hh1 & Hsafe & _).
    destruct (revealFloodFill_tilewise _ _ b1 x y Hg1 Hr) as (b2' & Hb2' & Htw2).
    assert (b2' = b2) as -> by congruence.
    destruct (settle_fields (withBoard (started s b1 now) b2))
      as (-> & -> & -> & -> & -> & ->).
    rewrite settle_board. simpl. rewrite decide_True by done.
    split_and!; try done.
    + unfold settle. by destruct (decide _).
    + destruct (settle_status (withBoard (started s b1 now) b2)) as [->| ->];
        done.
    + eapply tilewise_compose; [|exact Htw1|exact Htw2].
      intros u v w ([Hx1 Hy1] & Hr1 & Hf1) Hvw.
      destruct (revealedOnly_opened _ _ Hvw)
        as ([Hx2 Hy2] & _ & _ & Hf2 & Hmono).
      split; [split; congruence|]. split; [congruence|].
      intros Hu. apply Hmono. congruence.
    + destruct (tilewise_cell_l _ _ _ _ _ _ Htw1 Ht) as (t1 & Ht1 & _ & _ & Hf1).
      eapply (flood_reveals_start _ _ b1); [done..|congruence|done].
    + intros _ _. eapply minesHidden_kept; [done| |done].
      by eapply flood_keeps_mines.
    + intros Hl.
      destruct (settle_status (withBoard (started s b1 now) b2)) as [E|E];
        rewrite E in Hl; done.
  - unfold lost. simpl. rewrite decide_False by congruence.
    rewrite Est in Hst. destruct Hst as [Hfc _].
    split_and!; try done.
    + eapply tilewise_weaken; [|apply revealAllMines_tilewise].
      intros u v Huv. by apply opened_unflipped, minesRevealed_opened.
    + intros _. eapply tilewise_weaken; [|apply revealAllMines_tilewise].
      apply minesRevealed_opened.
    + rewrite (revealAllMines_cell _ _ _ _ Ht), Hm. by eexists.
    + intros _. split; [apply minesShown_revealAllMines|]. split; [done|].
      by exists t.
  - destruct (revealFloodFill_tilewise _ _ (board s) x y Hg Hr)
      as (b2' & Hb2' & Htw2).
    assert (b2' = b2) as -> by congruence.
    destruct (settle_fields (withBoard s b2)) as (-> & -> & -> & -> & -> & ->).
    rewrite settle_board. simpl. rewrite decide_False by congruence.
    rewrite Est in Hst. destruct Hst as (Hfc & _).
    split_and!; try done.
    + unfold settle. by destruct (decide _).
    + destruct (settle_status (withBoard s b2)) as [E|E]; rewrite E; simpl;
        congruence.
    + eapply tilewise_weaken; [|exact Htw2].
      intros u v Huv. by apply opened_unflipped, revealedOnly_opened.
    + intros _. eapply tilewise_weaken; [|exact Htw2].
      apply revealedOnly_opened.
    + by eapply (flood_reveals_start _ _ (board s)).
    + intros _ Hh. eapply minesHidden_kept; [done| |done].
      eapply flood_keeps_mines; try done.
      intros t0 Ht0. congruence.
    + intros Hl. destruct (settle_status (withBoard s b2)) as [E|E];
        rewrite E in Hl; simpl in Hl; congruence.
Qed.

Lemma existsb_elem_of {A} (p : A → bool) (l : list A) :
  existsb p l = true ↔ ∃ a, a ∈ l ∧ p a = true.
Proof.
  rewrite existsb_exists. split; intros (a & Ha & Hp); exists a;
    (split; [|done]); by apply list_elem_of_In.
Qed.

Lemma chordOutcome_facts s x y s' :
  gameInv s → chordOutcome s x y s' →
  status s = Playing ∧
  sameConfig s s' ∧ flagsPlaced s' = flagsPlaced s ∧
  minesLeft s' = minesLeft s ∧ hintsLeft s' = hintsLeft s ∧
  elapsedMs s' = elapsedMs s ∧ firstClick s' = false ∧ status s' ≠ Ready ∧
  startedAt s' = startedAt s ∧
  tilewise opened (board s) (board s') ∧
  (∀ n, n ∈ neighborTiles (board s) x y → isFlagged n = false →
     ∃ t', cell (board s') (tile_y n) (tile_x n) = Some t' ∧
           isRevealed t' = true) ∧
  (status s' = Lost ↔
   ∃ n, n ∈ neighborTiles (board s) x y ∧ treadsOnMine n = true) ∧
  (status s' ≠ Lost → minesHidden (board s) → minesHidden (board s')) ∧
  (status s' = Lost → minesShown (board s')).
Proof.
  intros Hinv ((Est & _) & cur & hit & Hfold & ->).
  pose proof Hinv as (Hwf & Hr & Hc & Hok & Hst). rewrite Est in Hst.
  destruct Hst as (Hfc & _).
  destruct (chord_fold s (neighborTiles (board s) x y) (board s) false)
    as (cur' & hit' & Hfold' & Htw & Hhit & Hkeep & Hrev); try done.
  { intros n Hn. by eapply neighborTiles_cell. }
  { apply tilewise_refl, revealedOnly_refl. }
  rewrite Hfold in Hfold'. injection Hfold' as <- <-. simpl in Hhit.
  split; [done|]. destruct hit.
  - unfold lost. simpl. split_and!; try done.
    + eapply tilewise_compose; [|exact Htw|apply revealAllMines_tilewise].
      intros u v w Huv Hvw. eapply opened_trans;
        [by apply revealedOnly_opened|by apply minesRevealed_opened].
    + intros n Hn Hfl. destruct (Hrev n Hn Hfl) as (t1 & Ht1 & Hr1).
      rewrite (revealAllMines_cell _ _ _ _ Ht1).
      eexists. split; [done|]. by destruct (isMine t1).
    + split; [intros _|done]. by apply existsb_elem_of.
    + intros _. apply minesShown_revealAllMines.
  - destruct (settle_fields (withBoard s cur)) as (-> & -> & -> & -> & -> & ->).
    rewrite settle_board. simpl.
    assert (status (settle (withBoard s cur)) ≠ Lost) as Hnl.
    { destruct (settle_status (withBoard s cur)) as [E|E]; rewrite E; simpl;
        congruence. }
    split_and!; try done.
    + unfold settle. by destruct (decide _).
    + destruct (settle_status (withBoard s cur)) as [E|E]; rewrite E; simpl;
        congruence.
    + eapply tilewise_weaken; [|exact Htw]. apply revealedOnly_opened.
    + split; [done|]. intros Hex. apply existsb_elem_of in Hex. congruence.
    + intros _ Hh. eapply minesHidden_kept; [done| |done]. by apply Hkeep.
Qed.

(** ** Counting tiles *)

Lemma countIf_Forall2 (p : Tile → bool) (R : Tile → Tile → Prop) l l' :
  (∀ t t', R t t' → p t' = p t) → Forall2 R l l' → countIf p l' = countIf p l.
Proof.
  intros HR H. induction H as [|t t' l l' Ht _ IH]; [done|].
  rewrite !countIf_cons, IH, (HR _ _ Ht). done.
Qed.

Lemma countTiles_cons p (row : list Tile) b :
  countTiles p (row :: b) = countIf p row + countTiles p b.
Proof. unfold countTiles. simpl. apply countIf_app. Qed.

Lemma countTiles_app p (b1 b2 : Board) :
  countTiles p (b1 ++ b2) = countTiles p b1 + countTiles p b2.
Proof.
  induction b1 as [|row b1 IH]; [done|]. simpl.
  rewrite !countTiles_cons, IH. lia.
Qed.

(** A relation that keeps [p] on every tile keeps the count. *)
Lemma tilewise_countTiles p (R : Tile → Tile → Prop) b b' :
  (∀ t t', R t t' → p t' = p t) → tilewise R b b' →
  countTiles p b' = countTiles p b.
Proof.
  intros HR H. induction H as [|row row' b b' Hrow _ IH]; [done|].
  rewrite !countTiles_cons, IH, (countIf_Forall2 p R _ _ HR Hrow). done.
Qed.

Lemma countIf_insert (p : Tile → bool) (l : list Tile) (i : nat) t0 t :
  l !! i = Some t0 →
  countIf p (<[i := t]> l) =
  countIf p l - (if p t0 then 1 else 0) + (if p t then 1 else 0).
Proof.
  intros Hi. pose proof (lookup_lt_Some _ _ _ Hi) as Hlt.
  rewrite insert_take_drop by done.
  rewrite <- (take_drop_middle l i t0 Hi) at 3.
  rewrite !countIf_app, !countIf_cons. lia.
Qed.

(** One write changes the count by the tile written. *)
Lemma countTiles_put2 p b y x t0 t b' :
  cell b y x = Some t0 → put2 b y x t = Some b' →
  countTiles p b' =
  countTiles p b - (if p t0 then 1 else 0) + (if p t then 1 else 0).
Proof.
  intros Hc Hput. apply cell_Some_inv in Hc as (row & Hrow & Ht0).
  unfold put2 in Hput. rewrite Hrow in Hput. simpl in Hput.
  destruct (decide _) as [Hx|]; [|done]. injection Hput as <-.
  pose proof (ix_Some _ _ _ Hrow) as Hy.
  rewrite ix_lookup in Hrow by lia. rewrite ix_lookup in Ht0 by lia.
  pose proof (lookup_lt_Some _ _ _ Hrow) as Hlt.
  rewrite insert_take_drop by done.
  rewrite <- (take_drop_middle b _ row Hrow) at 3.
  rewrite !countTiles_app, !countTiles_cons.
  rewrite (countIf_insert p row _ t0 t Ht0). lia.
Qed.

Lemma flagOutcome_facts s x y s' :
  wf s → flagOutcome s x y s' →
  finished s = false ∧
  sameConfig s s' ∧ status s' = status s ∧ firstClick s' = firstClick s ∧
  hintsLeft s' = hintsLeft s ∧ startedAt s' = startedAt s ∧
  elapsedMs s' = elapsedMs s ∧
  tilewise flagToggled (board s) (board s') ∧
  (∃ t, cell (board s) y x = Some t ∧ isRevealed t = false ∧
        cell (board s') y x = Some (setFlagged t (negb (isFlagged t))) ∧
        flagsPlaced s' = flagsPlaced s + (if isFlagged t then -1 else 1)) ∧
  (∀ y' x', ¬ (y' = y ∧ x' = x) →
            cell (board s') y' x' = cell (board s) y' x') ∧
  countTiles isFlagged (board s') - flagsPlaced s'
    = countTiles isFlagged (board s) - flagsPlaced s ∧
  minesLeft s' = Z.max 0 (mines s' - flagsPlaced s').
Proof.
  intros Hwf (Hfin & t & b' & Ht & Hrev & Hput & ->). simpl.
  split_and!; try done.
  - eapply put2_tilewise; [by left|done| |done]. by right.
  - exists t. split_and!; try done.
    rewrite (put2_cell _ _ _ _ _ _ _ Hput). by rewrite decide_True.
  - intros y' x' Hne. rewrite (put2_cell _ _ _ _ _ _ _ Hput).
    by rewrite decide_False.
  - rewrite (countTiles_put2 isFlagged _ _ _ _ _ _ Ht Hput). simpl.
    destruct (isFlagged t); simpl; lia.
Qed.

(** ** Induction over the games *)

Lemma moved_config e s s' : gameInv s → moved e s s' → sameConfig s s'.
Proof.
  intros Hinv [(x & y & H)|[(x & y & H)|[(x & y & H)|[H|H] ] ] ].
  - by destruct (flagOutcome_facts s x y s' (proj1 Hinv) H) as (_ & ? & _).
  - by destruct (revealOutcome_facts _ _ s x y s' Hinv H) as (? & _).
  - by destruct (chordOutcome_facts s x y s' Hinv H) as (_ & ? & _).
  - destruct H as (_ & x & y & t & s1 & _ & _ & _ & H & ->).
    by destruct (revealOutcome_facts _ _ s x y s1 Hinv H) as (? & _).
  - destruct H as (_ & t0 & _ & _ & ->). by repeat split.
Qed.

Lemma reachable_config s :
  reachable s → valid_config (rows s) (cols s) (mines s).
Proof.
  induction 1 as [e r c m d s0 Hv|e cmd s Hre IH Hal]; [done|].
  destruct (isReset cmd) eqn:Hreset.
  - destruct cmd as [r c m d|p| | | | | |]; try done.
    destruct p; unfold valid_config; simpl; lia.
  - destruct (step_moved e cmd s (reachable_inv _ Hre) Hreset) as [->|Hm];
      [done|].
    destruct (moved_config e s _ (reachable_inv _ Hre) Hm) as (-> & -> & -> & _).
    done.
Qed.

(** A property of the fresh snapshots that every committed run keeps holds
    in every game. *)
Lemma reachable_moved_ind (P : GameState → Prop) :
  (∀ r c m d, valid_config r c m → P (initialState r c m d)) →
  (∀ e s s', reachable s → P s → moved e s s' → P s') →
  ∀ s, reachable s → P s.
Proof.
  intros Hinit Hmove s H.
  induction H as [e r c m d s0 Hv|e cmd s Hre IH Hal]; [by apply Hinit|].
  destruct (isReset cmd) eqn:Hreset.
  - destruct cmd as [r c m d|p| | | | | |]; try done.
    + by apply Hinit.
    + destruct p; apply Hinit; unfold valid_config; lia.
    + apply Hinit. by apply reachable_config.
  - destruct (step_moved e cmd s (reachable_inv _ Hre) Hreset) as [->|Hm];
      [done|].
    by eapply Hmove.
Qed.

Lemma cell_initialState r c m d y x t :
  cell (board (initialState r c m d)) y x = Some t →
  t = mkTile x y false false false 0.
Proof.
  simpl. rewrite cell_createMatrix. destruct (decide _); congruence.
Qed.

Lemma countTiles_zero p b :
  (∀ y x t, cell b y x = Some t → p t = false) → countTiles p b = 0.
Proof.
  intros H. apply countIf_zero. intros t [y [x Ht] ]%elem_of_board. eauto.
Qed.

(** *** The flag counters *)

Lemma counters_inv s :
  reachable s →
  flagsPlaced s = countTiles isFlagged (board s) ∧
  minesLeft s = Z.max 0 (mines s - flagsPlaced s).
Proof.
  revert s. apply reachable_moved_ind.
  - intros r c m d (_ & _ & Hm). split; [|simpl; lia].
    symmetry. apply countTiles_zero. intros y x t Ht.
    by rewrite (cell_initialState _ _ _ _ _ _ _ Ht).
  - intros e s s' Hre [IH1 IH2] Hm. pose proof (reachable_inv _ Hre) as Hinv.
    destruct Hm as [(x & y & H)|[(x & y & H)|[(x & y & H)|[H|H] ] ] ].
    + destruct (flagOutcome_facts s x y s' (proj1 Hinv) H)
        as (_ & _ & _ & _ & _ & _ & _ & _ & _ & _ & Hcnt & Hleft).
      split; [lia|done].
    + destruct (revealOutcome_facts _ _ s x y s' Hinv H)
        as ((_ & _ & -> & _) & -> & -> & _ & _ & _ & _ & _ & Htw & _).
      split; [|done]. rewrite IH1. symmetry.
      eapply tilewise_countTiles; [|exact Htw]. by intros t t' (_ & ? & _).
    + destruct (chordOutcome_facts s x y s' Hinv H)
        as (_ & (_ & _ & -> & _) & -> & -> & _ & _ & _ & _ & _ & Htw & _).
      split; [|done]. rewrite IH1. symmetry.
      eapply tilewise_countTiles; [|exact Htw]. by intros t t' (_ & _ & _ & ? & _).
    + destruct H as (_ & x & y & t & s1 & _ & _ & _ & H & ->). simpl.
      destruct (revealOutcome_facts _ _ s x y s1 Hinv H)
        as ((_ & _ & -> & _) & -> & -> & _ & _ & _ & _ & _ & Htw & _).
      split; [|done]. rewrite IH1. symmetry.
      eapply tilewise_countTiles; [|exact Htw]. by intros u u' (_ & ? & _).
    + destruct H as (_ & t0 & _ & _ & ->). done.
Qed.

(** *** The mines of a game that is not lost, and of a lost game *)

Lemma flagToggled_minesHidden b b' :
  tilewise flagToggled b b' → minesHidden b → minesHidden b'.
Proof.
  intros Htw Hh y x u Hu Hm.
  destruct (tilewise_cell_r _ _ _ _ _ _ Htw Hu) as (t & Ht & Hrel).
  destruct (flagToggled_facts _ _ Hrel) as (_ & Hmt & _ & -> & _).
  eapply Hh; [done|congruence].
Qed.

Lemma mines_inv s :
  reachable s →
  (status s ≠ Lost → minesHidden (board s)) ∧
  (status s = Lost → minesShown (board s)).
Proof.
  revert s. apply reachable_moved_ind.
  - intros r c m d _. split; [|done]. intros _ y x t Ht.
    by rewrite (cell_initialState _ _ _ _ _ _ _ Ht).
  - intros e s s' Hre [IH1 IH2] Hm. pose proof (reachable_inv _ Hre) as Hinv.
    assert (finished s = false → minesHidden (board s)) as Hh.
    { intros Hfin. apply IH1. intros E. unfold finished in Hfin.
      by rewrite E in Hfin. }
    destruct Hm as [(x & y & H)|[(x & y & H)|[(x & y & H)|[H|H] ] ] ].
    + destruct (flagOutcome_facts s x y s' (proj1 Hinv) H)
        as (Hfin & _ & -> & _ & _ & _ & _ & Htw & _).
      split.
      * intros _. eapply flagToggled_minesHidden; [done|]. by apply Hh.
      * intros E. unfold finished in Hfin. by rewrite E in Hfin.
    + pose proof H as (_ & _ & Hfin & _).
      destruct (revealOutcome_facts _ _ s x y s' Hinv H)
        as (_ & _ & _ & _ & _ & _ & _ & _ & _ & _ & _ & Hkeep & Hlost).
      split; [intros Hnl; by apply Hkeep, Hh|]. intros E. by apply Hlost.
    + destruct (chordOutcome_facts s x y s' Hinv H)
        as (Est & _ & _ & _ & _ & _ & _ & _ & _ & _ & _ & _ & Hkeep & Hlost).
      split; [|done]. intros Hnl. apply Hkeep; [done|]. apply IH1. congruence.
    + destruct H as (_ & x & y & t & s1 & _ & _ & _ & H & ->). simpl.
      pose proof H as (_ & _ & Hfin & _).
      destruct (revealOutcome_facts _ _ s x y s1 Hinv H)
        as (_ & _ & _ & _ & _ & _ & _ & _ & _ & _ & _ & Hkeep & Hlost).
      split; [intros Hnl; by apply Hkeep, Hh|]. intros E. by apply Hlost.
    + destruct H as (_ & t0 & _ & _ & ->). done.
Qed.

(** *** The clock and the hints *)

Lemma clock_inv s :
  reachable s →
  (status s = Ready →
   startedAt s = None ∧ elapsedMs s = 0 ∧ firstClick s = true) ∧
  (status s ≠ Ready → firstClick s = false ∧ ∃ t0, startedAt s = Some t0) ∧
  0 ≤ hintsLeft s ≤ 3.
Proof.
  revert s. apply reachable_moved_ind.
  - intros r c m d _. simpl. split; [done|]. split; [done|lia].
  - intros e s s' Hre (IH1 & IH2 & IH3) Hm.
    pose proof (reachable_inv _ Hre) as Hinv.
    assert (∀ now, ∃ t0, (if decide (status s = Ready) then Some now
                          else startedAt s) = Some t0) as Hstart.
    { intros now. destruct (decide _) as [|Hne]; [by eexists|].
      by destruct (IH2 Hne). }
    destruct Hm as [(x & y & H)|[(x & y & H)|[(x & y & H)|[H|H] ] ] ].
    + destruct (flagOutcome_facts s x y s' (proj1 Hinv) H)
        as (_ & _ & -> & -> & -> & -> & -> & _). done.
    + destruct (revealOutcome_facts _ _ s x y s' Hinv H)
        as (_ & _ & _ & -> & _ & -> & Hnr & -> & _).
      split; [done|]. split; [|done]. intros _. split; [done|]. apply Hstart.
    + destruct (chordOutcome_facts s x y s' Hinv H)
        as (Est & _ & _ & _ & -> & _ & -> & Hnr & -> & _).
      split; [done|]. split; [|done]. intros _. split; [done|].
      apply IH2. congruence.
    + destruct H as (Hh & x & y & t & s1 & _ & _ & _ & H & ->). simpl.
      destruct (revealOutcome_facts _ _ s x y s1 Hinv H)
        as (_ & _ & _ & -> & _ & -> & Hnr & -> & _).
      split; [done|]. split; [|lia]. intros _. split; [done|]. apply Hstart.
    + destruct H as (Est & t0 & Ht0 & _ & ->). simpl.
      split; [congruence|]. split; [|done]. intros _. split; [|by eexists].
      apply IH2. congruence.
Qed.

(** ** The shuffle and the number of mines *)

Lemma swap_perm l i j : swap l i j ≡ₚ l.
Proof.
  unfold swap. destruct (l !! i) as [a|] eqn:Hi; [|done].
  destruct (l !! j) as [b|] eqn:Hj; [|done].
  pose proof (lookup_lt_Some _ _ _ Hi) as Hli.
  pose proof (lookup_lt_Some _ _ _ Hj) as Hlj.
  apply Permutation_inj. split; [by rewrite !length_insert|].
  exists (λ k, if decide (k = j) then i else if decide (k = i) then j else k).
  split.
  - intros k1 k2. repeat case_decide; lia.
  - intros k. destruct (decide (k = j)) as [->|Hkj].
    + rewrite list_lookup_insert_eq by (by rewrite length_insert). done.
    + rewrite list_lookup_insert_ne by done.
      destruct (decide (k = i)) as [->|Hki].
      * by rewrite list_lookup_insert_eq.
      * by rewrite list_lookup_insert_ne.
Qed.

Lemma shuffleFrom_perm rnd i l : shuffleFrom rnd i l ≡ₚ l.
Proof.
  revert l. induction i as [|i IH]; intros l; [done|]. simpl.
  rewrite IH. apply swap_perm.
Qed.

Lemma shuffle_perm rnd l : shuffle rnd l ≡ₚ l.
Proof. apply shuffleFrom_perm. Qed.

Lemma forbidden_length s sx sy : (length (forbidden s sx sy) ≤ 9)%nat.
Proof.
  unfold forbidden.
  assert (∀ l acc,
    Nat.le
      (length (foldl (λ acc (d : Z * Z),
         if decide (0 ≤ sy + d.1 ∧ sy + d.1 < rows s ∧
                    0 ≤ sx + d.2 ∧ sx + d.2 < cols s)
         then acc ++ [(sy + d.1) * cols s + (sx + d.2)] else acc) acc l))
      (Nat.add (length acc) (length l))) as H.
  { induction l as [|d l IH]; intros acc; simpl; [lia|].
    etrans; [apply IH|]. case_decide; [rewrite length_app; simpl|]; lia. }
  apply (H offsets9 []).
Qed.

Lemma candidates_facts s sx sy :
  NoDup (candidates s sx sy) ∧
  (∀ i, i ∈ candidates s sx sy → 0 ≤ i < rows s * cols s) ∧
  rows s * cols s - 9 ≤ len (candidates s sx sy).
Proof.
  unfold candidates, arrayFrom. cbv zeta. rewrite list_fmap_id.
  split; [apply list.NoDup_filter, NoDup_seqZ|]. split.
  - intros i [_ Hi%elem_of_seqZ]%list_elem_of_filter. lia.
  - pose proof (filter_app_complement (λ i, i ∉ forbidden s sx sy)
                  (seqZ 0 (rows s * cols s))) as Hperm.
    apply Permutation_length in Hperm.
    rewrite length_app, length_seqZ in Hperm.
    assert (Nat.le (length (filter (λ i : Z, ¬ (i ∉ forbidden s sx sy))
                              (seqZ 0 (rows s * cols s)))) 9%nat) as Hf.
    { etrans; [|apply (forbidden_length s sx sy)].
      apply submseteq_length, NoDup_submseteq.
      - apply list.NoDup_filter, NoDup_seqZ.
      - intros i [Hi _]%list_elem_of_filter.
        by destruct (decide (i ∈ forbidden s sx sy)). }
    unfold len. lia.
Qed.

(** With a valid configuration the mine set holds exactly [mines] distinct
    positions of the board. *)
Lemma minePositions_facts rnd s sx sy :
  valid_config (rows s) (cols s) (mines s) →
  NoDup (minePositions rnd s sx sy) ∧
  len (minePositions rnd s sx sy) = mines s ∧
  ∀ i, i ∈ minePositions rnd s sx sy → 0 ≤ i < rows s * cols s.
Proof.
  intros (Hr & Hc & Hm).
  destruct (candidates_facts s sx sy) as (Hnd & Hin & Hlen).
  split; [|split].
  - unfold minePositions, slice0. eapply sublist_NoDup; [|apply sublist_take].
    by rewrite shuffle_perm.
  - unfold minePositions, slice0. rewrite decide_False by lia.
    unfold len. rewrite length_take_le; [lia|].
    rewrite (Permutation_length (shuffle_perm rnd _)). unfold len in Hlen. lia.
  - intros i Hi. by apply Hin, (minePositions_candidates rnd).
Qed.

Lemma grid_lengths r c b :
  grid r c b → 0 ≤ r → 0 ≤ c →
  length b = Z.to_nat r ∧ Forall (λ row, length row = Z.to_nat c) b.
Proof.
  intros [Hl Hrows] Hr Hc. unfold len in *. split; [lia|].
  eapply Forall_impl; [|exact Hrows]. simpl. intros row Hrow. lia.
Qed.

(** The tiles of the board in the order of the linear index
    [y * cols + x]. *)
Lemma board_index r c b (k : nat) t :
  grid r c b → 0 < r → 0 < c →
  mjoin b !! k = Some t →
  Z.of_nat k < r * c ∧
  cell b (Z.of_nat k `div` c) (Z.of_nat k `mod` c) = Some t.
Proof.
  intros Hg Hr Hc Hk.
  destruct (grid_lengths r c b Hg) as [Hlen Hrows]; [lia..|].
  apply (join_lookup_Some_same_length (Z.to_nat c)) in Hk
    as (j & row & i & Hj & Hi & ->); [|done].
  pose proof (lookup_lt_Some _ _ _ Hj) as Hjlt.
  pose proof (lookup_lt_Some _ _ _ Hi) as Hilt.
  rewrite (Forall_lookup_1 _ _ _ _ Hrows Hj) in Hilt.
  assert (Z.of_nat (j * Z.to_nat c + i) = Z.of_nat j * c + Z.of_nat i) as ->
    by lia.
  split; [nia|].
  rewrite <- (Z.div_unique _ c (Z.of_nat j) (Z.of_nat i)) by lia.
  rewrite <- (Z.mod_unique _ c (Z.of_nat j) (Z.of_nat i)) by lia.
  unfold cell. rewrite ix_lookup, Nat2Z.id, Hj by lia. simpl.
  by rewrite ix_lookup, Nat2Z.id by lia.
Qed.

Lemma board_length r c b :
  grid r c b → 0 ≤ r → 0 ≤ c → len (mjoin b) = r * c.
Proof.
  intros Hg Hr Hc. destruct (grid_lengths r c b Hg Hr Hc) as [Hlen Hrows].
  unfold len. rewrite length_join, (sum_list_fmap_same (Z.to_nat c)) by done.
  rewrite Hlen. lia.
Qed.

Lemma countIf_indexed {A} (p : A → bool) (g : Z → bool) (l : list A) :
  (∀ (k : nat) a, l !! k = Some a → p a = g (Z.of_nat k)) →
  countIf p l = countIf g (seqZ 0 (len l)).
Proof.
  induction l as [|a l IH] using rev_ind; intros H; [done|].
  rewrite len_app. change (len [a]) with 1.
  rewrite seqZ_app by (pose proof (len_nonneg l); lia).
  rewrite !countIf_app, IH.
  - rewrite (seqZ_cons (0 + len l) 1), (seqZ_nil _ (Z.pred 1)) by lia.
    rewrite !countIf_cons, !countIf_nil.
    rewrite (H (length l) a); [done|].
    apply lookup_snoc_Some. by right.
  - intros k b Hk. apply H. apply lookup_snoc_Some. left.
    split; [by eapply lookup_lt_Some|done].
Qed.

(** A board whose mines are the positions of a duplicate-free list holds
    as many mines as the list is long. *)
Lemma countTiles_mines r c b (mp : list Z) :
  grid r c b → 0 < r → 0 < c →
  NoDup mp → (∀ i, i ∈ mp → 0 ≤ i < r * c) →
  (∀ y x t, cell b y x = Some t → isMine t = bool_decide (y * c + x ∈ mp)) →
  countTiles isMine b = len mp.
Proof.
  intros Hg Hr Hc Hnd Hin Hm. unfold countTiles.
  rewrite (countIf_indexed isMine (λ i, bool_decide (i ∈ mp))).
  2:{ intros k t Hk. destruct (board_index r c b k t Hg Hr Hc Hk) as [_ Ht].
      rewrite (Hm _ _ _ Ht). f_equal.
      pose proof (Z.div_mod (Z.of_nat k) c). 
      replace (Z.of_nat k `div` c * c + Z.of_nat k `mod` c) with (Z.of_nat k)
        by lia. done. }
  rewrite (board_length r c) by (done || lia).
  unfold countIf, len. f_equal.
  apply Permutation_length, NoDup_Permutation; [|done|].
  - apply list.NoDup_filter, NoDup_seqZ.
  - intros i. rewrite list_elem_of_filter, elem_of_seqZ, bool_decide_spec.
    split; [by intros [? _]|]. intros Hi. split; [done|]. apply Hin in Hi. lia.
Qed.

(** The first click places exactly [mines] mines. *)
Lemma placeMines_count rnd s x y b1 :
  gameInv s → status s = Ready →
  valid_config (rows s) (cols s) (mines s) →
  placeMinesAfterFirstClick rnd s x y = Some (withBoard s b1) →
  countTiles isMine b1 = mines s.
Proof.
  intros Hinv Est Hv Hb1. pose proof Hinv as (_ & Hr & Hc & _).
  destruct (placeMines_board rnd s x y b1 Hinv Est Hb1)
    as ([Hg1 _] & _ & _ & _ & _ & Hm).
  destruct (minePositions_facts rnd s x y Hv) as (Hnd & <- & Hin).
  by eapply countTiles_mines.
Qed.

Lemma revealOutcome_mines rnd now s x y s' :
  gameInv s → valid_config (rows s) (cols s) (mines s) →
  revealOutcome rnd now s x y s' →
  countTiles isMine (board s') =
  if decide (status s = Ready) then mines s else countTiles isMine (board s).
Proof.
  intros Hinv Hv H. destruct (decide (status s = Ready)) as [Est|Hne].
  - destruct H as (t & _ & _ & _ & _ & [(_ & b1 & b2 & Hb1 & Hb2 & ->)|
                                         [(E & _)|(E & _)] ]); try congruence.
    rewrite settle_board. simpl.
    destruct (placeMines_board rnd s x y b1 Hinv Est Hb1) as ([Hg1 _] & _).
    pose proof Hinv as (_ & Hr & _).
    destruct (revealFloodFill_tilewise _ _ b1 x y Hg1 Hr) as (b2' & Hb2' & Htw).
    assert (b2' = b2) as -> by congruence.
    rewrite <- (placeMines_count rnd s x y b1); try done.
    eapply tilewise_countTiles; [|exact Htw].
    intros u v Huv. by destruct (revealedOnly_facts _ _ Huv) as (? & _).
  - destruct (revealOutcome_facts _ _ s x y s' Hinv H)
      as (_ & _ & _ & _ & _ & _ & _ & _ & _ & Htw & _).
    eapply tilewise_countTiles; [|exact (Htw Hne)].
    by intros u v (_ & ? & _).
Qed.

(** *** The number of mines *)

Lemma mineTotal_inv s :
  reachable s →
  countTiles isMine (board s) =
  if decide (status s = Ready) then 0 else mines s.
Proof.
  intros Hre. cut (valid_config (rows s) (cols s) (mines s) ∧
    countTiles isMine (board s) =
    if decide (status s = Ready) then 0 else mines s); [by intros [_ ?]|].
  revert s Hre. apply reachable_moved_ind.
  - intros r c m d Hv. split; [done|]. simpl.
    apply countTiles_zero. intros y x t Ht.
    by rewrite (cell_initialState r c m d _ _ _ Ht).
  - intros e s s' Hre [Hv IH] Hm. pose proof (reachable_inv _ Hre) as Hinv.
    split.
    { destruct (moved_config e s s' Hinv Hm) as (-> & -> & -> & _). done. }
    destruct Hm as [(x & y & H)|[(x & y & H)|[(x & y & H)|[H|H] ] ] ].
    + destruct (flagOutcome_facts s x y s' (proj1 Hinv) H)
        as (_ & (_ & _ & -> & _) & -> & _ & _ & _ & _ & Htw & _).
      rewrite <- IH. eapply tilewise_countTiles; [|exact Htw].
      intros u v Huv. by destruct (flagToggled_facts _ _ Huv) as (_ & ? & _).
    + rewrite (revealOutcome_mines _ _ s x y s' Hinv Hv H).
      destruct (revealOutcome_facts _ _ s x y s' Hinv H)
        as ((_ & _ & -> & _) & _ & _ & _ & _ & _ & Hnr & _).
      rewrite (decide_False (P := status s' = Ready)) by done.
      rewrite IH. by destruct (decide _).
    + destruct (chordOutcome_facts s x y s' Hinv H)
        as (Est & (_ & _ & -> & _) & _ & _ & _ & _ & _ & Hnr & _ & Htw & _).
      rewrite decide_False by done. rewrite Est in IH.
      rewrite decide_False in IH by done. rewrite <- IH.
      eapply tilewise_countTiles; [|exact Htw]. by intros u v (_ & ? & _).
    + destruct H as (_ & x & y & t & s1 & _ & _ & _ & H & ->). simpl.
      rewrite (revealOutcome_mines _ _ s x y s1 Hinv Hv H).
      destruct (revealOutcome_facts _ _ s x y s1 Hinv H)
        as ((_ & _ & -> & _) & _ & _ & _ & _ & _ & Hnr & _).
      rewrite (decide_False (P := status s1 = Ready)) by done.
      rewrite IH. by destruct (decide _).
    + destruct H as (_ & t0 & _ & _ & ->). done.
Qed.

(** ** Counting arguments *)

Lemma countIf_le_len {A} (p : A → bool) (l : list A) : countIf p l ≤ len l.
Proof. unfold countIf, len. pose proof (length_filter (λ a, p a) l). lia. Qed.

Lemma countIf_omap_le {A B} (p : B → bool) (g : A → option B) (l : list A) :
  countIf p (omap g l) ≤ len l.
Proof.
  induction l as [|a l IH]; [done|].
  change (omap g (a :: l))
    with (match g a with Some b => b :: omap g l | None => omap g l end).
  unfold len in *. simpl. destruct (g a); [rewrite countIf_cons|];
    destruct (p _) || idtac; lia.
Qed.

(** Three tests of which every element passes exactly one split the
    list. *)
Lemma countIf_split3 {A} (p q r : A → bool) (l : list A) :
  (∀ a, a ∈ l →
     (if p a then 1 else 0) + (if q a then 1 else 0) + (if r a then 1 else 0)
     = 1) →
  countIf p l + countIf q l + countIf r l = len l.
Proof.
  induction l as [|a l IH]; intros H; [done|].
  rewrite !countIf_cons. unfold len in *. simpl length.
  pose proof (H a (list_elem_of_here _ _)).
  specialize (IH (λ b Hb, H b (list_elem_of_further _ _ _ Hb))). lia.
Qed.

(** A tactic for the examples: the games [demoFresh] and [demoGame], and
    the games some more commands lead to, are games of the service. *)
Ltac demo_reachable :=
  unfold demoGame, demoFresh;
  repeat (apply reachable_step; [|exact I]);
  apply reachable_new; unfold valid_config; lia.

(** * Properties of every game *)

(** X1. In every game the counter [flagsPlaced] is the number of flagged
    tiles of the board, [minesLeft] is [max(0, mines - flagsPlaced)], and
    the number of flags lies between 0 and the number of tiles. *)
Theorem flag_counters (s : GameState) :
  reachable s →
  flagsPlaced s = countTiles isFlagged (board s) ∧
  minesLeft s = Z.max 0 (mines s - flagsPlaced s) ∧
  0 ≤ flagsPlaced s ≤ rows s * cols s.
Proof.
  intros Hre. destruct (counters_inv s Hre) as [Hf Hl].
  split; [done|]. split; [done|]. rewrite Hf.
  destruct (reachable_inv _ Hre) as ([Hg _] & Hr & Hc & _).
  rewrite <- (board_length _ _ _ Hg) by lia.
  split; [apply countIf_nonneg|apply countIf_le_len].
Qed.

Lemma flag_counters_witness :
  flagsPlaced (step demoEnv (ToggleFlag 2 1) demoGame)
    = countTiles isFlagged (board (step demoEnv (ToggleFlag 2 1) demoGame)) ∧
  minesLeft (step demoEnv (ToggleFlag 2 1) demoGame)
    = Z.max 0 (mines (step demoEnv (ToggleFlag 2 1) demoGame)
               - flagsPlaced (step demoEnv (ToggleFlag 2 1) demoGame)) ∧
  0 ≤ flagsPlaced (step demoEnv (ToggleFlag 2 1) demoGame)
    ≤ rows (step demoEnv (ToggleFlag 2 1) demoGame)
      * cols (step demoEnv (ToggleFlag 2 1) demoGame).
Proof. apply flag_counters. demo_reachable. Defined.

(** X2. As long as a game is not lost none of its mines is revealed, and
    in a lost game every mine is revealed: a fill, a chord or a hint never
    uncovers a mine without ending the game. *)
Theorem mines_hidden_until_lost (s : GameState) (y x : Z) (t : Tile) :
  reachable s → cell (board s) y x = Some t → isMine t = true →
  isRevealed t = bool_decide (status s = Lost).
Proof.
  intros Hre Ht Hm. destruct (mines_inv s Hre) as [Hh Hs].
  destruct (decide (status s = Lost)) as [E|E].
  - rewrite bool_decide_eq_true_2 by done. by eapply Hs.
  - rewrite bool_decide_eq_false_2 by done. by eapply Hh.
Qed.

Lemma mines_hidden_until_lost_witness :
  isRevealed (mkTile 2 0 true false false 0)
  = bool_decide (status demoGame = Lost).
Proof.
  apply (mines_hidden_until_lost demoGame 0 2).
  - demo_reachable.
  - vm_compute. reflexivity.
  - reflexivity.
Defined.

(** X3. On the board of a won game a tile is revealed exactly when it is
    not a mine, and every flag that is left stands on a mine. *)
Theorem won_board (s : GameState) (y x : Z) (t : Tile) :
  reachable s → status s = Won → cell (board s) y x = Some t →
  isRevealed t = negb (isMine t) ∧ (isFlagged t = true → isMine t = true).
Proof.
  intros Hre Hwon Ht. destruct (mines_inv s Hre) as [Hh _].
  destruct (reachable_inv _ Hre) as (_ & _ & _ & _ & Hst).
  rewrite Hwon in Hst. destruct Hst as [Hzero Hnf].
  assert (isRevealed t = negb (isMine t)) as Hrev.
  { destruct (isMine t) eqn:Hm; simpl.
    - eapply Hh; [congruence|done..].
    - destruct (isRevealed t) eqn:Hrev; [done|]. exfalso.
      assert (hiddenSafe (board s)) as Hhs by (by exists y, x, t).
      by apply countHidden_nonzero in Hhs. }
  split; [done|]. intros Hfl. destruct (isMine t); [done|].
  simpl in Hrev. rewrite (Hnf _ _ _ Ht Hrev) in Hfl. done.
Qed.

Lemma won_board_witness :
  isRevealed (mkTile 3 1 false true false 3)
  = negb (isMine (mkTile 3 1 false true false 3)) ∧
  (isFlagged (mkTile 3 1 false true false 3) = true →
   isMine (mkTile 3 1 false true false 3) = true).
Proof.
  apply (won_board (step demoEnv UseHint demoGame) 1 3).
  - demo_reachable.
  - vm_compute. reflexivity.
  - vm_compute. reflexivity.
Defined.

(** X4. Before the first click the board holds no mine; from the first
    click on it holds exactly [mines] mines, whatever the random draws. *)
Theorem mine_total (s : GameState) :
  reachable s →
  (status s = Ready → countTiles isMine (board s) = 0) ∧
  (status s ≠ Ready → countTiles isMine (board s) = mines s).
Proof.
  intros Hre. rewrite (mineTotal_inv s Hre). split; intros E.
  - by rewrite decide_True.
  - by rewrite decide_False.
Qed.

Lemma mine_total_witness :
  (status demoGame = Ready → countTiles isMine (board demoGame) = 0) ∧
  (status demoGame ≠ Ready →
   countTiles isMine (board demoGame) = mines demoGame).
Proof. apply mine_total. demo_reachable. Defined.

(** X5. In a game that is not lost the tiles split into the revealed
    ones, the hidden tiles that are no mines, which
    [countHiddenNonMines] counts, and the mines. *)
Theorem tiles_split (s : GameState) :
  reachable s → status s ≠ Lost →
  countTiles isRevealed (board s) + countHiddenNonMines (board s)
  + countTiles isMine (board s) = rows s * cols s.
Proof.
  intros Hre Hnl. destruct (mines_inv s Hre) as [Hh _].
  destruct (reachable_inv _ Hre) as ([Hg _] & Hr & Hc & _).
  rewrite countHidden_join, <- (board_length _ _ _ Hg) by lia.
  apply countIf_split3. intros t [y [x Ht] ]%elem_of_board.
  unfold hiddenSafeTile. pose proof (Hh Hnl _ _ _ Ht) as Hmine.
  destruct (isMine t); [rewrite Hmine by done; done|].
  by destruct (isRevealed t).
Qed.

Lemma tiles_split_witness :
  countTiles isRevealed (board demoGame) + countHiddenNonMines (board demoGame)
  + countTiles isMine (board demoGame) = rows demoGame * cols demoGame.
Proof.
  apply tiles_split.
  - demo_reachable.
  - vm_compute. discriminate.
Defined.

(** X6. A game that waits for its first click has no start time, no
    elapsed time and [firstClick] set; every other game has a start time
    and [firstClick] cleared. *)
Theorem clock_state (s : GameState) :
  reachable s →
  (status s = Ready →
   startedAt s = None ∧ elapsedMs s = 0 ∧ firstClick s = true) ∧
  (status s ≠ Ready → firstClick s = false ∧ ∃ t0, startedAt s = Some t0).
Proof.
  intros Hre. destruct (clock_inv s Hre) as (H1 & H2 & _). by split.
Qed.

Lemma clock_state_witness :
  (status demoGame = Ready →
   startedAt demoGame = None ∧ elapsedMs demoGame = 0 ∧
   firstClick demoGame = true) ∧
  (status demoGame ≠ Ready →
   firstClick demoGame = false ∧ ∃ t0, startedAt demoGame = Some t0).
Proof. apply clock_state. demo_reachable. Defined.

(** X7. The number of hints left stays between 0 and 3. *)
Theorem hints_in_range (s : GameState) : reachable s → 0 ≤ hintsLeft s ≤ 3.
Proof. intros Hre. by destruct (clock_inv s Hre) as (_ & _ & ?). Qed.

Lemma hints_in_range_witness :
  0 ≤ hintsLeft (step demoEnv UseHint demoGame) ≤ 3.
Proof. apply hints_in_range. demo_reachable. Defined.

(** X8. In every game every tile that is no mine shows the number of mines
    among its neighbours, a mine shows 0, and the number shown lies between
    0 and 8. *)
Theorem adjacent_counts (s : GameState) (y x : Z) (t : Tile) :
  reachable s → cell (board s) y x = Some t →
  adjacentMines t = (if isMine t then 0 else mineCount (board s) x y) ∧
  0 ≤ adjacentMines t ≤ 8.
Proof.
  intros Hre Ht. destruct (reachable_inv _ Hre) as (_ & _ & _ & Hok & _).
  rewrite (Hok _ _ _ Ht). split; [done|].
  destruct (isMine t); [lia|]. unfold mineCount, neighborTiles.
  split; [apply countIf_nonneg|].
  etrans; [apply countIf_omap_le|]. by vm_compute.
Qed.

Lemma adjacent_counts_witness :
  adjacentMines (mkTile 3 1 false false false 3)
  = (if isMine (mkTile 3 1 false false false 3) then 0
     else mineCount (board demoGame) 3 1) ∧
  0 ≤ adjacentMines (mkTile 3 1 false false false 3) ≤ 8.
Proof.
  apply (adjacent_counts demoGame 1 3).
  - demo_reachable.
  - vm_compute. reflexivity.
Defined.

(** * Properties of the commands *)

Lemma put2_undo b y x t t1 b' :
  cell b y x = Some t → put2 b y x t1 = Some b' → put2 b' y x t = Some b.
Proof.
  intros (row & Hrow & Ht)%cell_Some_inv. unfold put2. rewrite Hrow. simpl.
  destruct (decide (0 ≤ x < len row)) as [Hx|]; [|done]. intros [= <-].
  pose proof (ix_Some _ _ _ Hrow) as Hy.
  rewrite ix_insert, decide_True by done. simpl.
  rewrite decide_True by (unfold len in *; by rewrite length_insert).
  rewrite ix_lookup in Hrow by lia. rewrite ix_lookup in Ht by lia.
  rewrite !list_insert_insert_eq, (list_insert_id row) by done.
  by rewrite list_insert_id.
Qed.

(** X9. Toggling the flag of the same tile twice gives back the snapshot
    the game had: the board, the counter [flagsPlaced] and [minesLeft]. *)
Theorem toggleFlag_twice (s : GameState) (x y : Z) :
  reachable s →
  ∃ s1, toggleFlag s x y = Some s1 ∧ toggleFlag s1 x y = Some s.
Proof.
  intros Hre. destruct (reachable_inv _ Hre) as (Hwf & _).
  destruct (counters_inv s Hre) as [_ Hleft].
  destruct (toggleFlag_cases s x y Hwf)
    as [Hs|(s1 & Hs1 & Hfin & t & b' & Ht & Hrev & Hput & ->)];
    [by exists s|].
  eexists. split; [done|].
  assert (wf (withFlags (withBoard s b')
                (flagsPlaced s + (if isFlagged t then -1 else 1))
                (Z.max 0 (mines s
                   - (flagsPlaced s + (if isFlagged t then -1 else 1))))))
    as Hwf1.
  { unfold wf. simpl.
    eapply (tilewise_board_ok flagToggled); [|by eapply put2_tilewise;
      [by left|done|by right|done]|done].
    intros u v Huv. by destruct (flagToggled_facts _ _ Huv) as (? & _). }
  destruct Hwf as [_ Hco]. destruct (Hco _ _ _ Ht) as [Hx Hy].
  unfold toggleFlag.
  change (finished (withFlags _ _ _)) with (finished s). rewrite Hfin.
  rewrite tileAt_wf by done. simpl.
  rewrite (put2_cell _ _ _ _ _ _ _ Hput), decide_True by done. simpl.
  rewrite Hrev, Hx, Hy.
  replace (setFlagged (setFlagged t (negb (isFlagged t)))
             (negb (negb (isFlagged t)))) with t
    by (destruct t as [? ? ? ? [] ?]; done).
  rewrite (put2_undo _ _ _ _ _ _ Ht Hput). simpl. f_equal.
  destruct s as [b r c m placed st fc sa el left df hl]. simpl in *.
  unfold withFlags, withBoard. simpl. rewrite Hleft.
  f_equal; destruct (isFlagged t); simpl; f_equal; lia.
Qed.

Lemma toggleFlag_twice_witness :
  ∃ s1, toggleFlag demoGame 2 1 = Some s1 ∧ toggleFlag s1 2 1 = Some demoGame.
Proof. apply toggleFlag_twice. demo_reachable. Defined.

(** X10. A [reveal] on a hidden tile without flag of a game that still
    runs always reveals that tile, and it loses the game exactly when the
    tile is a mine. *)
Theorem reveal_opens_tile (rnd : nat → nat) (now : Z) (s : GameState)
    (x y : Z) (t : Tile) :
  reachable s → finished s = false → cell (board s) y x = Some t →
  isRevealed t = false → isFlagged t = false →
  ∃ s' t', reveal rnd now s x y = Some s' ∧
    cell (board s') y x = Some t' ∧ isRevealed t' = true ∧
    (status s' = Lost ↔ isMine t = true).
Proof.
  intros Hre Hfin Ht Hrev Hfl. pose proof (reachable_inv _ Hre) as Hinv.
  destruct (reveal_runs rnd now s x y t Hinv Hfin Ht Hrev Hfl)
    as (s' & Hs' & Hout).
  destruct (revealOutcome_facts _ _ s x y s' Hinv Hout)
    as (_ & _ & _ & _ & _ & _ & _ & _ & _ & _ & (t' & Ht' & Hr') & _ & Hlost).
  exists s', t'. split; [done|]. split; [done|]. split; [done|]. split.
  - intros Hl. destruct (Hlost Hl) as (_ & _ & u & Hu & Hm). congruence.
  - intros Hm. destruct Hout as (u & Hu & _ & _ & _ & Hcase).
    assert (u = t) as -> by congruence.
    destruct Hcase as [(Est & _)|[(_ & _ & ->)|(_ & Hsafe & _)] ];
      [|done|congruence].
    destruct Hinv as (_ & _ & _ & _ & Hst). rewrite Est in Hst.
    destruct Hst as [_ Hcells]. destruct (Hcells _ _ _ Ht). congruence.
Qed.

Lemma reveal_opens_tile_witness :
  ∃ s' t', reveal (λ i, i) 9 demoGame 3 1 = Some s' ∧
    cell (board s') 1 3 = Some t' ∧ isRevealed t' = true ∧
    (status s' = Lost ↔ isMine (mkTile 3 1 false false false 3) = true).
Proof.
  apply reveal_opens_tile.
  - demo_reachable.
  - vm_compute. reflexivity.
  - vm_compute. reflexivity.
  - reflexivity.
  - reflexivity.
Defined.

(** X11. The first click of a game, on a tile without flag, starts the
    clock and never loses; the clicked tile shows 0, and every tile of the
    3 x 3 block around it that carries no flag is revealed. *)
Theorem first_click_opens_block (rnd : nat → nat) (now : Z) (s : GameState)
    (x y : Z) (t : Tile) :
  reachable s → status s = Ready → cell (board s) y x = Some t →
  isFlagged t = false →
  ∃ s', reveal rnd now s x y = Some s' ∧
    startedAt s' = Some now ∧ (status s' = Playing ∨ status s' = Won) ∧
    (∃ t', cell (board s') y x = Some t' ∧ adjacentMines t' = 0) ∧
    ∀ d u, d ∈ offsets9 → cell (board s') (y + d.1) (x + d.2) = Some u →
           isFlagged u = false → isRevealed u = true.
Proof.
  intros Hre Est Ht Hfl. pose proof (reachable_inv _ Hre) as Hinv.
  pose proof Hinv as (Hwf & Hr & Hc & _ & Hst). rewrite Est in Hst.
  destruct Hst as [_ Hcells]. destruct (Hcells _ _ _ Ht) as [_ Hrev].
  assert (finished s = false) as Hfin by (unfold finished; by rewrite Est).
  destruct (reveal_runs rnd now s x y t Hinv Hfin Ht Hrev Hfl)
    as (s' & Hs' & Hout).
  exists s'. split; [done|].
  destruct Hout as (u0 & _ & _ & _ & _ & [(_ & b1 & b2 & Hb1 & Hb2 & ->)|
                                           [(E & _)|(E & _)] ]);
    try congruence.
  rewrite settle_board. destruct (settle_fields (withBoard (started s b1 now) b2))
    as (_ & _ & _ & _ & -> & _). simpl.
  split; [done|]. split.
  { destruct (settle_status (withBoard (started s b1 now) b2)) as [->| ->];
      by auto. }
  destruct (placeMines_board rnd s x y b1 Hinv Est Hb1)
    as ([Hg1 Hco1] & Htw1 & Hok1 & _ & _ & Hmines).
  (* no tile of the block is a mine *)
  assert (∀ d u, d ∈ offsets9 → cell b1 (y + d.1) (x + d.2) = Some u →
                 isMine u = false) as Hblock.
  { intros d u Hd Hu. rewrite (Hmines _ _ _ Hu). apply bool_decide_eq_false.
    destruct (cell_bounds _ _ _ _ _ _ Hg1 Hu).
    by apply minePositions_safe. }
  destruct (tilewise_cell_l _ _ _ _ _ _ Htw1 Ht) as (t1 & Ht1 & _ & Hr1 & Hf1).
  assert (spreads t1 = true) as Hsp.
  { unfold spreads, blocked. rewrite Hr1, Hf1, Hrev, Hfl. simpl.
    assert (isMine t1 = false) as Hm1.
    { apply (Hblock (0, 0)); [apply elem_of_offsets9; simpl; lia|].
      simpl. by rewrite !Z.add_0_r. }
    rewrite Hm1, andb_true_r. apply bool_decide_eq_true.
    rewrite (Hok1 _ _ _ Ht1), Hm1. apply countIf_zero.
    intros n (d & Hd & Hn)%elem_of_neighborTiles.
    apply (Hblock d); [|done]. by apply elem_of_offsets8 in Hd as [? _]. }
  destruct (revealFloodFill_spec _ _ b1 x y Hg1 Hr) as (b2' & Hb2' & _ & Hfill).
  assert (b2' = b2) as -> by congruence.
  assert (∀ d u, d ∈ offsets9 → cell b2 (y + d.1) (x + d.2) = Some u →
            isFlagged u = false → isRevealed u = true) as Hopen.
  { intros d u Hd Hu.
    destruct (revealFloodFill_tilewise _ _ b1 x y Hg1 Hr) as (b2' & Hb2'' & Htw2).
    assert (b2' = b2) as -> by congruence.
    destruct (tilewise_cell_r _ _ _ _ _ _ Htw2 Hu) as (u1 & Hu1 & Hrel).
    intros Hfu.
    assert (floodReach b1 x y (x + d.2) (y + d.1)) as Hreach.
    { destruct (decide (d = (0, 0))) as [->|Hne].
      - simpl. rewrite !Z.add_0_r. constructor.
      - eapply flood_step; [constructor|done..|].
        apply elem_of_offsets8. by split. }
    destruct (Hfill _ _ _ Hu1) as [(_ & _ & Hc1)|[ [Hn|Hbl] Hc1] ].
    - rewrite Hu in Hc1. by injection Hc1 as ->.
    - done.
    - assert (u = u1) as -> by congruence. unfold blocked in Hbl.
      rewrite Hfu, orb_false_r in Hbl. done. }
  split.
  - destruct (Hfill _ _ _ Ht1) as [(_ & _ & Hc1)|[_ Hc1] ];
      eexists; (split; [exact Hc1|]); simpl;
      unfold spreads in Hsp; apply andb_true_iff in Hsp as [Hsp _];
      apply andb_true_iff in Hsp as [_ Hz]; by apply bool_decide_eq_true in Hz.
  - exact Hopen.
Qed.

Lemma first_click_opens_block_witness :
  ∃ s', reveal (λ i, i) 9 demoFresh 2 1 = Some s' ∧
    startedAt s' = Some 9 ∧ (status s' = Playing ∨ status s' = Won) ∧
    (∃ t', cell (board s') 1 2 = Some t' ∧ adjacentMines t' = 0) ∧
    ∀ d u, d ∈ offsets9 → cell (board s') (1 + d.1) (2 + d.2) = Some u →
           isFlagged u = false → isRevealed u = true.
Proof.
  apply (first_click_opens_block (λ i, i) 9 demoFresh 2 1
           (mkTile 2 1 false false false 0)).
  - demo_reachable.
  - reflexivity.
  - vm_compute. reflexivity.
  - reflexivity.
Defined.

(** X12. A [chord] that passes its guards reveals every neighbour that
    carries no flag, and it loses the game exactly when one of these
    neighbours is a mine: with the flags on the mines it never loses. *)
Theorem chord_result (s : GameState) (x y : Z) :
  reachable s → chordable s x y →
  ∃ s', chord s x y = Some s' ∧
    (status s' = Lost ↔
     ∃ n, n ∈ neighborTiles (board s) x y ∧
          isMine n = true ∧ isFlagged n = false) ∧
    ∀ n, n ∈ neighborTiles (board s) x y → isFlagged n = false →
      ∃ t', cell (board s') (tile_y n) (tile_x n) = Some t' ∧
            isRevealed t' = true.
Proof.
  intros Hre Hch. pose proof (reachable_inv _ Hre) as Hinv.
  destruct (chord_outcome s x y Hinv) as [[_ Hn]|(s' & Hs' & Hout)]; [done|].
  exists s'. split; [done|].
  destruct (chordOutcome_facts s x y s' Hinv Hout)
    as (Est & _ & _ & _ & _ & _ & _ & _ & _ & _ & Hrev & Hl & _).
  split; [|done]. rewrite Hl. split.
  - intros (n & Hn & Htr). apply treadsOnMine_true in Htr as (? & _ & ?).
    by exists n.
  - intros (n & Hn & Hm & Hfl). exists n. split; [done|].
    apply treadsOnMine_true. split; [done|]. split; [|done].
    destruct (mines_inv s Hre) as [Hh _].
    eapply (Hh ltac:(congruence)); [|done].
    eapply neighborTiles_cell; [apply Hinv|done].
Qed.

Lemma chord_result_witness :
  ∃ s', chord (step demoEnv (ToggleFlag 2 1) demoGame) 2 2 = Some s' ∧
    (status s' = Lost ↔
     ∃ n, n ∈ neighborTiles
                (board (step demoEnv (ToggleFlag 2 1) demoGame)) 2 2 ∧
          isMine n = true ∧ isFlagged n = false) ∧
    ∀ n, n ∈ neighborTiles
               (board (step demoEnv (ToggleFlag 2 1) demoGame)) 2 2 →
      isFlagged n = false →
      ∃ t', cell (board s') (tile_y n) (tile_x n) = Some t' ∧
            isRevealed t' = true.
Proof.
  apply chord_result.
  - demo_reachable.
  - split; [vm_compute; reflexivity|]. split; [by vm_compute|].
    exists (mkTile 2 2 false true false 1).
    split; [vm_compute; reflexivity|]. split; [reflexivity|].
    split; [reflexivity|]. split; [simpl; lia|]. vm_compute. reflexivity.
Defined.

(** X13. [useHint] does nothing when no hint is left, when the game is
    over or when no tile is hidden, unflagged and not a mine.  Otherwise
    it reveals the first such tile, rows first, spends exactly one hint
    and never loses the game. *)
Theorem useHint_result (rnd : nat → nat) (now : Z) (s : GameState) :
  reachable s →
  (useHint rnd now s = Some s ∧
   (hintsLeft s ≤ 0 ∨ finished s = true ∨
    ∀ y x t, cell (board s) y x = Some t → hintable t = false)) ∨
  ∃ s' x y t,
    useHint rnd now s = Some s' ∧
    0 < hintsLeft s ∧ finished s = false ∧
    cell (board s) y x = Some t ∧ hintable t = true ∧
    (∀ y' x' t', scannedBefore y' x' y x →
       cell (board s) y' x' = Some t' → hintable t' = false) ∧
    hintsLeft s' = hintsLeft s - 1 ∧ status s' ≠ Lost ∧
    ∃ t', cell (board s') y x = Some t' ∧ isRevealed t' = true.
Proof.
  intros Hre. pose proof (reachable_inv _ Hre) as Hinv.
  destruct (useHint_outcome rnd now s Hinv)
    as [H|(s' & Hs' & Hh & x & y & t & s1 & Ht & Hp & Hfirst & Hout & ->)];
    [by left|right].
  exists (withHintsLeft s1 (Z.max 0 (hintsLeft s1 - 1))), x, y, t.
  pose proof Hout as (_ & _ & Hfin & _).
  destruct (revealOutcome_facts _ _ s x y s1 Hinv Hout)
    as (_ & _ & _ & Hhl & _ & _ & _ & _ & _ & _ & Hrev & _ & Hlost).
  simpl. split_and!; try done.
  - lia.
  - intros Hl. destruct (Hlost Hl) as (_ & _ & u & Hu & Hm).
    assert (u = t) as -> by congruence. unfold hintable in Hp.
    by rewrite Hm in Hp.
Qed.

Lemma useHint_result_witness :
  (useHint (λ i, i) 9 demoGame = Some demoGame ∧
   (hintsLeft demoGame ≤ 0 ∨ finished demoGame = true ∨
    ∀ y x t, cell (board demoGame) y x = Some t → hintable t = false)) ∨
  ∃ s' x y t,
    useHint (λ i, i) 9 demoGame = Some s' ∧
    0 < hintsLeft demoGame ∧ finished demoGame = false ∧
    cell (board demoGame) y x = Some t ∧ hintable t = true ∧
    (∀ y' x' t', scannedBefore y' x' y x →
       cell (board demoGame) y' x' = Some t' → hintable t' = false) ∧
    hintsLeft s' = hintsLeft demoGame - 1 ∧ status s' ≠ Lost ∧
    ∃ t', cell (board s') y x = Some t' ∧ isRevealed t' = true.
Proof. apply useHint_result. demo_reachable. Defined.

(** X14. From the first click on, no command but [newGame]/[restart]
    moves a tile, changes which tiles are mines or the number a tile
    shows, or hides a revealed tile. *)
Theorem board_frame (e : Env) (c : Command) (s : GameState) (y x : Z)
    (t : Tile) :
  reachable s → status s ≠ Ready → isReset c = false →
  cell (board s) y x = Some t →
  ∃ t', cell (board (step e c s)) y x = Some t' ∧
    tile_x t' = x ∧ tile_y t' = y ∧ isMine t' = isMine t ∧
    adjacentMines t' = adjacentMines t ∧
    (isRevealed t = true → isRevealed t' = true).
Proof.
  intros Hre Hnr Hc Ht. pose proof (reachable_inv _ Hre) as Hinv.
  destruct Hinv as (Hwf & Hrest). destruct (proj2 Hwf _ _ _ Ht) as [Hx Hy].
  assert (gameInv s) as Hinv by (by split).
  assert (∀ b', tilewise opened (board s) b' →
    ∃ t', cell b' y x = Some t' ∧
      tile_x t' = x ∧ tile_y t' = y ∧ isMine t' = isMine t ∧
      adjacentMines t' = adjacentMines t ∧
      (isRevealed t = true → isRevealed t' = true)) as Hopened.
  { intros b' Htw.
    destruct (tilewise_cell_l _ _ _ _ _ _ Htw Ht)
      as (t' & Ht' & [Hx' Hy'] & ? & ? & _ & ?).
    exists t'. split_and!; congruence || done. }
  destruct (step_moved e c s Hinv Hc)
    as [->|[(x0 & y0 & H)|[(x0 & y0 & H)|[(x0 & y0 & H)|[H|H] ] ] ] ].
  - exists t. by split_and!.
  - destruct (flagOutcome_facts s x0 y0 _ Hwf H)
      as (_ & _ & _ & _ & _ & _ & _ & Htw & _).
    destruct (tilewise_cell_l _ _ _ _ _ _ Htw Ht) as (t' & Ht' & Hrel).
    destruct (flagToggled_facts _ _ Hrel) as ([Hx' Hy'] & ? & ? & Hr' & _).
    exists t'. split_and!; congruence || done.
  - destruct (revealOutcome_facts _ _ s x0 y0 _ Hinv H)
      as (_ & _ & _ & _ & _ & _ & _ & _ & _ & Htw & _).
    by apply Hopened, Htw.
  - destruct (chordOutcome_facts s x0 y0 _ Hinv H)
      as (_ & _ & _ & _ & _ & _ & _ & _ & _ & Htw & _).
    by apply Hopened.
  - destruct H as (_ & x0 & y0 & t0 & s1 & _ & _ & _ & H & ->). simpl.
    destruct (revealOutcome_facts _ _ s x0 y0 _ Hinv H)
      as (_ & _ & _ & _ & _ & _ & _ & _ & _ & Htw & _).
    by apply Hopened, Htw.
  - destruct H as (_ & t0 & _ & _ & ->). simpl. exists t. by split_and!.
Qed.

Lemma board_frame_witness :
  ∃ t', cell (board (step demoEnv (Reveal 3 1) demoGame)) 0 2 = Some t' ∧
    tile_x t' = 2 ∧ tile_y t' = 0 ∧
    isMine t' = isMine (mkTile 2 0 true false false 0) ∧
    adjacentMines t' = adjacentMines (mkTile 2 0 true false false 0) ∧
    (isRevealed (mkTile 2 0 true false false 0) = true →
     isRevealed t' = true).
Proof.
  apply board_frame.
  - demo_reachable.
  - vm_compute. discriminate.
  - reflexivity.
  - vm_compute. reflexivity.
Defined.

(** X15. Only [toggleFlag] (and a new game) changes flags: [reveal],
    [chord], [useHint] and the timer leave the flag of every tile and the
    counters [flagsPlaced] and [minesLeft] as they are, also when they
    place the mines or end the game. *)
Theorem flags_only_by_toggle (e : Env) (c : Command) (s : GameState) :
  reachable s → isReset c = false → (∀ x y, c ≠ ToggleFlag x y) →
  flagsPlaced (step e c s) = flagsPlaced s ∧
  minesLeft (step e c s) = minesLeft s ∧
  ∀ y x t, cell (board s) y x = Some t →
    ∃ t', cell (board (step e c s)) y x = Some t' ∧
          isFlagged t' = isFlagged t.
Proof.
  intros Hre Hc Hnf. pose proof (reachable_inv _ Hre) as Hinv.
  assert (∀ s', flagsPlaced s' = flagsPlaced s → minesLeft s' = minesLeft s →
    tilewise unflipped (board s) (board s') →
    flagsPlaced s' = flagsPlaced s ∧ minesLeft s' = minesLeft s ∧
    ∀ y x t, cell (board s) y x = Some t →
      ∃ t', cell (board s') y x = Some t' ∧ isFlagged t' = isFlagged t)
    as Hkeep.
  { intros s' Hf Hl Htw. split; [done|]. split; [done|]. intros y x t Ht.
    destruct (tilewise_cell_l _ _ _ _ _ _ Htw Ht) as (t' & Ht' & _ & ? & _).
    by exists t'. }
  assert (tilewise unflipped (board s) (board s)) as Hrefl.
  { apply tilewise_refl. intros u. by split. }
  unfold step. destruct c as [| | |x y|x y|x y| |]; try done; simpl.
  - by destruct (Hnf x y).
  - destruct (reveal_outcome (env_rnd e) (env_now e) s x y Hinv)
      as [->|(s' & -> & H)]; simpl; [by apply Hkeep|].
    destruct (revealOutcome_facts _ _ s x y s' Hinv H)
      as (_ & ? & ? & _ & _ & _ & _ & _ & ? & _).
    by apply Hkeep.
  - destruct (chord_outcome s x y Hinv) as [[-> _]|(s' & -> & H)]; simpl;
      [by apply Hkeep|].
    destruct (chordOutcome_facts s x y s' Hinv H)
      as (_ & _ & ? & ? & _ & _ & _ & _ & _ & Htw & _).
    apply Hkeep; [done..|].
    eapply tilewise_weaken; [|exact Htw]. apply opened_unflipped.
  - destruct (useHint_outcome (env_rnd e) (env_now e) s Hinv)
      as [[-> _]|(s' & -> & _ & x & y & t & s1 & _ & _ & _ & H & ->)]; simpl;
      [by apply Hkeep|].
    destruct (revealOutcome_facts _ _ s x y s1 Hinv H)
      as (_ & ? & ? & _ & _ & _ & _ & _ & ? & _).
    by apply (Hkeep (withHintsLeft s1 (Z.max 0 (hintsLeft s1 - 1)))).
  - destruct (tick_outcome (env_now e) s)
      as [->|(s' & -> & _ & t0 & _ & _ & ->)]; simpl; by apply Hkeep.
Qed.

Lemma flags_only_by_toggle_witness :
  flagsPlaced (step demoEnv (Reveal 1 1) demoFresh) = flagsPlaced demoFresh ∧
  minesLeft (step demoEnv (Reveal 1 1) demoFresh) = minesLeft demoFresh ∧
  ∀ y x t, cell (board demoFresh) y x = Some t →
    ∃ t', cell (board (step demoEnv (Reveal 1 1) demoFresh)) y x = Some t' ∧
          isFlagged t' = isFlagged t.
Proof.
  apply flags_only_by_toggle.
  - demo_reachable.
  - reflexivity.
  - intros x y. discriminate.
Defined.

(** X16. The timer callback does nothing unless the game is being played;
    while it is, the start time is set and the callback writes the time
    elapsed since then into [elapsedMs] and changes nothing else (a start
    time of 0 counts as not set). *)
Theorem timer_tick (now : Z) (s : GameState) :
  reachable s →
  (status s ≠ Playing → tick now s = Some s) ∧
  (status s = Playing →
   ∃ t0, startedAt s = Some t0 ∧
     tick now s =
     Some (if decide (t0 = 0) then s else withElapsedMs s (now - t0))).
Proof.
  intros Hre. destruct (clock_inv s Hre) as (_ & Hrun & _). unfold tick.
  split.
  - intros Hnp. destruct (startedAt s) as [t0|]; [|done].
    by rewrite bool_decide_eq_false_2.
  - intros Hp. destruct Hrun as (_ & t0 & Ht0); [congruence|].
    exists t0. split; [done|]. rewrite Ht0, bool_decide_eq_true_2 by done.
    simpl. destruct (decide (t0 = 0)) as [E|E].
    + by rewrite bool_decide_eq_true_2.
    + by rewrite bool_decide_eq_false_2.
Qed.

Lemma timer_tick_witness :
  (status demoGame ≠ Playing → tick 250 demoGame = Some demoGame) ∧
  (status demoGame = Playing →
   ∃ t0, startedAt demoGame = Some t0 ∧
     tick 250 demoGame =
     Some (if decide (t0 = 0) then demoGame
           else withElapsedMs demoGame (250 - t0))).
Proof. apply timer_tick. demo_reachable. Defined.

(** X17. A [reveal] leaves the snapshot as it is exactly when the game is
    over, the position lies outside the board, or the tile is revealed or
    flagged; in particular a flag protects its tile. *)
Theorem reveal_noop_iff (rnd : nat → nat) (now : Z) (s : GameState)
    (x y : Z) :
  reachable s →
  reveal rnd now s x y = Some s ↔
  (finished s = true ∨ cell (board s) y x = None ∨
   ∃ t, cell (board s) y x = Some t ∧
        (isRevealed t = true ∨ isFlagged t = true)).
Proof.
  intros Hre. pose proof (reachable_inv _ Hre) as Hinv.
  destruct (reveal_cases rnd now s x y Hinv)
    as [[Hsame Hwhy]|(t & Ht & Hfin & Hrev & Hfl & _)]; [done|].
  destruct (reveal_runs rnd now s x y t Hinv Hfin Ht Hrev Hfl)
    as (s' & Hs' & Hout).
  destruct (revealOutcome_facts _ _ s x y s' Hinv Hout)
    as (_ & _ & _ & _ & _ & _ & _ & _ & _ & _ & (t' & Ht' & Hr') & _).
  split.
  - intros Hsame. assert (s' = s) as -> by congruence. congruence.
  - intros [H|[H|(u & Hu & [H|H])] ]; congruence.
Qed.

Lemma reveal_noop_iff_witness :
  reveal (λ i, i) 9 demoGame 0 0 = Some demoGame ↔
  (finished demoGame = true ∨ cell (board demoGame) 0 0 = None ∨
   ∃ t, cell (board demoGame) 0 0 = Some t ∧
        (isRevealed t = true ∨ isFlagged t = true)).
Proof. apply reveal_noop_iff. demo_reachable. Defined.





(** * Properties of the helpers *)

(** X19. Whatever the random draws, the shuffle loop of
    [placeMinesAfterFirstClick] only reorders the candidates: no index is
    lost or doubled. *)
Theorem shuffle_permutes (rnd : nat → nat) (l : list Z) :
  shuffle rnd l ≡ₚ l ∧ length (shuffle rnd l) = length l ∧
  (NoDup l → NoDup (shuffle rnd l)).
Proof.
  assert (shuffle rnd l ≡ₚ l) as H by apply shuffleFrom_perm.
  split; [done|]. split; [by apply Permutation_length|].
  intros Hnd. by rewrite H.
Qed.

Lemma shuffle_permutes_witness :
  shuffle (λ i, 0%nat) [5; 6; 7] ≡ₚ [5; 6; 7] ∧
  length (shuffle (λ i, 0%nat) [5; 6; 7]) = length [5; 6; 7] ∧
  (NoDup [5; 6; 7] → NoDup (shuffle (λ i, 0%nat) [5; 6; 7])).
Proof. apply shuffle_permutes. Defined.

(** X20. The mine set of [placeMinesAfterFirstClick] for any
    configuration, valid or not: its positions are distinct candidates,
    and [slice(0, mines)] takes [mines] of them, all of them when [mines]
    is larger than their number, and all but the last [-mines] when
    [mines] is negative. *)
Theorem minePositions_length (rnd : nat → nat) (s : GameState) (sx sy : Z) :
  NoDup (minePositions rnd s sx sy) ∧
  (∀ i, i ∈ minePositions rnd s sx sy → i ∈ candidates s sx sy) ∧
  len (minePositions rnd s sx sy) =
    (if decide (mines s < 0)
     then Z.max (len (candidates s sx sy) + mines s) 0
     else Z.min (mines s) (len (candidates s sx sy))) ∧
  (len (candidates s sx sy) ≤ mines s →
   ∀ i, i ∈ candidates s sx sy → i ∈ minePositions rnd s sx sy).
Proof.
  destruct (candidates_facts s sx sy) as (Hnd & _ & _).
  pose proof (shuffle_perm rnd (candidates s sx sy)) as Hperm.
  pose proof (Permutation_length Hperm) as Hlen.
  split; [|split; [|split] ].
  - unfold minePositions, slice0. eapply sublist_NoDup; [|apply sublist_take].
    by rewrite Hperm.
  - apply minePositions_candidates.
  - unfold minePositions, slice0, len. rewrite length_take, Hlen.
    destruct (decide (mines s < 0)); unfold len; lia.
  - intros Hle i Hi. unfold minePositions, slice0.
    rewrite decide_False by (pose proof (len_nonneg (candidates s sx sy)); lia).
    rewrite take_ge by (unfold len in Hle; lia). by rewrite Hperm.
Qed.

Lemma minePositions_length_witness :
  NoDup (minePositions (λ i, i) demoFresh 0 0) ∧
  (∀ i, i ∈ minePositions (λ i, i) demoFresh 0 0 →
        i ∈ candidates demoFresh 0 0) ∧
  len (minePositions (λ i, i) demoFresh 0 0) =
    (if decide (mines demoFresh < 0)
     then Z.max (len (candidates demoFresh 0 0) + mines demoFresh) 0
     else Z.min (mines demoFresh) (len (candidates demoFresh 0 0))) ∧
  (len (candidates demoFresh 0 0) ≤ mines demoFresh →
   ∀ i, i ∈ candidates demoFresh 0 0 →
        i ∈ minePositions (λ i, i) demoFresh 0 0).
Proof. apply minePositions_length. Defined.

(** X21. On a grid [neighbors] never fails; it returns at most 8 tiles:
    the tiles of the board at distance 1 of [(x, y)], never the tile at
    [(x, y)] itself. *)
Theorem neighbors_spec (r c : Z) (b : Board) (x y : Z) :
  grid r c b →
  ∃ l, neighbors b x y = Some l ∧ len l ≤ 8 ∧
    ∀ t, t ∈ l ↔
      ∃ y' x', cell b y' x' = Some t ∧
               -1 ≤ y' - y ≤ 1 ∧ -1 ≤ x' - x ≤ 1 ∧ ¬ (y' = y ∧ x' = x).
Proof.
  intros Hg. exists (neighborTiles b x y).
  split; [by eapply neighbors_grid|]. split.
  - unfold neighborTiles, len.
    assert (∀ l : list (Z * Z),
      Nat.le (length (omap (λ d, cell b (y + d.1) (x + d.2)) l)) (length l))
      as Hle.
    { induction l as [|d l IH]; [done|].
      change (omap (λ d, cell b (y + d.1) (x + d.2)) (d :: l))
        with (match cell b (y + d.1) (x + d.2) with
              | Some t => t :: omap (λ d, cell b (y + d.1) (x + d.2)) l
              | None => omap (λ d, cell b (y + d.1) (x + d.2)) l
              end).
      destruct (cell b (y + d.1) (x + d.2)); simpl; lia. }
    specialize (Hle offsets8). change (length offsets8) with 8%nat in Hle. lia.
  - intros t. rewrite elem_of_neighborTiles. split.
    + intros ([dy dx] & Hd & Ht). apply elem_of_offsets8 in Hd as [Hd Hne].
      apply elem_of_offsets9 in Hd. simpl in *.
      exists (y + dy), (x + dx). split; [done|].
      split; [lia|]. split; [lia|]. intros [? ?]. apply Hne. f_equal; lia.
    + intros (y' & x' & Ht & Hy & Hx & Hne). exists (y' - y, x' - x).
      split.
      * apply elem_of_offsets8. split; [apply elem_of_offsets9; simpl; lia|].
        intros [= ? ?]. apply Hne. lia.
      * simpl. by replace (y + (y' - y)) with y' by lia;
          replace (x + (x' - x)) with x' by lia.
Qed.

Lemma neighbors_spec_witness :
  ∃ l, neighbors (board (initialState 4 4 3 Custom)) 0 0 = Some l ∧
    len l ≤ 8 ∧
    ∀ t, t ∈ l ↔
      ∃ y' x', cell (board (initialState 4 4 3 Custom)) y' x' = Some t ∧
               -1 ≤ y' - 0 ≤ 1 ∧ -1 ≤ x' - 0 ≤ 1 ∧ ¬ (y' = 0 ∧ x' = 0).
Proof.
  apply (neighbors_spec 4 4). apply (initialState_wf 4 4 3 Custom).
Defined.

Lemma tilewise_eq b b' : tilewise eq b b' → b = b'.
Proof.
  intros H. induction H as [|row row' b b' Hrow _ IH]; [done|].
  f_equal; [|done]. induction Hrow as [|t t' l l' -> _ IHl]; [done|].
  by f_equal.
Qed.

(** X22. [recalculateAdjacency] is idempotent on a grid: the numbers it
    writes depend on the mines only, so a second pass writes the same
    board. *)
Theorem recalculateAdjacency_idem (r c : Z) (b b' : Board) :
  grid r c b → recalculateAdjacency b = Some b' →
  recalculateAdjacency b' = Some b'.
Proof.
  intros Hg Hb'.
  destruct (recalculateAdjacency_spec r c b Hg) as (b1 & Hb1 & Hg1 & _ & Hok1).
  assert (b1 = b') as -> by congruence.
  destruct (recalculateAdjacency_spec r c b' Hg1)
    as (b2 & Hb2 & Hg2 & Htw & Hok2).
  rewrite Hb2. f_equal. symmetry. apply tilewise_eq.
  apply (tilewise_intro eq r c); [done..|]. intros y x t Ht.
  destruct (tilewise_cell_l _ _ _ _ _ _ Htw Ht) as (t2 & Ht2 & Hrel).
  exists t2. split; [done|]. unfold sameButAdjacent in Hrel.
  assert (isMine t2 = isMine t) as Hm by (rewrite Hrel; done).
  assert (adjacentMines t2 = adjacentMines t) as Ha.
  { rewrite (Hok2 _ _ _ Ht2), (Hok1 _ _ _ Ht), Hm.
    destruct (isMine t); [done|]. apply mineCount_ext. intros y' x'.
    pose proof (tilewise_cell _ _ _ y' x' Htw) as Hc.
    destruct (cell b' y' x') as [u|], (cell b2 y' x') as [u2|]; try done.
    simpl. unfold sameButAdjacent in Hc. by rewrite Hc. }
  rewrite Hrel, Ha. by destruct t.
Qed.

Lemma recalculateAdjacency_idem_witness :
  recalculateAdjacency
    [[mkTile 0 0 true false false 0; mkTile 1 0 false false false 1]]
  = Some [[mkTile 0 0 true false false 0; mkTile 1 0 false false false 1]].
Proof.
  apply (recalculateAdjacency_idem 1 2
           [[mkTile 0 0 true false false 0; mkTile 1 0 false false false 0]]).
  - split; [reflexivity|]. by repeat constructor.
  - vm_compute. reflexivity.
Defined.

Lemma step_config e c s : isReset c = false → sameConfig s (step e c s).
Proof.
  intros Hc. unfold step.
  destruct (exec e c s) as [s'|] eqn:He; simpl; [|by repeat split].
  destruct c; try done; simpl in He.
  - by eapply toggleFlag_config.
  - by eapply reveal_config.
  - by eapply chord_config.
  - by eapply useHint_config.
  - unfold tick in He. destruct (startedAt s); [|injection He as <-; by repeat split].
    destruct (_ || _); injection He as <-; by repeat split.
Qed.

(** X23. [restart] gives back the snapshot the game started from:
    whatever was played since the last [newGame], from any state and with
    any configuration, the restarted game is the fresh game [newGame]
    built. *)
Theorem restart_restores (e0 e : Env) (r c m : Z) (d : Difficulty)
    (s0 : GameState) (es : list (Env * Command)) :
  Forall (λ ec, isReset ec.2 = false) es →
  step e Restart (run es (step e0 (NewGame r c m d) s0))
  = step e0 (NewGame r c m d) s0.
Proof.
  intros Hes.
  assert (sameConfig (step e0 (NewGame r c m d) s0)
            (run es (step e0 (NewGame r c m d) s0))) as Hcfg.
  { generalize (step e0 (NewGame r c m d) s0). intros s.
    revert s. induction Hes as [|[e1 c1] es Hc _ IH]; intros s.
    - by repeat split.
    - unfold run. simpl. eapply sameConfig_trans; [|apply IH].
      by apply step_config. }
  destruct Hcfg as (Hr & Hc & Hm & Hd).
  unfold step at 1. simpl. unfold restart, newGame. simpl.
  rewrite Hr, Hc, Hm, Hd. done.
Qed.

Lemma restart_restores_witness :
  step demoEnv Restart
    (run [(demoEnv, Reveal 0 0); (demoEnv, ToggleFlag 2 1); (demoEnv, UseHint)]
       (step demoEnv (NewGame 4 4 3 Custom) (initialState 9 9 10 Beginner)))
  = step demoEnv (NewGame 4 4 3 Custom) (initialState 9 9 10 Beginner).
Proof.
  apply restart_restores. by repeat constructor.
Defined.

(** * The position keys *)

Module TileKeyFacts.
Import Stdlib.Strings.Ascii stdpp.strings stdpp.pretty TileKey.
Local Open Scope Z_scope.

Lemma pretty_N_char_noColon x : pretty_N_char x ≠ ":"%char.
Proof. unfold pretty_N_char. by repeat case_match. Qed.

Lemma pretty_N_go_noColon x s : noColon s → noColon (pretty_N_go x s).
Proof.
  revert s. induction (N.lt_wf_0 x) as [x _ IH]. intros s Hs.
  destruct (decide (0 < x)%N) as [Hx|Hx].
  - rewrite pretty_N_go_step by done. apply IH.
    + by apply N.div_lt.
    + split; [apply pretty_N_char_noColon|done].
  - assert (x = 0%N) as -> by lia. by rewrite pretty_N_go_0.
Qed.

Lemma pretty_Z_noColon (z : Z) : noColon (pretty z).
Proof.
  assert (∀ n : N, noColon (pretty n)) as HN.
  { intros n. unfold pretty, pretty_N. case_decide; [by split|].
    by apply pretty_N_go_noColon. }
  destruct z as [|p|p]; [by split|apply (HN (Npos p))|].
  split; [done|]. apply (HN (Npos p)).
Qed.

Lemma split_at_colon s1 s2 t1 t2 :
  noColon s1 → noColon s2 →
  s1 +:+ ":" +:+ t1 = s2 +:+ ":" +:+ t2 → s1 = s2 ∧ t1 = t2.
Proof.
  revert s2. induction s1 as [|c s1 IH]; intros [|c2 s2] H1 H2 Heq; simpl in *.
  - by injection Heq.
  - injection Heq as <- _. by destruct H2.
  - injection Heq as -> _. by destruct H1.
  - injection Heq as -> Heq. destruct H1, H2.
    destruct (IH s2) as [-> ->]; done.
Qed.

(** X24. The key [y + ':' + x] identifies the position: two positions
    with the same key are the same, so looking a key up in the set
    [visited] of the fill is looking the pair [(y, x)] up, and
    [trackByTile] gives different tiles of a board different keys. *)
Theorem tileKey_inj (v : list (Z * Z)) (y x : Z) :
  printable y → printable x →
  Forall (λ p, printable p.1 ∧ printable p.2) v →
  (∀ y' x', printable y' → printable x' →
            tileKey y x = tileKey y' x' → y = y' ∧ x = x') ∧
  (tileKey y x ∈ (λ p, tileKey p.1 p.2) <$> v ↔ (y, x) ∈ v).
Proof.
  intros _ _ _.
  assert (∀ y' x', tileKey y x = tileKey y' x' → y = y' ∧ x = x') as Hinj.
  { intros y' x' H.
    apply split_at_colon in H as [Hy Hx]; try apply pretty_Z_noColon.
    split; by apply (inj pretty). }
  split; [by intros y' x' _ _; apply Hinj|].
  rewrite list_elem_of_fmap. split.
  - intros ([y' x'] & Hk & Hin). by destruct (Hinj _ _ Hk) as [-> ->].
  - intros Hin. by exists (y, x).
Qed.

Lemma tileKey_inj_witness :
  (∀ y' x', printable y' → printable x' →
            tileKey 1 12 = tileKey y' x' → 1 = y' ∧ 12 = x') ∧
  (tileKey 1 12 ∈ (λ p, tileKey p.1 p.2) <$> [(11, 2); (1, 12)]
   ↔ (1, 12) ∈ [(11, 2); (1, 12)]).
Proof.
  apply tileKey_inj.
  - unfold printable. simpl. lia.
  - unfold printable. simpl. lia.
  - repeat constructor; unfold printable; simpl; lia.
Defined.

End TileKeyFacts.
